(** * backtrader_plotting: the Bokeh plotter

    A shallow embedding of [backtrader_plotting/bokeh/bokeh.py] (class
    [Bokeh]) and the properties of its plot-graph construction, range
    resolution, render call and analyzer layout.

    Python objects live in a heap indexed by object identity; the methods of
    [Bokeh] are computations over the instance state that may raise, and
    whose state changes survive a raise.  The only unbounded loop of the file
    ([_resolve_plotmaster]) is given fuel, and running out of it is a
    separate outcome. *)

From Stdlib Require Import String List ZArith QArith Bool Arith Lia Lra Recdef
  Permutation.
Import ListNotations.
Close Scope Q_scope.

Set Implicit Arguments.

(** ** Python values and objects *)

(** Object identity.  Dictionaries of backtrader line objects are keyed by
    identity ([__hash__] is the one of [object]). *)
Definition ObjId := nat.

(** The class family [type(master)] falls in. *)
Inductive Kind := DataBase | Indicator | Observer | LineSingle.

(** The scalar values a scheme option can hold. *)
Inductive pyval :=
| PyNone
| PyBool (b : bool)
| PyInt (z : Z)
| PyStr (s : string).

(** Truth value of a scalar, as [if v:] takes it. *)
Definition py_truth (v : pyval) : bool :=
  match v with
  | PyNone => false
  | PyBool b => b
  | PyInt z => negb (z =? 0)%Z
  | PyStr s => negb (String.eqb s EmptyString)
  end.

(** [v is False]. *)
Definition is_False (v : pyval) : bool :=
  match v with
  | PyBool false => true
  | _ => false
  end.

(** The exceptions the modelled code meets. *)
Inductive exn :=
| AttributeError
| TypeError
| KeyError
| IndexError
| Exception (msg : string).

(** What evaluating an expression or calling a method comes to: a value, an
    exception, or no end. *)
Inductive outcome (A : Type) :=
| Ok (a : A)
| Raise (e : exn)
| Diverge.

Arguments Ok {A} a.
Arguments Raise {A} e.
Arguments Diverge {A}.

(** The [plotinfo] attributes the plotter reads.  [pi_plotabove] is read with
    [getattr(..., 'plotabove', False)], so it may be missing. *)
Record PlotInfo := mkPlotInfo {
  pi_plot : bool;
  pi_plotskip : bool;
  pi_subplot : bool;
  pi_plotmaster : option ObjId;
  pi_plotabove : option bool
}.

(** A data feed, indicator or observer.  [plotinfo] is absent on classes
    without plotting support ([hasattr(i, 'plotinfo')] is false).  [truthy]
    is what [bool(x)] comes to, the call [x or y] makes on its left operand:
    it is the object's own [__bool__] that answers, and it may raise.
    backtrader's line objects overload [__bool__] with their operators, and
    on such an object the call raises [AttributeError] once the run is
    over. *)
Record Obj := mkObj {
  kind : Kind;
  truthy : outcome bool;
  plotinfo : option PlotInfo;
  data : option ObjId
}.

Definition Heap := ObjId -> Obj.

(** ** The instance-state monad *)

(** A method body: it runs on the instance state, and the state it leaves
    behind is kept whether it returns or raises. *)
Definition M (S A : Type) : Type := S -> S * outcome A.

Definition ret {S A} (a : A) : M S A := fun s => (s, Ok a).

Definition bind {S A B} (m : M S A) (k : A -> M S B) : M S B :=
  fun s =>
    match m s with
    | (s', Ok a) => k a s'
    | (s', Raise e) => (s', Raise e)
    | (s', Diverge) => (s', Diverge)
    end.

Definition raise {S A} (e : exn) : M S A := fun s => (s, Raise e).

Definition lift {S A} (o : outcome A) : M S A := fun s => (s, o).

Definition gets {S A} (f : S -> A) : M S A := fun s => (s, Ok (f s)).

Definition modify {S} (f : S -> S) : M S unit := fun s => (f s, Ok tt).

Declare Scope py_scope.
Delimit Scope py_scope with py.
Notation "x <- m ;; k" := (bind m (fun x => k))
  (at level 100, m at next level, right associativity) : py_scope.
Notation "m ;; k" := (bind m (fun _ => k))
  (at level 100, right associativity) : py_scope.
Open Scope py_scope.

(** [for x in xs: body]. *)
Fixpoint for_each {S X} (xs : list X) (body : X -> M S unit) : M S unit :=
  match xs with
  | [] => ret tt
  | x :: xs' => body x ;; for_each xs' body
  end.

(** [obj.plotinfo] *)
Definition get_plotinfo {S} (h : Heap) (x : ObjId) : M S PlotInfo :=
  match plotinfo (h x) with
  | Some pi => ret pi
  | None => raise AttributeError
  end.

(** ** The plot-master resolver *)

(** The [while True] loop of [_resolve_plotmaster], one iteration per unit of
    fuel. *)
Fixpoint resolve_loop (fuel : nat) (h : Heap) (obj : ObjId) : outcome ObjId :=
  match fuel with
  | O => Diverge
  | S fuel' =>
      match plotinfo (h obj) with
      | None => Raise AttributeError
      | Some pi =>
          match pi_plotmaster pi with
          | None => Ok obj
          | Some pm => resolve_loop fuel' h pm
          end
      end
  end.

Definition _resolve_plotmaster (fuel : nat) (h : Heap) (obj : option ObjId)
  : outcome (option ObjId) :=
  match obj with
  | None => Ok None
  | Some o =>
      match resolve_loop fuel h o with
      | Ok r => Ok (Some r)
      | Raise e => Raise e
      | Diverge => Diverge
      end
  end.

(** [chain h x r]: following the plot-master links from [x] ends, after
    finitely many steps, at [r], which has no plot master. *)
Inductive chain (h : Heap) : ObjId -> ObjId -> Prop :=
| chain_root : forall x pi,
    plotinfo (h x) = Some pi -> pi_plotmaster pi = None -> chain h x x
| chain_link : forall x pi pm r,
    plotinfo (h x) = Some pi -> pi_plotmaster pi = Some pm ->
    chain h pm r -> chain h x r.

(** [on_chain h x y]: [y] is [x] or one of the masters above it. *)
Inductive on_chain (h : Heap) : ObjId -> ObjId -> Prop :=
| on_chain_here : forall x, on_chain h x x
| on_chain_up : forall x pi pm y,
    plotinfo (h x) = Some pi -> pi_plotmaster pi = Some pm ->
    on_chain h pm y -> on_chain h x y.

(** ** Range resolution *)

(** [x < y] on the numbers [bt.date2num] produces.  They are finite floats,
    compared exactly, hence carried as rationals. *)
Definition Qltb (x y : Q) : bool := negb (Qle_bool y x).

(** [bisect.bisect_left(a, x)] of the Python standard library: the loop
    [while lo < hi: mid = (lo+hi)//2; if a[mid] < x: lo = mid+1 else: hi = mid]. *)
Function bisect_left_loop (a : list Q) (x : Q) (lohi : nat * nat)
  {measure (fun p => snd p - fst p) lohi} : nat :=
  let (lo, hi) := lohi in
  if lo <? hi then
    let mid := (lo + hi) / 2 in
    if Qltb (nth mid a 0%Q) x then bisect_left_loop a x (mid + 1, hi)
    else bisect_left_loop a x (lo, mid)
  else lo.
Proof.
  all: intros a x lohi lo hi Heq Hlt Hc; apply Nat.ltb_lt in Hlt; cbn [fst snd];
    assert ((lo + hi) / 2 < hi) by (apply Nat.Div0.div_lt_upper_bound; lia);
    assert (lo <= (lo + hi) / 2) by (apply Nat.div_le_lower_bound; lia); lia.
Defined.

(** [bisect.bisect_right(a, x)]: the loop
    [while lo < hi: mid = (lo+hi)//2; if x < a[mid]: hi = mid else: lo = mid+1]. *)
Function bisect_right_loop (a : list Q) (x : Q) (lohi : nat * nat)
  {measure (fun p => snd p - fst p) lohi} : nat :=
  let (lo, hi) := lohi in
  if lo <? hi then
    let mid := (lo + hi) / 2 in
    if Qltb x (nth mid a 0%Q) then bisect_right_loop a x (lo, mid)
    else bisect_right_loop a x (mid + 1, hi)
  else lo.
Proof.
  all: intros a x lohi lo hi Heq Hlt Hc; apply Nat.ltb_lt in Hlt; cbn [fst snd];
    assert ((lo + hi) / 2 < hi) by (apply Nat.Div0.div_lt_upper_bound; lia);
    assert (lo <= (lo + hi) / 2) by (apply Nat.div_le_lower_bound; lia); lia.
Defined.

Definition bisect_left (a : list Q) (x : Q) : nat :=
  bisect_left_loop a x (0, length a).

Definition bisect_right (a : list Q) (x : Q) : nat :=
  bisect_right_loop a x (0, length a).

(** A [start] or [end] argument of [plot]: absent, an integer index, or a
    calendar date (a [datetime.date], [datetime.datetime] included), the
    latter carried as its [bt.date2num] number. *)
Inductive bound :=
| BNone
| BInt (i : Z)
| BDate (num : Q).

(** [_get_start_end], on the series [strategy.lines.datetime.plot()]. *)
Definition _get_start_end (st_dtime : list Q) (start end_ : bound) : Z * Z :=
  let len := Z.of_nat (length st_dtime) in
  let start :=
    match start with
    | BNone => 0%Z
    | BInt i => i
    | BDate d => Z.of_nat (bisect_left st_dtime d)
    end in
  let end_ :=
    match end_ with
    | BNone => len
    | BInt i => i
    | BDate d => Z.of_nat (bisect_right st_dtime d)
    end in
  let end_ := if (end_ <? 0)%Z then (len + 1 + end_)%Z else end_ in
  (start, end_).

(** The series is in time order. *)
Definition sorted_series (a : list Q) : Prop :=
  forall i j, i <= j -> j < length a -> (nth i a 0 <= nth j a 0)%Q.

(** ** The analyzer tab *)

(** A bokeh widget of the analyzer tab (a [Paragraph] or a [DataTable]); the
    layout code reads its [height] only. *)
Record Element := mkElement { el_height : option Z }.

(** Modelled from the spec: [TableGenerator.get_analyzers_tables]
    (datatable.py) is not among the sources; an analyzer is represented by
    what it is rendered into, a table header and its row elements. *)
Record Analyzer := mkAnalyzer {
  an_header : Element;
  an_elements : list Element
}.

Definition get_analyzers_tables (a : Analyzer) : Element * list Element :=
  (an_header a, an_elements a).

(** A strategy's [analyzers], as [getitems()] lists them. *)
Definition ItemCollection := list (string * Analyzer).

(** [sum([x.height for x in col if x.height is not None])] *)
Definition _get_column_row_count (col : list Element) : Z :=
  fold_left Z.add
    (flat_map (fun x => match el_height x with
                        | Some hh => [hh]
                        | None => []
                        end) col)
    0%Z.

(** The index the loop body computes: [0 if col0cnt <= col1cnt else 1]. *)
Definition col_idx (col_childs : list Element * list Element) : nat :=
  let col0cnt := _get_column_row_count (fst col_childs) in
  let col1cnt := _get_column_row_count (snd col_childs) in
  if (col0cnt <=? col1cnt)%Z then 0 else 1.

(** One iteration of the inner loop:
    [col_childs[col_idx] += [table_header] + elements]. *)
Definition place (col_childs : list Element * list Element)
  (item : string * Analyzer) : list Element * list Element :=
  let '(table_header, elements) := get_analyzers_tables (snd item) in
  match col_idx col_childs with
  | 0 => (fst col_childs ++ table_header :: elements, snd col_childs)
  | _ => (fst col_childs, snd col_childs ++ table_header :: elements)
  end.

(** Both loops, from [col_childs = [[], []]]. *)
Definition fill_columns (analyzers : list ItemCollection)
  : list Element * list Element :=
  fold_left (fun cols a => fold_left place a cols) analyzers ([], []).

Inductive Column := column (children : list Element).
Inductive Row := row (children : list Column).
Record Panel := mkPanel { child : Row; title : string }.

(** ** The plotter's state *)

(** The options of [self.p.scheme] the modelled methods read. *)
Record Scheme := mkScheme {
  volume : pyval;
  voloverlay : pyval;
  xaxis_pos : string;
  legend_click : string;
  legend_background_color : string;
  legend_text_color : string
}.

(** The shared time source: the column built from the datetime line of a
    data feed, cut by [plotrange(start, end)]. *)
Record ColumnDataSource := mkCDS {
  cds_feed : ObjId;
  cds_start : bound;
  cds_end : bound
}.

(** What [plot] reads of a strategy: its data feeds, [getindicators()],
    [getobservers()], its analyzers, [len(strategy)] and
    [lines.datetime.plot()]. *)
Record Strategy := mkStrategy {
  datas : list ObjId;
  getindicators : list ObjId;
  getobservers : list ObjId;
  analyzers : ItemCollection;
  strategy_len : nat;
  st_dtime : list Q
}.

(** The tooltips registered while the glyphs of one strategy are created. *)
Definition HoverContainer := list ObjId.

(** Modelled from the spec: class [Figure] (figure.py) is not among the
    sources.  A figure is bound to the shared time source, the index range
    and the master's type and plot-above flag; plotting adds to its series
    list and to the hover registry.  The fields below [fig_volume] are the
    attributes of the bokeh figure that [plot] assigns: [x_range] is [None]
    for the range object the figure was created with and [Some i] for the
    one of the [i]-th panel of the same call. *)
Record Figure := mkFigure {
  fig_cds : option ColumnDataSource;
  fig_start : Z;
  fig_end : Z;
  master_type : option Kind;
  plotabove : bool;
  fig_series : list (ObjId * option ObjId);
  fig_volume : list ObjId;
  legend_click_policy : option string;
  legend_background_fill_color : option string;
  legend_label_text_color : option string;
  x_range : option nat;
  xaxis_visible : bool;
  fig_hovertips : HoverContainer
}.

(** [Figure(strategy, cds, hoverc, start, end, scheme, master_type, plotabove)] *)
Definition Figure_init (cds : option ColumnDataSource) (start end_ : Z)
  (mt : option Kind) (pa : bool) : Figure :=
  {| fig_cds := cds; fig_start := start; fig_end := end_;
     master_type := mt; plotabove := pa;
     fig_series := []; fig_volume := [];
     legend_click_policy := None;
     legend_background_fill_color := None;
     legend_label_text_color := None;
     x_range := None; xaxis_visible := true; fig_hovertips := [] |}.

(** [bf.plot(obj, master)] *)
Definition Figure_plot (bf : Figure) (hoverc : HoverContainer)
  (obj : ObjId) (master : option ObjId) : Figure * HoverContainer :=
  ({| fig_cds := fig_cds bf; fig_start := fig_start bf; fig_end := fig_end bf;
      master_type := master_type bf; plotabove := plotabove bf;
      fig_series := fig_series bf ++ [(obj, master)];
      fig_volume := fig_volume bf;
      legend_click_policy := legend_click_policy bf;
      legend_background_fill_color := legend_background_fill_color bf;
      legend_label_text_color := legend_label_text_color bf;
      x_range := x_range bf; xaxis_visible := xaxis_visible bf;
      fig_hovertips := fig_hovertips bf |},
   hoverc ++ [obj]).

(** [bf.plot_volume(v, 1.0, start, end)] *)
Definition Figure_plot_volume (bf : Figure) (hoverc : HoverContainer)
  (v : ObjId) : Figure * HoverContainer :=
  ({| fig_cds := fig_cds bf; fig_start := fig_start bf; fig_end := fig_end bf;
      master_type := master_type bf; plotabove := plotabove bf;
      fig_series := fig_series bf;
      fig_volume := fig_volume bf ++ [v];
      legend_click_policy := legend_click_policy bf;
      legend_background_fill_color := legend_background_fill_color bf;
      legend_label_text_color := legend_label_text_color bf;
      x_range := x_range bf; xaxis_visible := xaxis_visible bf;
      fig_hovertips := fig_hovertips bf |},
   hoverc ++ [v]).

Definition set_legend_click_policy (v : string) (f : Figure) : Figure :=
  {| fig_cds := fig_cds f; fig_start := fig_start f; fig_end := fig_end f;
     master_type := master_type f; plotabove := plotabove f;
     fig_series := fig_series f; fig_volume := fig_volume f;
     legend_click_policy := Some v;
     legend_background_fill_color := legend_background_fill_color f;
     legend_label_text_color := legend_label_text_color f;
     x_range := x_range f; xaxis_visible := xaxis_visible f;
     fig_hovertips := fig_hovertips f |}.

Definition set_legend_colors (bg txt : string) (f : Figure) : Figure :=
  {| fig_cds := fig_cds f; fig_start := fig_start f; fig_end := fig_end f;
     master_type := master_type f; plotabove := plotabove f;
     fig_series := fig_series f; fig_volume := fig_volume f;
     legend_click_policy := legend_click_policy f;
     legend_background_fill_color := Some bg;
     legend_label_text_color := Some txt;
     x_range := x_range f; xaxis_visible := xaxis_visible f;
     fig_hovertips := fig_hovertips f |}.

Definition set_x_range (r : option nat) (f : Figure) : Figure :=
  {| fig_cds := fig_cds f; fig_start := fig_start f; fig_end := fig_end f;
     master_type := master_type f; plotabove := plotabove f;
     fig_series := fig_series f; fig_volume := fig_volume f;
     legend_click_policy := legend_click_policy f;
     legend_background_fill_color := legend_background_fill_color f;
     legend_label_text_color := legend_label_text_color f;
     x_range := r; xaxis_visible := xaxis_visible f;
     fig_hovertips := fig_hovertips f |}.

Definition set_xaxis_visible (b : bool) (f : Figure) : Figure :=
  {| fig_cds := fig_cds f; fig_start := fig_start f; fig_end := fig_end f;
     master_type := master_type f; plotabove := plotabove f;
     fig_series := fig_series f; fig_volume := fig_volume f;
     legend_click_policy := legend_click_policy f;
     legend_background_fill_color := legend_background_fill_color f;
     legend_label_text_color := legend_label_text_color f;
     x_range := x_range f; xaxis_visible := b;
     fig_hovertips := fig_hovertips f |}.

Definition set_hovertips (hc : HoverContainer) (f : Figure) : Figure :=
  {| fig_cds := fig_cds f; fig_start := fig_start f; fig_end := fig_end f;
     master_type := master_type f; plotabove := plotabove f;
     fig_series := fig_series f; fig_volume := fig_volume f;
     legend_click_policy := legend_click_policy f;
     legend_background_fill_color := legend_background_fill_color f;
     legend_label_text_color := legend_label_text_color f;
     x_range := x_range f; xaxis_visible := xaxis_visible f;
     fig_hovertips := hc |}.

(** [hoverc.apply_hovertips(figures)] *)
Definition apply_hovertips (hoverc : HoverContainer) (figures : list Figure)
  : list Figure :=
  map (set_hovertips hoverc) figures.

(** The plot graph: an insertion-ordered dictionary from a master to the
    list of its slaves.  A key is an object or [None]. *)
Definition Graph := list (option ObjId * list ObjId).

Definition key_eqb (a b : option ObjId) : bool :=
  match a, b with
  | Some x, Some y => x =? y
  | None, None => true
  | _, _ => false
  end.

(** [k in g] *)
Fixpoint contains (k : option ObjId) (g : Graph) : bool :=
  match g with
  | [] => false
  | (k', _) :: g' => if key_eqb k k' then true else contains k g'
  end.

(** [g[k]] *)
Fixpoint getitem (k : option ObjId) (g : Graph) : option (list ObjId) :=
  match g with
  | [] => None
  | (k', v) :: g' => if key_eqb k k' then Some v else getitem k g'
  end.

(** [g[k] = v]: a present key keeps its place, a new one goes last. *)
Fixpoint setitem (k : option ObjId) (v : list ObjId) (g : Graph) : Graph :=
  match g with
  | [] => [(k, v)]
  | (k', v') :: g' =>
      if key_eqb k k' then (k', v) :: g' else (k', v') :: setitem k v g'
  end.

(** The attributes of a [Bokeh] instance. *)
Record Bokeh := mkBokeh {
  scheme : Scheme;
  _figures : list Figure;
  _data_graph : option Graph;
  _volume_graphs : option (list ObjId);
  _cds : option ColumnDataSource;
  _analyzers : list ItemCollection
}.

Definition set_figures (v : list Figure) (self : Bokeh) : Bokeh :=
  {| scheme := scheme self; _figures := v; _data_graph := _data_graph self;
     _volume_graphs := _volume_graphs self; _cds := _cds self;
     _analyzers := _analyzers self |}.

Definition set_data_graph (v : option Graph) (self : Bokeh) : Bokeh :=
  {| scheme := scheme self; _figures := _figures self; _data_graph := v;
     _volume_graphs := _volume_graphs self; _cds := _cds self;
     _analyzers := _analyzers self |}.

Definition set_volume_graphs (v : option (list ObjId)) (self : Bokeh) : Bokeh :=
  {| scheme := scheme self; _figures := _figures self;
     _data_graph := _data_graph self; _volume_graphs := v; _cds := _cds self;
     _analyzers := _analyzers self |}.

Definition set_cds (v : option ColumnDataSource) (self : Bokeh) : Bokeh :=
  {| scheme := scheme self; _figures := _figures self;
     _data_graph := _data_graph self; _volume_graphs := _volume_graphs self;
     _cds := v; _analyzers := _analyzers self |}.

Definition set_analyzers (v : list ItemCollection) (self : Bokeh) : Bokeh :=
  {| scheme := scheme self; _figures := _figures self;
     _data_graph := _data_graph self; _volume_graphs := _volume_graphs self;
     _cds := _cds self; _analyzers := v |}.

(** [__init__], its scheme already carrying the keyword overrides. *)
Definition Bokeh_init (sch : Scheme) : Bokeh :=
  {| scheme := sch; _figures := []; _data_graph := None;
     _volume_graphs := None; _cds := None; _analyzers := [] |}.

(** ** The graph builder *)

(** [self._data_graph], which is a dictionary once [_build_graph] has
    started. *)
Definition the_graph : M Bokeh Graph :=
  fun self =>
    match _data_graph self with
    | Some g => (self, Ok g)
    | None => (self, Raise TypeError)
    end.

(** [self._data_graph[k] = []] *)
Definition graph_new_group (k : option ObjId) : M Bokeh unit :=
  g <- the_graph ;;
  modify (set_data_graph (Some (setitem k [] g))).

(** [self._data_graph[k].append(x)] *)
Definition graph_append (k : option ObjId) (x : ObjId) : M Bokeh unit :=
  g <- the_graph ;;
  match getitem k g with
  | Some slaves => modify (set_data_graph (Some (setitem k (slaves ++ [x]) g)))
  | None => raise KeyError
  end.

(** [if pmaster not in self._data_graph: self._data_graph[pmaster] = []]
    followed by [self._data_graph[pmaster].append(x)]. *)
Definition attach (pmaster : option ObjId) (x : ObjId) : M Bokeh unit :=
  g <- the_graph ;;
  (if negb (contains pmaster g) then graph_new_group pmaster else ret tt) ;;
  graph_append pmaster x.

(** [self._volume_graphs.append(d)] *)
Definition volume_append (d : ObjId) : M Bokeh unit :=
  fun self =>
    match _volume_graphs self with
    | Some v => (set_volume_graphs (Some (v ++ [d])) self, Ok tt)
    | None => (self, Raise AttributeError)
    end.

(** Body of [for d in datas]. *)
Definition build_data (fuel : nat) (h : Heap) (d : ObjId) : M Bokeh unit :=
  pi <- get_plotinfo h d ;;
  if negb (pi_plot pi) then ret tt
  else
    pmaster <- lift (_resolve_plotmaster fuel h (pi_plotmaster pi)) ;;
    match pmaster with
    | None => graph_new_group (Some d)
    | Some _ => attach pmaster d
    end ;;
    sch <- gets scheme ;;
    if py_truth (volume sch) && is_False (voloverlay sch)
    then volume_append d
    else ret tt.

(** [o.plotinfo.plotmaster or o.data]: [None] is false and gives [o.data]
    at once; any other plot master is asked for its truth value with
    [bool], and what that call raises is raised by the expression. *)
Definition plotmaster_or_data (h : Heap) (pi : PlotInfo) (o : ObjId)
  : outcome (option ObjId) :=
  match pi_plotmaster pi with
  | Some pm =>
      match truthy (h pm) with
      | Ok true => Ok (Some pm)
      | Ok false => Ok (data (h o))
      | Raise e => Raise e
      | Diverge => Diverge
      end
  | None => Ok (data (h o))
  end.

(** Body of [for o in obs]. *)
Definition build_observer (fuel : nat) (h : Heap) (o : ObjId) : M Bokeh unit :=
  pi <- get_plotinfo h o ;;
  if negb (pi_plot pi) || pi_plotskip pi then ret tt
  else if pi_subplot pi then graph_new_group (Some o)
  else
    ref <- lift (plotmaster_or_data h pi o) ;;
    pmaster <- lift (_resolve_plotmaster fuel h ref) ;;
    attach pmaster o.

(** [i.plotinfo.plotmaster if i.plotinfo.plotmaster is not None else i.data] *)
Definition plotmaster_else_data (h : Heap) (pi : PlotInfo) (i : ObjId)
  : option ObjId :=
  match pi_plotmaster pi with
  | Some pm => Some pm
  | None => data (h i)
  end.

(** Body of [for i in inds]. *)
Definition build_indicator (fuel : nat) (h : Heap) (i : ObjId) : M Bokeh unit :=
  match plotinfo (h i) with
  | None => ret tt
  | Some pi =>
      if negb (pi_plot pi) || pi_plotskip pi then ret tt
      else if pi_subplot pi then graph_new_group (Some i)
      else
        pmaster <- lift (_resolve_plotmaster fuel h (plotmaster_else_data h pi i)) ;;
        attach pmaster i
  end.

Definition _build_graph (fuel : nat) (h : Heap) (datas inds obs : list ObjId)
  : M Bokeh unit :=
  modify (set_data_graph (Some [])) ;;
  modify (set_volume_graphs (Some [])) ;;
  for_each datas (build_data fuel h) ;;
  for_each obs (build_observer fuel h) ;;
  for_each inds (build_indicator fuel h).

(** ** The render call *)

(** [for x in xs: body], with the local variables of the loop in [acc]. *)
Fixpoint for_fold {S X A} (xs : list X) (acc : A) (body : A -> X -> M S A)
  : M S A :=
  match xs with
  | [] => ret acc
  | x :: xs' => acc' <- body acc x ;; for_fold xs' acc' body
  end.

(** [enumerate(l)] *)
Definition enumerate {A} (l : list A) : list (nat * A) :=
  combine (seq 0 (length l)) l.

(** Body of [for master, slaves in self._data_graph.items()]; the locals are
    [strat_figures] and [hoverc]. *)
Definition plot_group (h : Heap) (start end_ : Z)
  (locals : list Figure * HoverContainer) (group : option ObjId * list ObjId)
  : M Bokeh (list Figure * HoverContainer) :=
  let '(strat_figures, hoverc) := locals in
  let '(master, slaves) := group in
  match master with
  | None => raise AttributeError
  | Some m =>
      pi <- get_plotinfo h m ;;
      let pa := match pi_plotabove pi with Some b => b | None => false end in
      cds <- gets _cds ;;
      let bf := Figure_init cds start end_ (Some (kind (h m))) pa in
      let '(bf, hoverc) := Figure_plot bf hoverc m None in
      let '(bf, hoverc) :=
        fold_left (fun '(bf, hoverc) s => Figure_plot bf hoverc s (Some m))
                  slaves (bf, hoverc) in
      ret (strat_figures ++ [bf], hoverc)
  end.

(** Body of [for v in self._volume_graphs]: the figure is built and plotted
    on, and dropped at the end of the iteration. *)
Definition plot_volume_panel (start end_ : Z) (hoverc : HoverContainer)
  (v : ObjId) : M Bokeh HoverContainer :=
  cds <- gets _cds ;;
  let bf := Figure_init cds start end_ None false in
  let '(_, hoverc) := Figure_plot_volume bf hoverc v in
  ret hoverc.

(** [for i in range(1, len(strat_figures)):
       strat_figures[i].figure.x_range = strat_figures[0].figure.x_range] *)
Definition link_axis (strat_figures : list Figure) : list Figure :=
  map (fun '(i, f) => if 1 <=? i then set_x_range (Some 0) f else f)
      (enumerate strat_figures).

(** [for i, f in enumerate(strat_figures):
       f.figure.xaxis.visible = False if i <= len(strat_figures) else True] *)
Definition configure_xaxis (strat_figures : list Figure) : list Figure :=
  map (fun '(i, f) =>
         set_xaxis_visible
           (if i <=? length strat_figures then false else true) f)
      (enumerate strat_figures).

(** The end of [plot], from "apply legend click policy" to
    [hoverc.apply_hovertips(strat_figures)]: the loops that assign the
    attributes of the panels of this call. *)
Definition style_figures (sch : Scheme) (hoverc : HoverContainer)
  (strat_figures : list Figure) : list Figure :=
  let strat_figures :=
    map (set_legend_click_policy (legend_click sch)) strat_figures in
  let strat_figures :=
    map (set_legend_colors (legend_background_color sch)
                           (legend_text_color sch)) strat_figures in
  let strat_figures := link_axis strat_figures in
  let strat_figures :=
    if String.eqb (xaxis_pos sch) "bottom"
    then configure_xaxis strat_figures
    else strat_figures in
  apply_hovertips hoverc strat_figures.

(** The part of [plot] behind the time source: from the call of
    [_build_graph] to [self._figures += strat_figures]. *)
Definition render_panels (fuel : nat) (h : Heap) (strategy : Strategy)
  (start end_ : bound) : M Bokeh unit :=
  _build_graph fuel h (datas strategy) (getindicators strategy)
               (getobservers strategy) ;;
  let '(start, end_) := _get_start_end (st_dtime strategy) start end_ in
  graph <- gets _data_graph ;;
  locals <- match graph with
            | Some g => for_fold g ([], []) (plot_group h start end_)
            | None => raise AttributeError
            end ;;
  let '(strat_figures, hoverc) := locals in
  vols <- gets _volume_graphs ;;
  hoverc <- match vols with
            | Some vs => for_fold vs hoverc (plot_volume_panel start end_)
            | None => raise TypeError
            end ;;
  sch <- gets scheme ;;
  let strat_figures := style_figures sch hoverc strat_figures in
  modify (fun self => set_figures (_figures self ++ strat_figures) self).

(** [strategy.datas[0].lines.datetime.plotrange(start, end)], the slice
    [array[start:end]] of the datetime line of the first data feed, made
    into the column of the time source.  The arguments are the ones [plot]
    was called with: a slice index is an integer or [None], and a calendar
    date there raises [TypeError]. *)
Definition plotrange (d0 : ObjId) (start end_ : bound)
  : outcome ColumnDataSource :=
  match start, end_ with
  | BDate _, _ => Raise TypeError
  | _, BDate _ => Raise TypeError
  | _, _ => Ok (mkCDS d0 start end_)
  end.

Definition plot (fuel : nat) (h : Heap) (strategy : Strategy)
  (figid numfigs : Z) (iplot : bool) (start end_ : bound)
  (use : option string) : M Bokeh unit :=
  if (numfigs >? 1)%Z then raise (Exception "numfigs must be 1")
  else if match use with Some _ => true | None => false end
  then raise (Exception "Different backends by 'use' not supported")
  else if match datas strategy with [] => true | _ => false end then ret tt
  else if strategy_len strategy =? 0 then ret tt
  else
    modify (fun self =>
              set_analyzers (_analyzers self ++ [analyzers strategy]) self) ;;
    cds <- gets _cds ;;
    match cds with
    | None =>
        match datas strategy with
        | d0 :: _ =>
            dtline <- lift (plotrange d0 start end_) ;;
            modify (set_cds (Some dtline))
        | [] => raise IndexError
        end
    | Some _ => ret tt
    end ;;
    render_panels fuel h strategy start end_.

(** ** The analyzer tab, assembled *)

Definition _get_analyzer_tab (self : Bokeh) : option Panel :=
  if length (_analyzers self) =? 0 then None
  else
    let col_childs := fill_columns (_analyzers self) in
    let column1 := column (fst col_childs) in
    let childs := [column1] in
    let childs :=
      if 0 <? length (snd col_childs)
      then childs ++ [column (snd col_childs)]
      else childs in
    Some {| child := row childs; title := "Analyzers" |}.

(** ** The graph builder, iteration by iteration *)

(** The loop an input of [_build_graph] is visited by. *)
Inductive Role := FeedRole | ObserverRole | IndicatorRole.

(** The inputs in the order [_build_graph] visits them: data feeds, then
    observers, then indicators. *)
Definition plottables (datas inds obs : list ObjId) : list (Role * ObjId) :=
  map (pair FeedRole) datas ++ map (pair ObserverRole) obs
  ++ map (pair IndicatorRole) inds.

(** The body of the loop that visits the input. *)
Definition build_step (fuel : nat) (h : Heap) (it : Role * ObjId)
  : M Bokeh unit :=
  match fst it with
  | FeedRole => build_data fuel h (snd it)
  | ObserverRole => build_observer fuel h (snd it)
  | IndicatorRole => build_indicator fuel h (snd it)
  end.

(** The input gets past the [continue] at the head of its loop body: a data
    feed when it is enabled ([plotinfo.plot]); an observer or indicator when
    it is enabled and not flagged to skip ([plotinfo.plotskip]), an indicator
    needing plotting support in the first place. *)
Definition selected (h : Heap) (role : Role) (x : ObjId) : bool :=
  match plotinfo (h x) with
  | None => false
  | Some pi =>
      match role with
      | FeedRole => pi_plot pi
      | _ => pi_plot pi && negb (pi_plotskip pi)
      end
  end.

(** The input opens a group of its own: a data feed without plot master, an
    observer or indicator flagged [subplot]. *)
Definition own_group (h : Heap) (role : Role) (x : ObjId) : bool :=
  match plotinfo (h x) with
  | None => false
  | Some pi =>
      match role with
      | FeedRole => match pi_plotmaster pi with None => true | Some _ => false end
      | _ => pi_subplot pi
      end
  end.

(** The argument of [_resolve_plotmaster] for the input, an expression
    that for an observer may raise. *)
Definition master_ref (h : Heap) (role : Role) (x : ObjId)
  : outcome (option ObjId) :=
  match plotinfo (h x) with
  | None => Ok None
  | Some pi =>
      match role with
      | FeedRole => Ok (pi_plotmaster pi)
      | ObserverRole => plotmaster_or_data h pi x
      | IndicatorRole => Ok (plotmaster_else_data h pi x)
      end
  end.

(** [_resolve_plotmaster(...)] on that argument. *)
Definition resolve_ref (fuel : nat) (h : Heap) (role : Role) (x : ObjId)
  : outcome (option ObjId) :=
  match master_ref h role x with
  | Ok t => _resolve_plotmaster fuel h t
  | Raise e => Raise e
  | Diverge => Diverge
  end.

(** The input opens its own group. *)
Definition opens_group (h : Heap) (role : Role) (x : ObjId) : Prop :=
  selected h role x = true /\ own_group h role x = true.


(** What one iteration does to the plot graph. *)
Inductive action :=
| Skipped
| OwnGroup
| Slave (pmaster : option ObjId).

Definition apply_action (x : ObjId) (a : action) (g : Graph) : Graph :=
  match a with
  | Skipped => g
  | OwnGroup => setitem (Some x) [] g
  | Slave k =>
      let g' := if contains k g then g else setitem k [] g in
      match getitem k g' with
      | Some slaves => setitem k (slaves ++ [x]) g'
      | None => g'
      end
  end.

(** The action the loop body settles on for the input. *)
Definition decide (fuel : nat) (h : Heap) (role : Role) (x : ObjId)
  : outcome action :=
  match plotinfo (h x) with
  | None =>
      match role with
      | IndicatorRole => Ok Skipped
      | _ => Raise AttributeError
      end
  | Some _ =>
      if negb (selected h role x) then Ok Skipped
      else if own_group h role x then Ok OwnGroup
      else
        match resolve_ref fuel h role x with
        | Ok k => Ok (Slave k)
        | Raise e => Raise e
        | Diverge => Diverge
        end
  end.

(** The graph a sequence of actions builds from the empty dictionary. *)
Definition graph_of (acts : list (ObjId * action)) : Graph :=
  fold_left (fun g xa => apply_action (fst xa) (snd xa) g) acts [].

(** The actions go with the inputs, one by one. *)
Definition decided (fuel : nat) (h : Heap) (it : Role * ObjId)
  (xa : ObjId * action) : Prop :=
  fst xa = snd it /\ decide fuel h (fst it) (snd it) = Ok (snd xa).



(** What the volume loop adds for a data feed. *)
Definition volume_part (h : Heap) (sch : Scheme) (role : Role) (x : ObjId)
  : list ObjId :=
  match role with
  | FeedRole =>
      if selected h FeedRole x
         && (py_truth (volume sch) && is_False (voloverlay sch))
      then [x] else []
  | _ => []
  end.


(** ** Render sessions *)

(** The arguments of one [plot] call, with the object graph the strategy
    lives in. *)
Record Call := mkCall {
  c_heap : Heap;
  c_strategy : Strategy;
  c_figid : Z;
  c_numfigs : Z;
  c_iplot : bool;
  c_start : bound;
  c_end : bound;
  c_use : option string
}.

Definition plot_call (fuel : nat) (c : Call) : M Bokeh unit :=
  plot fuel (c_heap c) (c_strategy c) (c_figid c) (c_numfigs c) (c_iplot c)
       (c_start c) (c_end c) (c_use c).

(** The call gets past the two configuration checks and the two emptiness
    checks of [plot]. *)
Definition reaches_build (c : Call) : bool :=
  negb (c_numfigs c >? 1)%Z
  && match c_use c with Some _ => false | None => true end
  && match datas (c_strategy c) with [] => false | _ => true end
  && negb (strategy_len (c_strategy c) =? 0).

(** The time source the call builds when there is none yet: the slice of
    the first feed's datetime line, if taking it returns. *)
Definition cds_of_call (c : Call) : option ColumnDataSource :=
  match datas (c_strategy c) with
  | d0 :: _ =>
      match plotrange d0 (c_start c) (c_end c) with
      | Ok dtline => Some dtline
      | _ => None
      end
  | [] => None
  end.

(** The call reaches the construction of the graph, the call of
    [_build_graph]: it gets past the four checks, and then past the
    construction of the time source, which takes place when the instance
    has none. *)
Definition reaches_graph (c : Call) (self : Bokeh) : bool :=
  reaches_build c
  && match _cds self with
     | Some _ => true
     | None => match cds_of_call c with Some _ => true | None => false end
     end.

(** The instance as the call hands it to [_build_graph]: the analyzers of
    the strategy registered, and the time source in place. *)
Definition at_graph (c : Call) (self : Bokeh) : Bokeh :=
  set_cds (match _cds self with
           | Some x => Some x
           | None => cds_of_call c
           end)
    (set_analyzers (_analyzers self ++ [analyzers (c_strategy c)]) self).

(** The time source the call leaves on an instance that had none. *)
Definition source_of_call (c : Call) : option ColumnDataSource :=
  if reaches_build c then cds_of_call c else None.

(** The time source of the first call of the list that reaches the
    construction of the graph: as long as the instance has no time source,
    that is a call that builds one. *)
Fixpoint first_cds (calls : list Call) : option ColumnDataSource :=
  match calls with
  | [] => None
  | c :: cs =>
      match source_of_call c with
      | Some x => Some x
      | None => first_cds cs
      end
  end.

(** One instance, [plot] called again and again; a caller may catch what a
    call raises and go on.  [None] when some call does not return. *)
Fixpoint session (fuel : nat) (calls : list Call) (self : Bokeh)
  : option Bokeh :=
  match calls with
  | [] => Some self
  | c :: cs =>
      match plot_call fuel c self with
      | (_, Diverge) => None
      | (self', _) => session fuel cs self'
      end
  end.

(** ** Sample inputs *)

Definition plain_info : PlotInfo :=
  {| pi_plot := true; pi_plotskip := false; pi_subplot := false;
     pi_plotmaster := None; pi_plotabove := None |}.

Definition with_master (m : ObjId) : PlotInfo :=
  {| pi_plot := true; pi_plotskip := false; pi_subplot := false;
     pi_plotmaster := Some m; pi_plotabove := None |}.

(** [bool(x)] on a line object of backtrader, the run being over. *)
Definition line_bool : outcome bool := Raise AttributeError.

Definition feed (pi : PlotInfo) : Obj :=
  {| kind := DataBase; truthy := line_bool; plotinfo := Some pi;
     data := None |}.

(** Three data feeds: 0 is plotted on 1, 1 on 2, and 2 has no master. *)
Definition heap_chain : Heap :=
  fun x =>
    match x with
    | 0 => feed (with_master 1)
    | 1 => feed (with_master 2)
    | _ => feed plain_info
    end.

(** Three bars, at times 1, 2 and 3. *)
Definition series_123 : list Q := [1#1; 2#1; 3#1]%Q.

(** [[table_header] + elements], the block an analyzer adds to a column. *)
Definition block_of (item : string * Analyzer) : list Element :=
  let '(table_header, elements) := get_analyzers_tables (snd item) in
  [table_header] ++ elements.

(** The items of all collections, in the order the two loops visit them. *)
Definition all_items (analyzers : list ItemCollection)
  : list (string * Analyzer) :=
  concat analyzers.

(** An analyzer rendered as a header without height and one table of height
    [n]. *)
Definition table_of_height (n : Z) : Analyzer :=
  {| an_header := mkElement None; an_elements := [mkElement (Some n)] |}.

(** One strategy with three analyzers, of heights 4, 2 and 3. *)
Definition three_tables : list ItemCollection :=
  [[("a"%string, table_of_height 4); ("b"%string, table_of_height 2);
    ("c"%string, table_of_height 3)]].

Definition plain_scheme : Scheme :=
  {| volume := PyBool false; voloverlay := PyBool true;
     xaxis_pos := "all"; legend_click := "mute";
     legend_background_color := "#3C3F41"; legend_text_color := "lightgrey" |}.

Definition bokeh_three_tables : Bokeh :=
  set_analyzers three_tables (Bokeh_init plain_scheme).

(** ** Frame conditions *)

(** Whatever the outcome, the state a computation leaves is related by [R]
    to the one it started from. *)
Definition preserves {S A} (R : S -> S -> Prop) (m : M S A) : Prop :=
  forall s s' o, m s = (s', o) -> R s s'.

(** Only the plot graph and the volume list may differ. *)
Definition same_session (s s' : Bokeh) : Prop :=
  scheme s' = scheme s /\ _figures s' = _figures s /\
  _cds s' = _cds s /\ _analyzers s' = _analyzers s.

(** The scheme, the time source and the analyzers are the same, and the
    figure list has grown at its end. *)
Definition figures_grow (s s' : Bokeh) : Prop :=
  scheme s' = scheme s /\ _cds s' = _cds s /\
  _analyzers s' = _analyzers s /\
  exists figs, _figures s' = _figures s ++ figs.

(** Only the volume list may differ. *)
Definition same_graph (s s' : Bokeh) : Prop :=
  _data_graph s' = _data_graph s.

(** Only the plot graph may differ. *)
Definition same_volume (s s' : Bokeh) : Prop :=
  _volume_graphs s' = _volume_graphs s /\ scheme s' = scheme s.

(** One data feed without master, plotted. *)
Definition heap_plain : Heap := fun _ => feed plain_info.

Definition one_feed : Strategy :=
  {| datas := [0]; getindicators := []; getobservers := [];
     analyzers := []; strategy_len := 3; st_dtime := series_123 |}.

(** A strategy without data feeds, and one with no bar elapsed. *)
Definition no_feed : Strategy :=
  {| datas := []; getindicators := []; getobservers := [];
     analyzers := []; strategy_len := 3; st_dtime := series_123 |}.

Definition no_bar : Strategy :=
  {| datas := [0]; getindicators := []; getobservers := [];
     analyzers := []; strategy_len := 0; st_dtime := [] |}.

Definition bottom_scheme : Scheme :=
  {| volume := PyBool false; voloverlay := PyBool true;
     xaxis_pos := "bottom"; legend_click := "mute";
     legend_background_color := "#3C3F41"; legend_text_color := "lightgrey" |}.

(** Volume shown on panels of its own. *)
Definition volume_scheme : Scheme :=
  {| volume := PyBool true; voloverlay := PyBool false;
     xaxis_pos := "all"; legend_click := "mute";
     legend_background_color := "#3C3F41"; legend_text_color := "lightgrey" |}.

(** Two calls on the same strategy, the second from bar 1 on. *)
Definition call_full : Call :=
  mkCall heap_plain one_feed 0 1 true BNone BNone None.

Definition call_from_1 : Call :=
  mkCall heap_plain one_feed 0 1 true (BInt 1) BNone None.

(** Four data feeds: 0 is plain; 1 is enabled and flagged to skip; 2 is
    disabled; 3 is plotted on 2.  Object 4 is an indicator on feed 0, 5 a
    subplot indicator, 6 a disabled observer, 7 an observer flagged to
    skip, and 8 an indicator plotted on indicator 4. *)
Definition heap_mixed : Heap :=
  fun x =>
    match x with
    | 1 => feed {| pi_plot := true; pi_plotskip := true; pi_subplot := false;
                   pi_plotmaster := None; pi_plotabove := None |}
    | 2 => feed {| pi_plot := false; pi_plotskip := false; pi_subplot := false;
                   pi_plotmaster := None; pi_plotabove := None |}
    | 3 => feed (with_master 2)
    | 4 => {| kind := Indicator; truthy := line_bool;
              plotinfo := Some plain_info; data := Some 0 |}
    | 5 => {| kind := Indicator; truthy := line_bool;
              plotinfo :=
                Some {| pi_plot := true; pi_plotskip := false;
                        pi_subplot := true; pi_plotmaster := None;
                        pi_plotabove := None |};
              data := Some 0 |}
    | 6 => {| kind := Observer; truthy := line_bool;
              plotinfo :=
                Some {| pi_plot := false; pi_plotskip := false;
                        pi_subplot := true; pi_plotmaster := None;
                        pi_plotabove := None |};
              data := Some 0 |}
    | 7 => {| kind := Observer; truthy := line_bool;
              plotinfo :=
                Some {| pi_plot := true; pi_plotskip := true;
                        pi_subplot := true; pi_plotmaster := None;
                        pi_plotabove := None |};
              data := Some 0 |}
    | 8 => {| kind := Indicator; truthy := line_bool;
              plotinfo := Some (with_master 4); data := Some 0 |}
    | _ => feed plain_info
    end.

(** ** Showing the session *)

(** Modelled from the spec: the enumeration [PlotMode] (schemes) is not
    among the sources; it has the two layout modes [Single] and [Tabs].  The
    methods below take [self.p.scheme.plot_mode] as an argument, [None]
    standing for any other value. *)
Inductive PlotMode := PlotMode_Single | PlotMode_Tabs.

(** [gridplot(children, sizing_mode='fixed', toolbar_location=...,
    toolbar_options={'logo': None})] *)
Record GridPlot := gridplot {
  grid_children : list (list Figure);
  toolbar_location : string
}.

(** A tab: [Panel(child=grid, title=...)] over charts, or the analyzer
    panel. *)
Inductive TabPanel :=
| ChartPanel (child : GridPlot) (title : string)
| WidgetPanel (panel : Panel).

Definition Kind_eqb (a b : Kind) : bool :=
  match a, b with
  | DataBase, DataBase => true
  | Indicator, Indicator => true
  | Observer, Observer => true
  | LineSingle, LineSingle => true
  | _, _ => false
  end.

(** [issubclass(x.master_type, base)]; a figure without master type has
    [None] there, which is no class. *)
Definition issubclass (cls : option Kind) (base : Kind) : outcome bool :=
  match cls with
  | None => Raise TypeError
  | Some k => Ok (Kind_eqb k base)
  end.

(** [[x for x in l if p(x)]], [p] being evaluated in list order. *)
Fixpoint comprehension {A} (p : A -> outcome bool) (l : list A)
  : outcome (list A) :=
  match l with
  | [] => Ok []
  | x :: l' =>
      match p x with
      | Ok b =>
          match comprehension p l' with
          | Ok r => Ok (if b then x :: r else r)
          | Raise e => Raise e
          | Diverge => Diverge
          end
      | Raise e => Raise e
      | Diverge => Diverge
      end
  end.

(** [x not in l] on figure objects, which compare by identity: an object of
    [list(self._figures)] is carried with its position in that list. *)
Definition not_in (x : nat * Figure) (l : list (nat * Figure)) : bool :=
  negb (existsb (fun y => fst y =? fst x) l).

Definition _show_single (self : Bokeh) : outcome (list TabPanel) :=
  let figs := enumerate (_figures self) in
  match comprehension (fun x => issubclass (master_type (snd x)) Observer)
                      figs with
  | Ok observers =>
      let figs := filter (fun x => not_in x observers) figs in
      let aboves := filter (fun x => plotabove (snd x)) figs in
      let figs := filter (fun x => not_in x aboves) figs in
      let figs := map snd (observers ++ aboves ++ figs) in
      let chart_grid := gridplot (map (fun x => [x]) figs) "right" in
      let panel_charts := ChartPanel chart_grid "Charts" in
      let panels := [panel_charts] in
      let panels :=
        match _get_analyzer_tab self with
        | Some panel_analyzers => panels ++ [WidgetPanel panel_analyzers]
        | None => panels
        end in
      Ok panels
  | Raise e => Raise e
  | Diverge => Diverge
  end.

(** The local function [add_panel] of [_show_tabs]. *)
Definition add_panel (panels : list TabPanel) (obj : list (nat * Figure))
  (title : string) : list TabPanel :=
  if length obj =? 0 then panels
  else panels ++ [ChartPanel (gridplot (map (fun x => [snd x]) obj) "left")
                             title].

Definition _show_tabs (self : Bokeh) : outcome (list TabPanel) :=
  let figs := enumerate (_figures self) in
  match comprehension (fun x => issubclass (master_type (snd x)) Observer)
                      figs with
  | Ok observers =>
      match comprehension (fun x => issubclass (master_type (snd x)) DataBase)
                          figs with
      | Ok datas =>
          match comprehension
                  (fun x => issubclass (master_type (snd x)) Indicator)
                  figs with
          | Ok inds =>
              let panels := [] in
              let panels := add_panel panels datas "Datas" in
              let panels := add_panel panels inds "Indicators" in
              let panels := add_panel panels observers "Observers" in
              let panels :=
                match _get_analyzer_tab self with
                | Some p_analyzers => panels ++ [WidgetPanel p_analyzers]
                | None => panels
                end in
              Ok panels
          | Raise e => Raise e
          | Diverge => Diverge
          end
      | Raise e => Raise e
      | Diverge => Diverge
      end
  | Raise e => Raise e
  | Diverge => Diverge
  end.

(** [show]: the tabs handed to [_output_plot_file]. *)
Definition show (plot_mode : option PlotMode) (self : Bokeh)
  : outcome (list TabPanel) :=
  match plot_mode with
  | Some PlotMode_Single => _show_single self
  | Some PlotMode_Tabs => _show_tabs self
  | None => Raise (Exception "Unsupported plot mode")
  end.

(** The master of the panel is of the given class family. *)
Definition master_is (base : Kind) (f : Figure) : bool :=
  match master_type f with
  | Some k => Kind_eqb k base
  | None => false
  end.

(** The figures of a chart tab, top to bottom. *)
Definition tab_figures (p : TabPanel) : list Figure :=
  match p with
  | ChartPanel g _ => concat (grid_children g)
  | WidgetPanel _ => []
  end.

(** ** Measures of the analyzer tab *)

(** The cumulative height a block adds to its column. *)
Definition block_height (item : string * Analyzer) : Z :=
  _get_column_row_count (block_of item).

(** The highest block of a list, 0 for none. *)
Definition max_block_height (items : list (string * Analyzer)) : Z :=
  fold_right (fun it m => Z.max (block_height it) m) 0%Z items.

(** Two objects plotted on each other: 0 on 1 and 1 on 0. *)
Definition heap_loop : Heap :=
  fun x =>
    match x with
    | 0 => feed (with_master 1)
    | _ => feed (with_master 0)
    end.

(** ** The panel of a group *)

(** [bf] is the panel [plot] builds for the group [grp] before the loops
    over [strat_figures]: bound to the time source and the index range, it
    carries the master's type and plot-above flag, and its series list is
    the master without overlay parent followed by the slaves with the
    master as parent. *)
Definition raw_panel (h : Heap) (cds : option ColumnDataSource) (si ei : Z)
  (grp : option ObjId * list ObjId) (bf : Figure) : Prop :=
  exists m pi,
    fst grp = Some m /\ plotinfo (h m) = Some pi /\
    fig_cds bf = cds /\ fig_start bf = si /\ fig_end bf = ei /\
    master_type bf = Some (kind (h m)) /\
    plotabove bf = match pi_plotabove pi with Some b => b | None => false end /\
    fig_series bf = (m, None) :: map (fun s => (s, Some m)) (snd grp) /\
    fig_volume bf = [] /\ x_range bf = None /\ xaxis_visible bf = true.

(** A data feed 0 and an observer 1 that is no subplot, has no plot master
    and no data: its master resolves to [None]. *)
Definition heap_orphan : Heap :=
  fun x =>
    match x with
    | 1 => {| kind := Observer; truthy := line_bool;
              plotinfo := Some plain_info; data := None |}
    | _ => feed plain_info
    end.

Definition orphan_strategy : Strategy :=
  {| datas := [0]; getindicators := []; getobservers := [1];
     analyzers := []; strategy_len := 3; st_dtime := series_123 |}.

Definition call_orphan : Call :=
  mkCall heap_orphan orphan_strategy 0 1 true BNone BNone None.

(** A data feed 0 with an indicator 4 on it, a subplot indicator 5 and a
    subplot observer 9 that is to be plotted above. *)
Definition heap_panels : Heap :=
  fun x =>
    match x with
    | 9 => {| kind := Observer; truthy := line_bool;
              plotinfo :=
                Some {| pi_plot := true; pi_plotskip := false;
                        pi_subplot := true; pi_plotmaster := None;
                        pi_plotabove := Some true |};
              data := Some 0 |}
    | 5 => {| kind := Indicator; truthy := line_bool;
              plotinfo :=
                Some {| pi_plot := true; pi_plotskip := false;
                        pi_subplot := true; pi_plotmaster := None;
                        pi_plotabove := Some true |};
              data := Some 0 |}
    | _ => heap_mixed x
    end.

Definition panels_strategy : Strategy :=
  {| datas := [0]; getindicators := [4; 5]; getobservers := [9];
     analyzers := [("a"%string, table_of_height 4)];
     strategy_len := 3; st_dtime := series_123 |}.

Definition call_panels : Call :=
  mkCall heap_panels panels_strategy 0 1 true BNone BNone None.

(** ** Inputs that raise *)

(** A data feed 0 and an observer 1 that is plotted on it and names it as
    its plot master. *)
Definition heap_observer_on_feed : Heap :=
  fun x =>
    match x with
    | 1 => {| kind := Observer; truthy := line_bool;
              plotinfo := Some (with_master 0); data := Some 0 |}
    | _ => feed plain_info
    end.

(** A call with a calendar date for [start], carried as its [date2num]
    number. *)
Definition call_from_date : Call :=
  mkCall heap_plain one_feed 0 1 true (BDate (730123 # 1)) BNone None.

(** The truth test of [or] raises [e] for an observer of the list: one that
    is to be attached and names a plot master on which [bool] raises [e]. *)
Definition master_test_raises (h : Heap) (obs : list ObjId) (e : exn)
  : Prop :=
  exists o pi pm,
    In o obs /\ plotinfo (h o) = Some pi /\
    selected h ObserverRole o = true /\ pi_subplot pi = false /\
    pi_plotmaster pi = Some pm /\ truthy (h pm) = Raise e.

(** * Properties *)

(** ** The instance-state monad *)

Lemma bind_inv_ok : forall S A B (m : M S A) (k : A -> M S B) s s2 b,
  bind m k s = (s2, Ok b) ->
  exists s1 a, m s = (s1, Ok a) /\ k a s1 = (s2, Ok b).
Proof.
  intros S A B m k s s2 b. unfold bind.
  destruct (m s) as [s1 [a | e |]]; intros H; try discriminate.
  exists s1, a. auto.
Qed.

(** ** The plot-master resolver *)

Lemma resolve_loop_mono : forall h fuel x r,
  resolve_loop fuel h x = Ok r ->
  forall fuel', fuel <= fuel' -> resolve_loop fuel' h x = Ok r.
Proof.
  intros h fuel. induction fuel as [| n IH]; intros x r H fuel' Hle.
  - discriminate.
  - destruct fuel' as [| m]; [lia |]. simpl in *.
    destruct (plotinfo (h x)) as [pi |]; [| discriminate].
    destruct (pi_plotmaster pi) as [pm |]; [| assumption].
    apply IH with (fuel' := m) in H; [assumption | lia].
Qed.

Lemma chain_root_inv : forall h x r pi,
  chain h x r -> plotinfo (h x) = Some pi -> pi_plotmaster pi = None -> r = x.
Proof.
  intros h x r pi Hc Hpi Hpm. inversion Hc; subst; [reflexivity |].
  congruence.
Qed.

Lemma chain_end_is_root : forall h x r,
  chain h x r ->
  exists pi, plotinfo (h r) = Some pi /\ pi_plotmaster pi = None.
Proof.
  intros h x r Hc. induction Hc as [x pi Hpi Hpm | x pi pm r Hpi Hpm Hc IH].
  - exists pi. auto.
  - exact IH.
Qed.

Lemma chain_resolves : forall h x r,
  chain h x r ->
  exists n, forall y, on_chain h x y ->
    forall fuel, n <= fuel -> resolve_loop fuel h y = Ok r.
Proof.
  intros h x r Hc. induction Hc as [x pi Hpi Hpm | x pi pm r Hpi Hpm Hc [n IH]].
  - exists 1. intros y Hy fuel Hf.
    inversion Hy; subst; [| congruence].
    destruct fuel as [| m]; [lia |]. simpl. rewrite Hpi, Hpm. reflexivity.
  - exists (S n). intros y Hy fuel Hf.
    destruct fuel as [| m]; [lia |].
    inversion Hy as [| x' pi' pm' y' Hpi' Hpm' Hup]; subst.
    + simpl. rewrite Hpi, Hpm. apply IH; [constructor | lia].
    + assert (pm' = pm) by congruence. subst pm'.
      apply resolve_loop_mono with (fuel := n); [| lia].
      apply IH; [assumption | lia].
Qed.

(** C8. For a Plottable whose plot-master chain is finite and ends at [r],
    [_resolve_plotmaster] returns, with enough fuel for the walk, and what it
    returns is [r], an object without plot master; it returns the same [r]
    when started from any object [y] met on the way from [x]; an object
    without plot master resolves to itself; and an absent input resolves to
    nothing, whatever the fuel. *)
Theorem resolve_plotmaster_terminal_root : forall h x r,
  chain h x r ->
  (exists pi, plotinfo (h r) = Some pi /\ pi_plotmaster pi = None) /\
  (exists n, forall fuel, n <= fuel ->
     forall y, on_chain h x y ->
       _resolve_plotmaster fuel h (Some y) = Ok (Some r)) /\
  (forall pi, plotinfo (h x) = Some pi -> pi_plotmaster pi = None ->
     r = x /\ forall fuel, 1 <= fuel ->
       _resolve_plotmaster fuel h (Some x) = Ok (Some x)) /\
  (forall fuel, _resolve_plotmaster fuel h None = Ok None).
Proof.
  intros h x r Hc. split; [| split; [| split]].
  - eapply chain_end_is_root; eassumption.
  - destruct (chain_resolves Hc) as [n Hn]. exists n.
    intros fuel Hf y Hy. unfold _resolve_plotmaster.
    rewrite (Hn y Hy fuel Hf). reflexivity.
  - intros pi Hpi Hpm. split.
    + eapply chain_root_inv; eassumption.
    + intros fuel Hf. destruct fuel as [| m]; [lia |].
      unfold _resolve_plotmaster. simpl. rewrite Hpi, Hpm. reflexivity.
  - intros fuel. reflexivity.
Qed.

Lemma heap_chain_0_2 : chain heap_chain 0 2.
Proof.
  eapply chain_link with (pi := with_master 1) (pm := 1); try reflexivity.
  eapply chain_link with (pi := with_master 2) (pm := 2); try reflexivity.
  eapply chain_root with (pi := plain_info); reflexivity.
Qed.

Lemma resolve_plotmaster_terminal_root_witness :
  chain heap_chain 0 2 /\
  (exists n, forall fuel, n <= fuel ->
     forall y, on_chain heap_chain 0 y ->
       _resolve_plotmaster fuel heap_chain (Some y) = Ok (Some 2)).
Proof.
  split.
  - exact heap_chain_0_2.
  - exact (proj1 (proj2 (resolve_plotmaster_terminal_root heap_chain_0_2))).
Defined.

(** ** Range resolution *)

Lemma Qltb_lt : forall x y, Qltb x y = true <-> (x < y)%Q.
Proof.
  intros x y. unfold Qltb. rewrite negb_true_iff.
  split; intros H.
  - apply Qnot_le_lt. intros Hle. apply Qle_bool_iff in Hle. congruence.
  - destruct (Qle_bool y x) eqn:E; [| reflexivity].
    apply Qle_bool_iff in E. exfalso. apply (Qlt_not_le _ _ H E).
Qed.

Lemma Qltb_ge : forall x y, Qltb x y = false <-> (y <= x)%Q.
Proof.
  intros x y. unfold Qltb. rewrite negb_false_iff. apply Qle_bool_iff.
Qed.

Lemma mid_bounds : forall lo hi, lo < hi ->
  lo <= (lo + hi) / 2 /\ (lo + hi) / 2 < hi.
Proof.
  intros lo hi H. split.
  - apply Nat.div_le_lower_bound; lia.
  - apply Nat.Div0.div_lt_upper_bound; lia.
Qed.

(** The loop of [bisect_left] keeps: everything left of [lo] is below [x],
    everything from [hi] on is not. *)
Lemma bisect_left_loop_spec : forall a x, sorted_series a ->
  forall lohi,
    fst lohi <= snd lohi -> snd lohi <= length a ->
    (forall i, i < fst lohi -> (nth i a 0 < x)%Q) ->
    (forall i, snd lohi <= i -> i < length a -> (x <= nth i a 0)%Q) ->
    (forall i, i < bisect_left_loop a x lohi -> (nth i a 0 < x)%Q) /\
    (forall i, bisect_left_loop a x lohi <= i -> i < length a ->
               (x <= nth i a 0)%Q).
Proof.
  intros a x Hs lohi.
  functional induction (bisect_left_loop a x lohi);
    cbn [fst snd]; intros Hle Hhi Hlo Hup.
  - apply Nat.ltb_lt in e0. destruct (mid_bounds e0) as [M1 M2].
    apply Qltb_lt in e1.
    apply IHn; cbn [fst snd]; try lia; [| assumption].
    intros i Hi.
    apply Qle_lt_trans with (y := nth ((lo + hi) / 2) a 0%Q); [| assumption].
    apply Hs; lia.
  - apply Nat.ltb_lt in e0. destruct (mid_bounds e0) as [M1 M2].
    apply Qltb_ge in e1.
    apply IHn; cbn [fst snd]; try lia; [assumption |].
    intros i Hi Hlen.
    apply Qle_trans with (y := nth ((lo + hi) / 2) a 0%Q); [assumption |].
    apply Hs; lia.
  - apply Nat.ltb_ge in e0. assert (lo = hi) by lia. subst hi.
    split; assumption.
Qed.

(** The loop of [bisect_right] keeps: everything left of [lo] is at most
    [x], everything from [hi] on is above it. *)
Lemma bisect_right_loop_spec : forall a x, sorted_series a ->
  forall lohi,
    fst lohi <= snd lohi -> snd lohi <= length a ->
    (forall i, i < fst lohi -> (nth i a 0 <= x)%Q) ->
    (forall i, snd lohi <= i -> i < length a -> (x < nth i a 0)%Q) ->
    (forall i, i < bisect_right_loop a x lohi -> (nth i a 0 <= x)%Q) /\
    (forall i, bisect_right_loop a x lohi <= i -> i < length a ->
               (x < nth i a 0)%Q).
Proof.
  intros a x Hs lohi.
  functional induction (bisect_right_loop a x lohi);
    cbn [fst snd]; intros Hle Hhi Hlo Hup.
  - apply Nat.ltb_lt in e0. destruct (mid_bounds e0) as [M1 M2].
    apply Qltb_lt in e1.
    apply IHn; cbn [fst snd]; try lia; [assumption |].
    intros i Hi Hlen.
    apply Qlt_le_trans with (y := nth ((lo + hi) / 2) a 0%Q); [assumption |].
    apply Hs; lia.
  - apply Nat.ltb_lt in e0. destruct (mid_bounds e0) as [M1 M2].
    apply Qltb_ge in e1.
    apply IHn; cbn [fst snd]; try lia; [| assumption].
    intros i Hi.
    apply Qle_trans with (y := nth ((lo + hi) / 2) a 0%Q); [| assumption].
    apply Hs; lia.
  - apply Nat.ltb_ge in e0. assert (lo = hi) by lia. subst hi.
    split; assumption.
Qed.

Lemma bisect_left_spec : forall a x i, sorted_series a -> i < length a ->
  (i < bisect_left a x <-> (nth i a 0 < x)%Q).
Proof.
  intros a x i Hs Hi. unfold bisect_left.
  destruct (@bisect_left_loop_spec a x Hs (0, length a)) as [H1 H2];
    cbn [fst snd]; try lia.
  split; intros H.
  - apply H1. assumption.
  - destruct (Nat.lt_ge_cases i (bisect_left_loop a x (0, length a)))
      as [Hl | Hg]; [assumption |].
    exfalso. apply (Qlt_not_le _ _ H). apply H2; assumption.
Qed.

Lemma bisect_right_spec : forall a x i, sorted_series a -> i < length a ->
  (i < bisect_right a x <-> (nth i a 0 <= x)%Q).
Proof.
  intros a x i Hs Hi. unfold bisect_right.
  destruct (@bisect_right_loop_spec a x Hs (0, length a)) as [H1 H2];
    cbn [fst snd]; try lia.
  split; intros H.
  - apply H1. assumption.
  - destruct (Nat.lt_ge_cases i (bisect_right_loop a x (0, length a)))
      as [Hl | Hg]; [assumption |].
    exfalso. apply (Qle_not_lt _ _ H). apply H2; assumption.
Qed.

(** C3, as the code has it.  With [start] and [end] given as dates and the
    datetime series in time order, the indices of the resolved range
    [start_idx <= i < end_idx] are exactly those of the points [t] with
    [start <= t <= end]: the right-biased search for the end bound keeps the
    points equal to [end], so the interval of dates is closed on both
    sides. *)
Theorem get_start_end_dates_closed_range : forall a s e start_idx end_idx,
  sorted_series a ->
  _get_start_end a (BDate s) (BDate e) = (start_idx, end_idx) ->
  start_idx = Z.of_nat (bisect_left a s) /\
  end_idx = Z.of_nat (bisect_right a e) /\
  forall i, i < length a ->
    ((start_idx <= Z.of_nat i < end_idx)%Z <->
     (s <= nth i a 0 /\ nth i a 0 <= e)%Q).
Proof.
  intros a s e start_idx end_idx Hs H. unfold _get_start_end in H.
  assert (Hnn : (Z.of_nat (bisect_right a e) <? 0)%Z = false)
    by (apply Z.ltb_ge; lia).
  rewrite Hnn in H. inversion H; subst. clear H.
  split; [reflexivity | split; [reflexivity |]].
  intros i Hi.
  pose proof (bisect_left_spec s Hs Hi) as HL.
  pose proof (bisect_right_spec e Hs Hi) as HR.
  split.
  - intros [H1 H2]. split.
    + apply Qnot_lt_le. intros Hlt. apply HL in Hlt. lia.
    + apply HR. lia.
  - intros [H1 H2]. split.
    + destruct (Nat.lt_ge_cases i (bisect_left a s)) as [Hl | Hg]; [| lia].
      apply HL in Hl. exfalso. apply (Qlt_not_le _ _ Hl H1).
    + apply HR in H2. lia.
Qed.

Lemma series_123_sorted : sorted_series series_123.
Proof.
  intros i j Hij Hj. unfold series_123 in *. simpl in Hj.
  destruct j as [| [| [| j]]]; [| | | lia];
    destruct i as [| [| [| i]]]; try lia; simpl;
    unfold Qle; simpl; lia.
Qed.

Lemma get_start_end_dates_closed_range_witness :
  sorted_series series_123 /\
  _get_start_end series_123 (BDate (1#1)) (BDate (2#1)) = (0%Z, 2%Z) /\
  forall i, i < length series_123 ->
    ((0 <= Z.of_nat i < 2)%Z <->
     ((1#1) <= nth i series_123 0 /\ nth i series_123 0 <= (2#1))%Q).
Proof.
  split; [exact series_123_sorted | split; [reflexivity |]].
  exact (proj2 (proj2
    (@get_start_end_dates_closed_range series_123 (1#1)%Q (2#1)%Q 0%Z 2%Z
       series_123_sorted eq_refl))).
Defined.

(** C3, as stated, fails: with bars at times 1, 2, 3 and the dates
    [start = 1], [end = 2], the resolved range is [0, 2) and holds index 1,
    whose time 2 is not before [end]. *)
Lemma get_start_end_end_date_included :
  sorted_series series_123 /\
  _get_start_end series_123 (BDate (1#1)) (BDate (2#1)) = (0%Z, 2%Z) /\
  ~ (forall i, i < length series_123 ->
       ((0 <= Z.of_nat i < 2)%Z <->
        ((1#1) <= nth i series_123 0 /\ nth i series_123 0 < (2#1))%Q)).
Proof.
  split; [exact series_123_sorted | split; [vm_compute; reflexivity |]].
  intros H. specialize (H 1). simpl in H.
  assert (H1 : (0 <= Z.of_nat 1 < 2)%Z) by lia.
  apply H in H1; [| lia]. destruct H1 as [_ H1].
  unfold Qlt in H1. simpl in H1. lia.
Qed.

(** ** The analyzer tab *)

Lemma place_cases : forall cols item,
  (place cols item = (fst cols ++ block_of item, snd cols) /\
   (_get_column_row_count (fst cols) <= _get_column_row_count (snd cols))%Z)
  \/
  (place cols item = (fst cols, snd cols ++ block_of item) /\
   (_get_column_row_count (snd cols) < _get_column_row_count (fst cols))%Z).
Proof.
  intros [c0 c1] [name an]. unfold place, block_of, col_idx.
  cbn [fst snd get_analyzers_tables].
  destruct (Z.leb_spec (_get_column_row_count c0) (_get_column_row_count c1)).
  - left. split; [reflexivity | assumption].
  - right. split; [reflexivity | assumption].
Qed.

Lemma fill_columns_items : forall colls cols,
  fold_left (fun cols a => fold_left place a cols) colls cols =
  fold_left place (all_items colls) cols.
Proof.
  induction colls as [| a rest IH]; intros cols; simpl.
  - reflexivity.
  - unfold all_items in *. simpl. rewrite fold_left_app. apply IH.
Qed.

Lemma block_of_nonempty : forall item, block_of item <> [].
Proof. intros [name an]. unfold block_of. simpl. discriminate. Qed.

Lemma place_left_grows : forall items cols,
  exists tail, fst (fold_left place items cols) = fst cols ++ tail.
Proof.
  induction items as [| x xs IH]; intros cols; simpl.
  - exists []. rewrite app_nil_r. reflexivity.
  - destruct (IH (place cols x)) as [tail Ht]. rewrite Ht.
    destruct (place_cases cols x) as [[E _] | [E _]]; rewrite E; cbn [fst].
    + exists (block_of x ++ tail). rewrite app_assoc. reflexivity.
    + exists tail. reflexivity.
Qed.

Lemma col_idx_cases : forall cols, col_idx cols = 0 \/ col_idx cols = 1.
Proof.
  intros cols. unfold col_idx.
  destruct (_ <=? _)%Z; [left | right]; reflexivity.
Qed.

Lemma place_right_empty : forall cols item,
  snd (place cols item) = [] <-> snd cols = [] /\ col_idx cols = 0.
Proof.
  intros [c0 c1] [name an]. unfold place. cbn [get_analyzers_tables snd fst].
  destruct (col_idx_cases (c0, c1)) as [E | E]; rewrite E; cbn [snd].
  - split; [intros H; split; [assumption | reflexivity] | intros [H _]; assumption].
  - split.
    + intros H. destruct c1; discriminate.
    + intros [_ H]. discriminate.
Qed.

(** The right column stays empty exactly when every block was sent left. *)
Lemma right_column_empty : forall items cols,
  snd (fold_left place items cols) = [] <->
  snd cols = [] /\
  forall pre item post, items = pre ++ item :: post ->
    col_idx (fold_left place pre cols) = 0.
Proof.
  induction items as [| x xs IH] using rev_ind; intros cols.
  - simpl. split.
    + intros H. split; [assumption |].
      intros pre item post E. destruct pre; discriminate.
    + intros [H _]. assumption.
  - rewrite fold_left_app. cbn [fold_left].
    rewrite place_right_empty, IH. split.
    + intros [[H0 Hall] Hlast]. split; [assumption |].
      intros pre item post E.
      destruct post as [| p post'] using rev_ind.
      * apply app_inj_tail in E. destruct E as [E1 E2]. subst. assumption.
      * clear IHpost'. rewrite app_comm_cons, app_assoc in E.
        apply app_inj_tail in E. destruct E as [E1 E2]. subst.
        eapply Hall. reflexivity.
    + intros [H0 Hall]. split; [split; [assumption |] |].
      * intros pre item post E. apply (Hall pre item (post ++ [x])).
        rewrite E, <- app_assoc. reflexivity.
      * apply (Hall xs x []). reflexivity.
Qed.

Lemma right_column_nonempty : forall items cols,
  snd cols = [] ->
  snd (fold_left place items cols) <> [] ->
  exists pre item post,
    items = pre ++ item :: post /\ col_idx (fold_left place pre cols) = 1.
Proof.
  induction items as [| x xs IH] using rev_ind; intros cols H0 Hne.
  - simpl in Hne. contradiction.
  - rewrite fold_left_app in Hne. cbn [fold_left] in Hne.
    destruct (col_idx_cases (fold_left place xs cols)) as [E | E].
    + assert (Hx : snd (fold_left place xs cols) <> []).
      { intros Hemp. apply Hne. apply place_right_empty. auto. }
      destruct (IH cols H0 Hx) as (pre & item & post & Eq & Hidx).
      exists pre, item, (post ++ [x]). split; [| assumption].
      rewrite Eq, <- app_assoc. reflexivity.
    + exists xs, x, []. split; [reflexivity | assumption].
Qed.

(** C5, as the code has it.  Each analyzer's block (table header plus row
    elements) goes to the end of the left column when the left column's
    cumulative height is at most the right one's, and to the end of the
    right column when the right one is strictly lower; the other column is
    left as it is.  For three tables of heights 4, 2, 3 this gives
    column A = [4] (height 4) and column B = [2, 3] (height 5). *)
Theorem analyzer_tab_greedy_balance :
  (forall cols item,
     (place cols item = (fst cols ++ block_of item, snd cols) /\
      (_get_column_row_count (fst cols)
       <= _get_column_row_count (snd cols))%Z)
     \/
     (place cols item = (fst cols, snd cols ++ block_of item) /\
      (_get_column_row_count (snd cols)
       < _get_column_row_count (fst cols))%Z)) /\
  fill_columns three_tables =
    ([mkElement None; mkElement (Some 4%Z)],
     [mkElement None; mkElement (Some 2%Z);
      mkElement None; mkElement (Some 3%Z)]) /\
  _get_column_row_count (fst (fill_columns three_tables)) = 4%Z /\
  _get_column_row_count (snd (fill_columns three_tables)) = 5%Z /\
  _get_analyzer_tab bokeh_three_tables =
    Some {| child :=
              row [column [mkElement None; mkElement (Some 4%Z)];
                   column [mkElement None; mkElement (Some 2%Z);
                           mkElement None; mkElement (Some 3%Z)]];
            title := "Analyzers" |}.
Proof.
  split; [exact place_cases |].
  repeat split; reflexivity.
Qed.

(** C5, as stated, fails on its own example: for heights 4, 2, 3 the left
    column does not end up as [4, 3] with height 7 and the right one as
    [2]; the third table goes right, where the cumulative height is lower. *)
Lemma analyzer_tab_third_table_goes_right :
  fill_columns three_tables <>
    ([mkElement None; mkElement (Some 4%Z);
      mkElement None; mkElement (Some 3%Z)],
     [mkElement None; mkElement (Some 2%Z)]) /\
  _get_column_row_count (fst (fill_columns three_tables)) <> 7%Z.
Proof.
  split; vm_compute; discriminate.
Qed.

(** C10. When both columns have the same cumulative height the next block
    goes to the left column; the first block of all therefore opens the
    left column; and the tab has a second column exactly when some block
    was sent right, a tab without one meaning every block was sent left. *)
Theorem analyzer_tab_ties_go_left :
  (forall cols item,
     _get_column_row_count (fst cols) = _get_column_row_count (snd cols) ->
     place cols item = (fst cols ++ block_of item, snd cols)) /\
  (forall colls item rest,
     all_items colls = item :: rest ->
     exists tail, fst (fill_columns colls) = block_of item ++ tail) /\
  (forall self,
     _analyzers self <> [] ->
     let items := all_items (_analyzers self) in
     let cols := fill_columns (_analyzers self) in
     (_get_analyzer_tab self =
        Some {| child := row [column (fst cols)]; title := "Analyzers" |} /\
      snd cols = [] /\
      forall pre item post, items = pre ++ item :: post ->
        col_idx (fold_left place pre ([], [])) = 0)
     \/
     (_get_analyzer_tab self =
        Some {| child := row [column (fst cols); column (snd cols)];
                title := "Analyzers" |} /\
      snd cols <> [] /\
      exists pre item post, items = pre ++ item :: post /\
        col_idx (fold_left place pre ([], [])) = 1)).
Proof.
  split; [| split].
  - intros cols item Heq.
    destruct (place_cases cols item) as [[E _] | [_ Hlt]]; [assumption | lia].
  - intros colls item rest Hitems. unfold fill_columns.
    rewrite fill_columns_items, Hitems. cbn [fold_left].
    assert (Hfirst : place ([], []) item = (block_of item, [])).
    { destruct (place_cases ([], []) item) as [[E _] | [_ Hlt]].
      - exact E.
      - cbn in Hlt. lia. }
    rewrite Hfirst.
    destruct (place_left_grows rest (block_of item, [])) as [tail Ht].
    exists tail. exact Ht.
  - intros self Hne items cols. unfold _get_analyzer_tab.
    destruct (_analyzers self) as [| a0 rest] eqn:Ea; [contradiction |].
    cbn [length Nat.eqb].
    fold cols. subst items.
    assert (Hc : cols = fold_left place (all_items (a0 :: rest)) ([], []))
      by (unfold cols, fill_columns; apply fill_columns_items).
    destruct (snd cols) as [| e es] eqn:Es.
    + left. cbn [length Nat.ltb Nat.leb]. split; [reflexivity |].
      split; [reflexivity |].
      rewrite Hc in Es. apply right_column_empty in Es. apply Es.
    + right. cbn [length Nat.ltb Nat.leb app]. split; [reflexivity |].
      split; [discriminate |].
      apply right_column_nonempty; [reflexivity |].
      rewrite <- Hc, Es. discriminate.
Qed.

Lemma analyzer_tab_ties_go_left_witness :
  place ([], []) ("a"%string, table_of_height 4) =
    (block_of ("a"%string, table_of_height 4), []) /\
  (exists tail,
     fst (fill_columns three_tables) =
     block_of ("a"%string, table_of_height 4) ++ tail) /\
  _analyzers bokeh_three_tables <> [].
Proof.
  split; [| split].
  - exact (proj1 analyzer_tab_ties_go_left ([], [])
             ("a"%string, table_of_height 4) eq_refl).
  - exact (proj1 (proj2 analyzer_tab_ties_go_left) three_tables
             ("a"%string, table_of_height 4) _ eq_refl).
  - discriminate.
Defined.

(** ** Frame conditions *)

Section Preserves.
Variables (S : Type) (R : S -> S -> Prop).
Hypothesis R_refl : forall s, R s s.
Hypothesis R_trans : forall a b c, R a b -> R b c -> R a c.

Lemma preserves_ret : forall A (a : A), preserves R (ret a).
Proof. intros A a s s' o H. inversion H; subst. apply R_refl. Qed.

Lemma preserves_raise : forall A e, preserves R (@raise S A e).
Proof. intros A e s s' o H. inversion H; subst. apply R_refl. Qed.

Lemma preserves_lift : forall A (x : outcome A), preserves R (lift x).
Proof. intros A x s s' o H. inversion H; subst. apply R_refl. Qed.

Lemma preserves_gets : forall A (f : S -> A), preserves R (gets f).
Proof. intros A f s s' o H. inversion H; subst. apply R_refl. Qed.

Lemma preserves_bind : forall A B (m : M S A) (k : A -> M S B),
  preserves R m -> (forall a, preserves R (k a)) -> preserves R (bind m k).
Proof.
  intros A B m k Hm Hk s s' o H. unfold bind in H.
  destruct (m s) as [s1 [a | e |]] eqn:E.
  - eapply R_trans; [eapply Hm; eassumption | eapply Hk; eassumption].
  - inversion H; subst. eapply Hm; eassumption.
  - inversion H; subst. eapply Hm; eassumption.
Qed.

Lemma preserves_for_each : forall X (body : X -> M S unit) xs,
  (forall x, preserves R (body x)) -> preserves R (for_each xs body).
Proof.
  intros X body xs Hb. induction xs as [| x xs IH]; simpl.
  - apply preserves_ret.
  - apply preserves_bind; [apply Hb | intros _; exact IH].
Qed.

Lemma preserves_for_fold : forall X A (body : A -> X -> M S A) xs acc,
  (forall a x, preserves R (body a x)) -> preserves R (for_fold xs acc body).
Proof.
  intros X A body xs. induction xs as [| x xs IH]; intros acc Hb; simpl.
  - apply preserves_ret.
  - apply preserves_bind; [apply Hb | intros a; apply IH; exact Hb].
Qed.

Lemma preserves_get_plotinfo : forall h x, preserves R (get_plotinfo h x).
Proof.
  intros h x. unfold get_plotinfo. destruct (plotinfo (h x)).
  - apply preserves_ret.
  - apply preserves_raise.
Qed.
End Preserves.

Lemma same_session_refl : forall s, same_session s s.
Proof. intros s. repeat split. Qed.

Lemma same_session_trans : forall a b c,
  same_session a b -> same_session b c -> same_session a c.
Proof.
  unfold same_session. intros a b c (A1 & A2 & A3 & A4) (B1 & B2 & B3 & B4).
  repeat split; congruence.
Qed.

Lemma same_graph_refl : forall s, same_graph s s.
Proof. intros s. reflexivity. Qed.

Lemma same_graph_trans : forall a b c,
  same_graph a b -> same_graph b c -> same_graph a c.
Proof. unfold same_graph. intros. congruence. Qed.

Lemma same_volume_refl : forall s, same_volume s s.
Proof. intros s. split; reflexivity. Qed.

Lemma same_volume_trans : forall a b c,
  same_volume a b -> same_volume b c -> same_volume a c.
Proof. unfold same_volume. intros a b c [A1 A2] [B1 B2]. split; congruence. Qed.

Create HintDb frame.

#[local] Hint Resolve same_session_refl same_session_trans
  same_graph_refl same_graph_trans same_volume_refl same_volume_trans : frame.

(** Splits a frame goal along the structure of the computation. *)
Ltac frame_step :=
  first
    [ apply preserves_ret
    | apply preserves_raise
    | apply preserves_lift
    | apply preserves_gets
    | apply preserves_get_plotinfo
    | apply preserves_for_each
    | apply preserves_for_fold
    | apply preserves_bind
    | match goal with
      | |- preserves _ (match ?x with _ => _ end) => destruct x
      end ];
  try solve [auto with frame | eauto with frame]; intros.

Ltac frame := repeat frame_step.

Lemma the_graph_session : preserves same_session the_graph.
Proof.
  intros s s' o H. unfold the_graph in H.
  destruct (_data_graph s); inversion H; subst; apply same_session_refl.
Qed.

Lemma the_graph_volume : preserves same_volume the_graph.
Proof.
  intros s s' o H. unfold the_graph in H.
  destruct (_data_graph s); inversion H; subst; apply same_volume_refl.
Qed.

Lemma set_data_graph_session : forall g,
  preserves same_session (modify (set_data_graph g)).
Proof. intros g s s' o H. inversion H; subst. repeat split. Qed.

Lemma set_data_graph_volume : forall g,
  preserves same_volume (modify (set_data_graph g)).
Proof. intros g s s' o H. inversion H; subst. repeat split. Qed.

Lemma set_volume_graphs_session : forall v,
  preserves same_session (modify (set_volume_graphs v)).
Proof. intros g s s' o H. inversion H; subst. repeat split. Qed.

Lemma volume_append_session : forall d, preserves same_session (volume_append d).
Proof.
  intros d s s' o H. unfold volume_append in H.
  destruct (_volume_graphs s); inversion H; subst; repeat split.
Qed.

Lemma volume_append_graph : forall d, preserves same_graph (volume_append d).
Proof.
  intros d s s' o H. unfold volume_append in H.
  destruct (_volume_graphs s); inversion H; subst; reflexivity.
Qed.

#[local] Hint Resolve the_graph_session the_graph_volume
  set_data_graph_session set_data_graph_volume set_volume_graphs_session
  volume_append_session volume_append_graph : frame.

Lemma graph_new_group_session : forall k, preserves same_session (graph_new_group k).
Proof. intros k. unfold graph_new_group. frame. Qed.

Lemma graph_append_session : forall k x, preserves same_session (graph_append k x).
Proof. intros k x. unfold graph_append. frame. Qed.

Lemma graph_new_group_volume : forall k, preserves same_volume (graph_new_group k).
Proof. intros k. unfold graph_new_group. frame. Qed.

Lemma graph_append_volume : forall k x, preserves same_volume (graph_append k x).
Proof. intros k x. unfold graph_append. frame. Qed.

#[local] Hint Resolve graph_new_group_session graph_append_session
  graph_new_group_volume graph_append_volume : frame.

Lemma attach_session : forall k x, preserves same_session (attach k x).
Proof. intros k x. unfold attach. frame. Qed.

Lemma attach_volume : forall k x, preserves same_volume (attach k x).
Proof. intros k x. unfold attach. frame. Qed.

#[local] Hint Resolve attach_session attach_volume : frame.

Lemma build_data_session : forall fuel h d,
  preserves same_session (build_data fuel h d).
Proof. intros. unfold build_data. frame. Qed.

Lemma build_observer_session : forall fuel h o,
  preserves same_session (build_observer fuel h o).
Proof. intros. unfold build_observer. frame. Qed.

Lemma build_observer_volume : forall fuel h o,
  preserves same_volume (build_observer fuel h o).
Proof. intros. unfold build_observer. frame. Qed.

Lemma build_indicator_session : forall fuel h i,
  preserves same_session (build_indicator fuel h i).
Proof. intros. unfold build_indicator. frame. Qed.

Lemma build_indicator_volume : forall fuel h i,
  preserves same_volume (build_indicator fuel h i).
Proof. intros. unfold build_indicator. frame. Qed.

#[local] Hint Resolve build_data_session build_observer_session
  build_observer_volume build_indicator_session build_indicator_volume : frame.

(** [_build_graph] touches the plot graph and the volume list only. *)
Lemma build_graph_session : forall fuel h ds inds obs,
  preserves same_session (_build_graph fuel h ds inds obs).
Proof. intros. unfold _build_graph. frame. Qed.

(** ** The render call *)

Lemma preserves_weaken : forall S A (R R' : S -> S -> Prop) (m : M S A),
  (forall s s', R s s' -> R' s s') -> preserves R m -> preserves R' m.
Proof. intros S A R R' m HR Hm s s' o H. apply HR. eapply Hm. eassumption. Qed.

Lemma figures_grow_refl : forall s, figures_grow s s.
Proof.
  intros s. repeat split. exists []. rewrite app_nil_r. reflexivity.
Qed.

Lemma figures_grow_trans : forall a b c,
  figures_grow a b -> figures_grow b c -> figures_grow a c.
Proof.
  unfold figures_grow.
  intros a b c (A1 & A2 & A3 & fa & A4) (B1 & B2 & B3 & fb & B4).
  repeat split; try congruence.
  exists (fa ++ fb). rewrite B4, A4, app_assoc. reflexivity.
Qed.

Lemma same_session_grow : forall s s', same_session s s' -> figures_grow s s'.
Proof.
  intros s s' (H1 & H2 & H3 & H4). repeat split; try assumption.
  exists []. rewrite app_nil_r. assumption.
Qed.

Lemma eq_grow : forall s s' : Bokeh, s = s' -> figures_grow s s'.
Proof. intros s s' <-. apply figures_grow_refl. Qed.

(** Building a panel reads the instance and leaves it as it is. *)
Lemma plot_group_pure : forall h si ei locals group,
  preserves eq (plot_group h si ei locals group).
Proof.
  intros h si ei [figs hc] [master slaves]. unfold plot_group.
  destruct master as [m |]; [| apply preserves_raise; reflexivity].
  apply preserves_bind; [intros; congruence | |].
  - apply preserves_get_plotinfo. reflexivity.
  - intros pi. apply preserves_bind; [intros; congruence | |].
    + apply preserves_gets. reflexivity.
    + intros cds.
      destruct (Figure_plot _ _ _ _) as [bf hc1].
      destruct (fold_left _ _ _) as [bf2 hc2].
      apply preserves_ret. reflexivity.
Qed.

Lemma plot_volume_panel_pure : forall si ei hc v,
  preserves eq (plot_volume_panel si ei hc v).
Proof.
  intros si ei hc v. unfold plot_volume_panel.
  apply preserves_bind; [intros; congruence | |].
  - apply preserves_gets. reflexivity.
  - intros cds. destruct (Figure_plot_volume _ _ _) as [bf hc1].
    apply preserves_ret. reflexivity.
Qed.

Lemma for_fold_pure : forall S X A (body : A -> X -> M S A) xs acc,
  (forall a x, preserves eq (body a x)) -> preserves eq (for_fold xs acc body).
Proof.
  intros. apply preserves_for_fold; [reflexivity | intros; congruence | assumption].
Qed.

Lemma append_figures_grow : forall figs,
  preserves figures_grow
    (modify (fun self => set_figures (_figures self ++ figs) self)).
Proof.
  intros figs s s' o H. inversion H; subst. repeat split.
  exists figs. reflexivity.
Qed.

Lemma render_panels_grow : forall fuel h strategy start end_,
  preserves figures_grow (render_panels fuel h strategy start end_).
Proof.
  intros. unfold render_panels.
  apply preserves_bind; [exact figures_grow_trans | |].
  { eapply preserves_weaken; [exact same_session_grow |].
    apply build_graph_session. }
  intros _. destruct (_get_start_end _ _ _) as [si ei].
  apply preserves_bind; [exact figures_grow_trans | |].
  { apply preserves_gets. exact figures_grow_refl. }
  intros graph. apply preserves_bind; [exact figures_grow_trans | |].
  { destruct graph as [g |].
    - eapply preserves_weaken; [exact eq_grow |].
      apply for_fold_pure. intros. apply plot_group_pure.
    - apply preserves_raise. exact figures_grow_refl. }
  intros [figs hc]. apply preserves_bind; [exact figures_grow_trans | |].
  { apply preserves_gets. exact figures_grow_refl. }
  intros vols. apply preserves_bind; [exact figures_grow_trans | |].
  { destruct vols as [vs |].
    - eapply preserves_weaken; [exact eq_grow |].
      apply for_fold_pure. intros. apply plot_volume_panel_pure.
    - apply preserves_raise. exact figures_grow_refl. }
  intros hc'. apply preserves_bind; [exact figures_grow_trans | |].
  { apply preserves_gets. exact figures_grow_refl. }
  intros sch. apply append_figures_grow.
Qed.

(** [plot] in three cases.  A call stopped by one of the four checks leaves
    the instance as it is. *)
Lemma plot_call_stopped : forall fuel c self,
  reaches_build c = false ->
  plot_call fuel c self =
  (self,
   if (c_numfigs c >? 1)%Z then Raise (Exception "numfigs must be 1")
   else match c_use c with
        | Some _ => Raise (Exception "Different backends by 'use' not supported")
        | None => Ok tt
        end).
Proof.
  intros fuel [h st figid numfigs iplot start end_ use] self.
  unfold plot_call, plot, reaches_build.
  cbn [c_heap c_strategy c_figid c_numfigs c_iplot c_start c_end c_use].
  destruct (numfigs >? 1)%Z; cbn [negb andb]; [reflexivity |].
  destruct use as [u |]; cbn [andb]; [reflexivity |].
  destruct (datas st) as [| d0 ds]; cbn [andb]; [reflexivity |].
  destruct (strategy_len st =? 0); cbn [negb]; [reflexivity | discriminate].
Qed.

(** A call that gets past the checks on an instance without time source,
    with a calendar date for a bound, raises [TypeError] from the slice: the
    analyzers are registered, and nothing else has happened. *)
Lemma plot_call_no_slice : forall fuel c self,
  reaches_build c = true -> reaches_graph c self = false ->
  plot_call fuel c self =
  (set_analyzers (_analyzers self ++ [analyzers (c_strategy c)]) self,
   Raise TypeError).
Proof.
  intros fuel [h st figid numfigs iplot start end_ use] self.
  unfold reaches_graph. intros Hr. rewrite Hr. cbn [andb]. revert Hr.
  unfold plot_call, plot, reaches_build, cds_of_call.
  cbn [c_heap c_strategy c_figid c_numfigs c_iplot c_start c_end c_use].
  destruct (numfigs >? 1)%Z; cbn [negb andb]; [discriminate |].
  destruct use as [u |]; cbn [andb]; [discriminate |].
  destruct (datas st) as [| d0 ds]; cbn [andb]; [discriminate |].
  destruct (strategy_len st =? 0); cbn [negb]; [discriminate |].
  intros _. unfold bind at 1. cbn [modify]. unfold bind at 1.
  cbn [gets set_analyzers _cds].
  destruct (_cds self) as [x |]; [discriminate |].
  unfold plotrange.
  destruct start as [| i | d]; destruct end_ as [| j | d'];
    try discriminate; intros _; reflexivity.
Qed.

(** Any other call goes on to the construction of the graph, the analyzers
    registered and the time source in place. *)
Lemma plot_call_at_graph : forall fuel c self,
  reaches_graph c self = true ->
  plot_call fuel c self =
  render_panels fuel (c_heap c) (c_strategy c) (c_start c) (c_end c)
    (at_graph c self).
Proof.
  intros fuel [h st figid numfigs iplot start end_ use] self.
  unfold reaches_graph, at_graph, plot_call, plot, reaches_build, cds_of_call.
  cbn [c_heap c_strategy c_figid c_numfigs c_iplot c_start c_end c_use].
  destruct (numfigs >? 1)%Z; cbn [negb andb]; [discriminate |].
  destruct use as [u |]; cbn [andb]; [discriminate |].
  destruct (datas st) as [| d0 ds]; cbn [andb]; [discriminate |].
  destruct (strategy_len st =? 0); cbn [negb]; [discriminate |].
  unfold bind at 1. cbn [modify]. unfold bind at 1.
  cbn [gets set_analyzers _cds].
  destruct (_cds self) as [x |] eqn:Ec.
  - intros _. unfold bind at 1. cbn [ret]. f_equal.
    unfold set_cds.
    cbn [scheme _figures _data_graph _volume_graphs _cds _analyzers].
    rewrite <- Ec. reflexivity.
  - destruct (plotrange d0 start end_) as [dtline | e |]; try discriminate.
    intros _. reflexivity.
Qed.

Lemma reaches_graph_build : forall c self,
  reaches_graph c self = true -> reaches_build c = true.
Proof.
  intros c self H. unfold reaches_graph in H.
  apply andb_true_iff in H. apply H.
Qed.

(** The time source after a call: the one there was, or the one this call
    builds when it is the first to get past the checks with bounds the
    slice takes. *)
Lemma plot_call_cds_figures : forall fuel c self self' o,
  plot_call fuel c self = (self', o) ->
  _cds self' =
    match _cds self with
    | Some x => Some x
    | None => if reaches_build c then cds_of_call c else None
    end /\
  scheme self' = scheme self /\
  exists figs, _figures self' = _figures self ++ figs.
Proof.
  intros fuel c self self' o H.
  assert (Hsame : forall s : Bokeh,
             _cds s = match _cds s with Some x => Some x | None => None end)
    by (intros s; destruct (_cds s); reflexivity).
  destruct (reaches_build c) eqn:Er.
  - destruct (reaches_graph c self) eqn:Eg.
    + rewrite (plot_call_at_graph _ _ _ Eg) in H.
      apply render_panels_grow in H. destruct H as (H1 & H2 & H3 & H4).
      cbn in H1, H2, H4. rewrite H2. auto.
    + rewrite (plot_call_no_slice _ _ _ Er Eg) in H. inversion H; subst.
      cbn [set_analyzers _cds scheme _figures].
      unfold reaches_graph in Eg. rewrite Er in Eg. cbn [andb] in Eg.
      split; [| split; [reflexivity |
                        exists []; rewrite app_nil_r; reflexivity]].
      destruct (_cds self); [discriminate |].
      destruct (cds_of_call c); [discriminate | reflexivity].
  - rewrite (plot_call_stopped _ _ _ Er) in H. inversion H; subst.
    split; [apply Hsame |]. split; [reflexivity |].
    exists []. rewrite app_nil_r. reflexivity.
Qed.

Lemma enumerate_length : forall A (l : list A), length (enumerate l) = length l.
Proof.
  intros A l. unfold enumerate. rewrite length_combine, length_seq. lia.
Qed.

Lemma enumerate_map_Forall : forall A B (Q : B -> Prop) (F : nat * A -> B) l,
  (forall i f, In f l -> i < length l -> Q (F (i, f))) ->
  Forall Q (map F (enumerate l)).
Proof.
  intros A B Q F l H. apply Forall_forall. intros y Hy.
  apply in_map_iff in Hy. destruct Hy as [[i f] [Hy Hin]]. subst y.
  unfold enumerate in Hin. apply H.
  - eapply in_combine_r. eassumption.
  - apply in_combine_l in Hin. apply in_seq in Hin. lia.
Qed.

(** With the axis at the bottom, the loop over the panels hides the x-axis
    of each of them: [i <= len(strat_figures)] holds for every index. *)
Lemma configure_xaxis_hides_all : forall figs,
  Forall (fun f => xaxis_visible f = false) (configure_xaxis figs).
Proof.
  intros figs. unfold configure_xaxis. apply enumerate_map_Forall.
  intros i f Hin Hi. cbn.
  destruct (Nat.leb_spec i (length figs)); [reflexivity | lia].
Qed.

Lemma style_figures_length : forall sch hc figs,
  length (style_figures sch hc figs) = length figs.
Proof.
  intros sch hc figs. unfold style_figures, apply_hovertips.
  rewrite length_map.
  destruct (String.eqb (xaxis_pos sch) "bottom");
    unfold configure_xaxis, link_axis;
    repeat (rewrite ?length_map, ?enumerate_length); reflexivity.
Qed.

Lemma style_figures_bottom_hidden : forall sch hc figs,
  xaxis_pos sch = "bottom"%string ->
  Forall (fun f => xaxis_visible f = false) (style_figures sch hc figs).
Proof.
  intros sch hc figs Hb. unfold style_figures. rewrite Hb, String.eqb_refl.
  unfold apply_hovertips.
  apply Forall_map. cbn [set_hovertips xaxis_visible].
  apply configure_xaxis_hides_all.
Qed.

Lemma style_figures_cds : forall sch hc figs c,
  Forall (fun f => fig_cds f = c) figs ->
  Forall (fun f => fig_cds f = c) (style_figures sch hc figs).
Proof.
  intros sch hc figs c H. unfold style_figures, apply_hovertips.
  apply Forall_map. cbn [set_hovertips fig_cds].
  assert (Hl : Forall (fun f => fig_cds f = c)
                 (link_axis
                    (map (set_legend_colors (legend_background_color sch)
                                            (legend_text_color sch))
                       (map (set_legend_click_policy (legend_click sch))
                            figs)))).
  { unfold link_axis. apply enumerate_map_Forall. intros i f Hin _.
    apply in_map_iff in Hin. destruct Hin as [f1 [<- Hin]].
    apply in_map_iff in Hin. destruct Hin as [f0 [<- Hin]].
    rewrite Forall_forall in H. specialize (H f0 Hin).
    destruct (1 <=? i); cbn; assumption. }
  destruct (String.eqb (xaxis_pos sch) "bottom"); [| exact Hl].
  unfold configure_xaxis. apply enumerate_map_Forall. intros i f Hin _.
  rewrite Forall_forall in Hl. cbn. apply Hl. assumption.
Qed.

Lemma Figure_plot_cds : forall bf hc x m,
  fig_cds (fst (Figure_plot bf hc x m)) = fig_cds bf.
Proof. reflexivity. Qed.

Lemma fold_Figure_plot_cds : forall m slaves bf hc,
  fig_cds (fst (fold_left
                  (fun '(bf, hoverc) s => Figure_plot bf hoverc s (Some m))
                  slaves (bf, hc))) = fig_cds bf.
Proof.
  intros m slaves. induction slaves as [| s ss IH]; intros bf hc.
  - reflexivity.
  - cbn [fold_left].
    pose proof (Figure_plot_cds bf hc s (Some m)) as Hc.
    destruct (Figure_plot bf hc s (Some m)) as [bf1 hc1].
    rewrite IH. exact Hc.
Qed.

(** A group that is plotted adds one panel, bound to the time source of the
    instance. *)
Lemma plot_group_ok : forall h si ei figs hc group s s' figs' hc',
  plot_group h si ei (figs, hc) group s = (s', Ok (figs', hc')) ->
  s' = s /\ exists bf, figs' = figs ++ [bf] /\ fig_cds bf = _cds s.
Proof.
  intros h si ei figs hc [master slaves] s s' figs' hc' H.
  split; [symmetry; eapply plot_group_pure; eassumption |].
  unfold plot_group in H. destruct master as [m |]; [| discriminate].
  unfold get_plotinfo in H. destruct (plotinfo (h m)) as [pi |]; [| discriminate].
  unfold bind, ret, gets in H. cbn [Figure_plot] in H.
  match type of H with
  | context [fold_left ?f ?l ?a] =>
      pose proof (@fold_Figure_plot_cds m l (fst a) (snd a)) as Hc;
      cbn [fst snd] in Hc; destruct (fold_left f l a) as [bf2 hc2]
  end.
  inversion H; subst. exists bf2. split; [reflexivity |].
  cbn [fst] in Hc. rewrite Hc. reflexivity.
Qed.

Lemma plot_groups_ok : forall h si ei g figs hc s s' figs' hc',
  for_fold g (figs, hc) (plot_group h si ei) s = (s', Ok (figs', hc')) ->
  s' = s /\
  exists new, figs' = figs ++ new /\ length new = length g /\
    Forall (fun f => fig_cds f = _cds s) new.
Proof.
  intros h si ei g. induction g as [| grp g IH];
    intros figs hc s s' figs' hc' H; simpl in H.
  - inversion H; subst. split; [reflexivity |].
    exists []. rewrite app_nil_r. repeat split. constructor.
  - apply bind_inv_ok in H. destruct H as (s1 & [figs1 hc1] & H1 & H2).
    apply plot_group_ok in H1. destruct H1 as (-> & bf & -> & Hbf).
    apply IH in H2. destruct H2 as (-> & new & -> & Hlen & Hall).
    split; [reflexivity |].
    exists (bf :: new). rewrite <- app_assoc. repeat split.
    + simpl. rewrite Hlen. reflexivity.
    + constructor; assumption.
Qed.

(** What a call of [render_panels] that returns has done. *)
Lemma render_panels_ok : forall fuel h strategy start end_ s s',
  render_panels fuel h strategy start end_ s = (s', Ok tt) ->
  exists s1 g figs hc,
    _build_graph fuel h (datas strategy) (getindicators strategy)
                 (getobservers strategy) s = (s1, Ok tt) /\
    _data_graph s1 = Some g /\
    length figs = length g /\
    Forall (fun f => fig_cds f = _cds s) figs /\
    s' = set_figures (_figures s ++ style_figures (scheme s) hc figs) s1.
Proof.
  intros fuel h strategy start end_ s s' H. unfold render_panels in H.
  apply bind_inv_ok in H. destruct H as (s1 & [] & Hb & H).
  assert (Hf : same_session s s1)
    by (eapply build_graph_session; eassumption).
  destruct Hf as (Fs & Ff & Fc & Fa).
  destruct (_get_start_end _ _ _) as [si ei].
  apply bind_inv_ok in H. destruct H as (s2 & graph & Hg & H).
  inversion Hg; subst s2 graph. clear Hg.
  apply bind_inv_ok in H. destruct H as (s3 & [figs hc] & Hl & H).
  destruct (_data_graph s1) as [g |] eqn:Eg; [| discriminate].
  apply plot_groups_ok in Hl. destruct Hl as (-> & new & -> & Hlen & Hall).
  apply bind_inv_ok in H. destruct H as (s4 & vols & Hv & H).
  inversion Hv; subst s4 vols. clear Hv.
  apply bind_inv_ok in H. destruct H as (s5 & hc' & Hv & H).
  destruct (_volume_graphs s1) as [vs |]; [| discriminate].
  assert (s5 = s1).
  { symmetry. eapply for_fold_pure; [| eassumption].
    intros. apply plot_volume_panel_pure. }
  subst s5.
  apply bind_inv_ok in H. destruct H as (s6 & sch & Hs & H).
  inversion Hs; subst s6 sch. clear Hs.
  inversion H; subst s'.
  exists s1, g, new, hc'. split; [assumption |].
  split; [assumption |]. split; [assumption |].
  split; [rewrite <- Fc; assumption |].
  cbn [app]. rewrite Fs, Ff. reflexivity.
Qed.

(** A call of [plot] that returns either stopped at one of the emptiness
    checks, the instance untouched, or went through [render_panels]. *)
Lemma plot_call_ok : forall fuel c self self',
  plot_call fuel c self = (self', Ok tt) ->
  (reaches_build c = false /\ self' = self) \/
  (reaches_build c = true /\
   exists g figs hc,
     _data_graph self' = Some g /\
     length figs = length g /\
     Forall (fun f => fig_cds f = _cds self') figs /\
     _figures self' = _figures self ++ style_figures (scheme self) hc figs).
Proof.
  intros fuel c self self' H.
  destruct (reaches_build c) eqn:Er.
  - right. split; [reflexivity |].
    destruct (reaches_graph c self) eqn:Eg;
      [| rewrite (plot_call_no_slice _ _ _ Er Eg) in H; discriminate].
    rewrite (plot_call_at_graph _ _ _ Eg) in H.
    apply render_panels_ok in H.
    destruct H as (s4 & g & figs & hc & Hb & Hg & Hlen & Hall & ->).
    exists g, figs, hc. cbn [set_figures _data_graph _cds _figures].
    split; [assumption |]. split; [assumption |].
    assert (Hf : same_session (at_graph c self) s4)
      by (eapply build_graph_session; eassumption).
    destruct Hf as (_ & _ & Fc & _).
    split; [rewrite Fc; assumption | reflexivity].
  - left. rewrite (plot_call_stopped _ _ _ Er) in H. inversion H; subst.
    split; reflexivity.
Qed.

(** The multi-figure check comes first: a call with [numfigs > 1] raises
    with the instance untouched. *)
Lemma plot_rejects_multi_figure :
  forall fuel h strategy figid numfigs iplot start end_ use self,
    (1 < numfigs)%Z ->
    plot fuel h strategy figid numfigs iplot start end_ use self =
    (self, Raise (Exception "numfigs must be 1")).
Proof.
  intros. unfold plot.
  assert (E : (numfigs >? 1)%Z = true) by (apply Z.gtb_lt; lia).
  rewrite E. reflexivity.
Qed.

(** C4. [plot] does not reject every [numfigs] other than 1: the check is
    [numfigs > 1], so a call with [numfigs = 0] on one plotted data feed
    raises nothing; it builds the panel and returns. *)
Theorem plot_numfigs_zero_not_rejected :
  exists self',
    plot 1 heap_plain one_feed 0 0 true BNone BNone None
         (Bokeh_init plain_scheme) = (self', Ok tt) /\
    length (_figures self') = 1.
Proof.
  eexists. split; [vm_compute; reflexivity | reflexivity].
Qed.

(** C6. With the x-axis position set to "bottom", a call of [plot] that
    returns has hidden the x-axis of every panel it added, the last one
    included: on a strategy with one data feed the only panel, which is the
    bottom one, has its x-axis hidden. *)
Theorem plot_bottom_hides_every_xaxis :
  (forall fuel c self self',
     xaxis_pos (scheme self) = "bottom"%string ->
     plot_call fuel c self = (self', Ok tt) ->
     exists figs,
       _figures self' = _figures self ++ figs /\
       Forall (fun f => xaxis_visible f = false) figs) /\
  (exists self',
     plot 1 heap_plain one_feed 0 1 true BNone BNone None
          (Bokeh_init bottom_scheme) = (self', Ok tt) /\
     map xaxis_visible (_figures self') = [false]).
Proof.
  split.
  - intros fuel c self self' Hb H. apply plot_call_ok in H.
    destruct H as [[_ ->] | (_ & g & figs & hc & _ & _ & _ & Hf)].
    + exists []. rewrite app_nil_r. split; [reflexivity | constructor].
    + eexists. split; [exact Hf |].
      apply style_figures_bottom_hidden. assumption.
  - eexists. split; [vm_compute; reflexivity | reflexivity].
Qed.

Lemma plot_bottom_hides_every_xaxis_witness :
  exists figs,
    _figures (fst (plot_call 1
                     (mkCall heap_plain one_feed 0 1 true BNone BNone None)
                     (Bokeh_init bottom_scheme))) =
    _figures (Bokeh_init bottom_scheme) ++ figs /\
    Forall (fun f => xaxis_visible f = false) figs.
Proof.
  exact (proj1 plot_bottom_hides_every_xaxis 1
           (mkCall heap_plain one_feed 0 1 true BNone BNone None)
           (Bokeh_init bottom_scheme) _ eq_refl eq_refl).
Defined.

(** Past the two configuration checks, a strategy without data feeds or
    without an elapsed bar makes [plot] return at once. *)
Lemma plot_empty_strategy_returns :
  forall fuel h strategy figid numfigs iplot start end_ self,
    (numfigs <= 1)%Z ->
    datas strategy = [] \/ strategy_len strategy = 0 ->
    plot fuel h strategy figid numfigs iplot start end_ None self =
    (self, Ok tt).
Proof.
  intros fuel h strategy figid numfigs iplot start end_ self Hn He.
  unfold plot.
  assert (E : (numfigs >? 1)%Z = false).
  { destruct (numfigs >? 1)%Z eqn:E; [| reflexivity].
    apply Z.gtb_lt in E. lia. }
  rewrite E. destruct He as [He | He].
  - rewrite He. reflexivity.
  - destruct (datas strategy); [reflexivity |]. rewrite He. reflexivity.
Qed.

(** C7, as the code has it.  A call of [plot] with a valid configuration
    ([numfigs] is 1, [use] is unset) on a strategy without data feeds, or
    without an elapsed bar, returns without raising and leaves the whole
    instance as it was: no panel, no time source, no analyzer entry, no
    graph. *)
Theorem plot_empty_strategy_noop :
  forall fuel h strategy figid iplot start end_ self,
    datas strategy = [] \/ strategy_len strategy = 0 ->
    plot fuel h strategy figid 1 iplot start end_ None self = (self, Ok tt).
Proof.
  intros. apply plot_empty_strategy_returns; [lia | assumption].
Qed.

Lemma plot_empty_strategy_noop_witness :
  plot 1 heap_plain no_feed 0 1 true BNone BNone None (Bokeh_init plain_scheme)
    = (Bokeh_init plain_scheme, Ok tt) /\
  plot 1 heap_plain no_bar 0 1 true BNone BNone None (Bokeh_init plain_scheme)
    = (Bokeh_init plain_scheme, Ok tt).
Proof.
  split.
  - apply plot_empty_strategy_noop. left. reflexivity.
  - apply plot_empty_strategy_noop. right. reflexivity.
Defined.

(** C7, as stated, fails: on a strategy without data feeds a call asking
    for two figures, or naming a backend, raises. *)
Lemma plot_empty_strategy_can_raise :
  datas no_feed = [] /\
  plot 1 heap_plain no_feed 0 2 true BNone BNone None (Bokeh_init plain_scheme)
    = (Bokeh_init plain_scheme, Raise (Exception "numfigs must be 1")) /\
  plot 1 heap_plain no_feed 0 1 true BNone BNone (Some "svg"%string)
       (Bokeh_init plain_scheme)
    = (Bokeh_init plain_scheme,
       Raise (Exception "Different backends by 'use' not supported")).
Proof.
  repeat split.
Qed.

Lemma session_cds_figures : forall fuel calls self self',
  session fuel calls self = Some self' ->
  _cds self' =
    match _cds self with
    | Some x => Some x
    | None => first_cds calls
    end /\
  exists figs, _figures self' = _figures self ++ figs.
Proof.
  intros fuel calls. induction calls as [| c cs IH]; intros self self' H.
  - simpl in H. inversion H; subst. split.
    + destruct (_cds self'); reflexivity.
    + exists []. rewrite app_nil_r. reflexivity.
  - simpl in H. destruct (plot_call fuel c self) as [s1 o] eqn:E.
    apply plot_call_cds_figures in E. destruct E as (Ec & _ & f1 & Ef).
    assert (Hs : session fuel cs s1 = Some self')
      by (destruct o; [assumption | assumption | discriminate]).
    apply IH in Hs. destruct Hs as (Hc & f2 & Hf). split.
    + rewrite Hc, Ec. cbn [first_cds]. unfold source_of_call.
      destruct (_cds self) as [x |]; [reflexivity |].
      destruct (if reaches_build c then cds_of_call c else None);
        reflexivity.
    + exists (f1 ++ f2). rewrite Hf, Ef, app_assoc. reflexivity.
Qed.

(** C9. Whatever a call of [plot] does, a time source that exists is still
    the same one afterwards, and on an instance without one the call leaves
    one exactly when it reaches the construction of the graph: when it gets
    past the four checks and its bounds are such that the slice of the
    datetime line can be taken, which is the step before [_build_graph].  A
    call that reaches the construction of the graph goes through the part of
    [plot] that starts with [_build_graph], on the instance with the time
    source in place; any other call leaves the time source, the graph and
    the figure list as they were.  A call only adds panels at the end of the
    figure list, and a call that builds the graph and returns adds one panel
    per group, each bound to the time source of the session.  Over a whole
    session the time source is therefore the one of the first call that
    reached the construction of the graph, and the figure list of the start
    is a prefix of the final one. *)
Theorem time_source_built_once_figures_accumulate :
  (forall fuel c self self' o,
     plot_call fuel c self = (self', o) ->
     _cds self' =
       match _cds self with
       | Some x => Some x
       | None => if reaches_graph c self then cds_of_call c else None
       end /\
     (reaches_graph c self = true -> _cds self' <> None) /\
     (reaches_graph c self = false ->
      _cds self' = _cds self /\ _data_graph self' = _data_graph self /\
      _figures self' = _figures self) /\
     exists figs, _figures self' = _figures self ++ figs) /\
  (forall fuel c self,
     reaches_graph c self = true ->
     plot_call fuel c self =
     render_panels fuel (c_heap c) (c_strategy c) (c_start c) (c_end c)
       (at_graph c self)) /\
  (forall fuel c self self',
     plot_call fuel c self = (self', Ok tt) ->
     reaches_build c = true ->
     reaches_graph c self = true /\
     exists g figs,
       _data_graph self' = Some g /\
       length figs = length g /\
       Forall (fun f => fig_cds f = _cds self') figs /\
       _figures self' = _figures self ++ figs) /\
  (forall fuel calls self self',
     session fuel calls self = Some self' ->
     _cds self' =
       match _cds self with
       | Some x => Some x
       | None => first_cds calls
       end /\
     exists figs, _figures self' = _figures self ++ figs).
Proof.
  split; [| split; [| split]].
  - intros fuel c self self' o H.
    pose proof (plot_call_cds_figures _ _ _ H) as (H1 & _ & H2).
    assert (Hc : _cds self' =
                 match _cds self with
                 | Some x => Some x
                 | None => if reaches_graph c self then cds_of_call c else None
                 end).
    { rewrite H1. destruct (_cds self) as [x |] eqn:Ec; [reflexivity |].
      unfold reaches_graph. rewrite Ec.
      destruct (reaches_build c); cbn [andb]; [| reflexivity].
      destruct (cds_of_call c); reflexivity. }
    split; [exact Hc |]. split; [| split; [| exact H2]].
    + intros Eg. rewrite Hc, Eg. unfold reaches_graph in Eg.
      destruct (_cds self); [discriminate |].
      apply andb_true_iff in Eg. destruct Eg as [_ Eg].
      destruct (cds_of_call c); discriminate.
    + intros Eg. destruct (reaches_build c) eqn:Er.
      * rewrite (plot_call_no_slice _ _ _ Er Eg) in H. inversion H; subst.
        repeat split.
      * rewrite (plot_call_stopped _ _ _ Er) in H. inversion H; subst.
        repeat split.
  - exact plot_call_at_graph.
  - intros fuel c self self' H Hr. split.
    + destruct (reaches_graph c self) eqn:Eg; [reflexivity |].
      rewrite (plot_call_no_slice _ _ _ Hr Eg) in H. discriminate.
    + apply plot_call_ok in H.
      destruct H as [[Hn _] | (_ & g & figs & hc & Hg & Hlen & Hall & Hf)];
        [congruence |].
      exists g, (style_figures (scheme self) hc figs).
      split; [assumption |].
      split; [rewrite style_figures_length; assumption |].
      split; [apply style_figures_cds; assumption | assumption].
  - exact session_cds_figures.
Qed.

Lemma time_source_built_once_figures_accumulate_witness :
  exists self',
    session 1 [call_from_date; call_full; call_from_1]
      (Bokeh_init plain_scheme) = Some self' /\
    _cds self' = Some (mkCDS 0 BNone BNone) /\
    exists figs, _figures self' = _figures (Bokeh_init plain_scheme) ++ figs.
Proof.
  eassert (E : session 1 [call_from_date; call_full; call_from_1]
                 (Bokeh_init plain_scheme) = Some _)
    by (vm_compute; reflexivity).
  eexists. split; [exact E |].
  exact (proj2 (proj2 (proj2 time_source_built_once_figures_accumulate)) 1
           [call_from_date; call_full; call_from_1]
           (Bokeh_init plain_scheme) _ E).
Defined.

(** A call with a calendar date for a bound, on an instance without time
    source, gets past the four checks and raises [TypeError] where the
    slice is taken: it leaves no time source and no graph, and the next call
    is the one that builds them. *)
Lemma plot_date_bound_before_time_source :
  reaches_build call_from_date = true /\
  reaches_graph call_from_date (Bokeh_init plain_scheme) = false /\
  (exists self1,
     plot_call 1 call_from_date (Bokeh_init plain_scheme)
     = (self1, Raise TypeError) /\
     _cds self1 = None /\ _data_graph self1 = None /\ _figures self1 = [] /\
     exists self2,
       plot_call 1 call_full self1 = (self2, Ok tt) /\
       _cds self2 = Some (mkCDS 0 BNone BNone) /\
       length (_figures self2) = 1 /\
       exists self3,
         plot_call 1 call_from_date self2 = (self3, Ok tt) /\
         _cds self3 = Some (mkCDS 0 BNone BNone) /\
         length (_figures self3) = 2).
Proof.
  split; [reflexivity |]. split; [reflexivity |].
  eexists. split; [vm_compute; reflexivity |].
  split; [reflexivity |]. split; [reflexivity |]. split; [reflexivity |].
  eexists. split; [vm_compute; reflexivity |].
  split; [reflexivity |]. split; [reflexivity |].
  eexists. split; [vm_compute; reflexivity |].
  split; reflexivity.
Qed.

(** ** The plot graph as a dictionary *)

Lemma key_eqb_eq : forall a b, key_eqb a b = true <-> a = b.
Proof.
  intros [x |] [y |]; simpl; split; intros H; try congruence.
  - apply Nat.eqb_eq in H. congruence.
  - inversion H. apply Nat.eqb_refl.
Qed.

Lemma key_eqb_refl : forall a, key_eqb a a = true.
Proof. intros a. apply key_eqb_eq. reflexivity. Qed.

Lemma key_eqb_neq : forall a b, key_eqb a b = false <-> a <> b.
Proof.
  intros a b. split.
  - intros H E. apply key_eqb_eq in E. congruence.
  - intros H. destruct (key_eqb a b) eqn:E; [| reflexivity].
    apply key_eqb_eq in E. contradiction.
Qed.

Lemma key_eqb_sym : forall a b, key_eqb a b = key_eqb b a.
Proof.
  intros a b. destruct (key_eqb b a) eqn:E.
  - apply key_eqb_eq in E. subst. apply key_eqb_refl.
  - apply key_eqb_neq. apply key_eqb_neq in E. congruence.
Qed.

Lemma contains_getitem : forall k g,
  contains k g = match getitem k g with Some _ => true | None => false end.
Proof.
  intros k g. induction g as [| [k' v] g IH]; simpl.
  - reflexivity.
  - destruct (key_eqb k k'); [reflexivity | exact IH].
Qed.

Lemma getitem_setitem : forall k v g k',
  getitem k' (setitem k v g) =
  if key_eqb k' k then Some v else getitem k' g.
Proof.
  intros k v g k'. induction g as [| [k0 v0] g IH]; simpl.
  - reflexivity.
  - destruct (key_eqb k k0) eqn:E; simpl.
    + apply key_eqb_eq in E. subst k0. destruct (key_eqb k' k); reflexivity.
    + destruct (key_eqb k' k0) eqn:E0.
      * apply key_eqb_eq in E0. subst k0.
        rewrite key_eqb_sym, E. reflexivity.
      * exact IH.
Qed.





Lemma getitem_keys : forall k g,
  In k (map fst g) <-> getitem k g <> None.
Proof.
  intros k g. induction g as [| [k0 v0] g IH]; simpl.
  - intuition.
  - destruct (key_eqb k k0) eqn:E.
    + apply key_eqb_eq in E. subst. split; [discriminate | auto].
    + apply key_eqb_neq in E. rewrite <- IH. intuition congruence.
Qed.

(** ** Actions on the plot graph *)

Lemma getitem_apply_own : forall x g k,
  getitem k (apply_action x OwnGroup g) =
  if key_eqb k (Some x) then Some [] else getitem k g.
Proof. intros. unfold apply_action. apply getitem_setitem. Qed.

Lemma getitem_apply_slave : forall x k0 g k,
  getitem k (apply_action x (Slave k0) g) =
  if key_eqb k k0
  then Some (match getitem k0 g with Some l => l | None => [] end ++ [x])
  else getitem k g.
Proof.
  intros x k0 g k. unfold apply_action. rewrite contains_getitem.
  destruct (getitem k0 g) as [l |] eqn:E.
  - rewrite E, getitem_setitem. reflexivity.
  - rewrite getitem_setitem, key_eqb_refl, !getitem_setitem.
    destruct (key_eqb k k0); reflexivity.
Qed.


Lemma graph_of_snoc : forall acts x a,
  graph_of (acts ++ [(x, a)]) = apply_action x a (graph_of acts).
Proof. intros. unfold graph_of. rewrite fold_left_app. reflexivity. Qed.






(** A key of the graph was opened as a group of its own or attached to. *)
Lemma graph_of_keys : forall acts k,
  In k (map fst (graph_of acts)) <->
  (exists z, k = Some z /\ In (z, OwnGroup) acts) \/
  (exists y, In (y, Slave k) acts).
Proof.
  induction acts as [| [x a] acts IH] using rev_ind; intros k.
  - simpl. split; [intros [] | intros [(z & _ & []) | (y & [])]].
  - rewrite graph_of_snoc, getitem_keys.
    assert (Hsplit : forall P : ObjId * action -> Prop,
               (exists e, P e /\ In e (acts ++ [(x, a)])) <->
               (exists e, P e /\ In e acts) \/ P (x, a)).
    { intros P. split.
      - intros (e & He & Hin). apply in_app_or in Hin.
        destruct Hin as [Hin | [<- | []]]; [left; eauto | right; assumption].
      - intros [(e & He & Hin) | He].
        + exists e. split; [assumption | apply in_or_app; auto].
        + exists (x, a). split; [assumption |].
          apply in_or_app. right. left. reflexivity. }
    assert (Hold : getitem k (graph_of acts) <> None <->
                   (exists z, k = Some z /\ In (z, OwnGroup) acts) \/
                   (exists y, In (y, Slave k) acts))
      by (rewrite <- getitem_keys; apply IH).
    destruct a as [| | k0].
    + simpl. rewrite Hold. split.
      * intros [(z & Hz & Hin) | (y & Hin)];
          [left; exists z | right; exists y];
          repeat split; auto; apply in_or_app; auto.
      * intros [(z & Hz & Hin) | (y & Hin)]; apply in_app_or in Hin;
          destruct Hin as [Hin | [Hin | []]]; try discriminate;
          [left; exists z | right; exists y]; auto.
    + rewrite getitem_apply_own. destruct (key_eqb k (Some x)) eqn:E.
      * apply key_eqb_eq in E. subst k. split; [| discriminate].
        intros _. left. exists x. split; [reflexivity |].
        apply in_or_app. right. left. reflexivity.
      * apply key_eqb_neq in E. rewrite Hold. split.
        -- intros [(z & Hz & Hin) | (y & Hin)];
             [left; exists z | right; exists y];
             repeat split; auto; apply in_or_app; auto.
        -- intros [(z & Hz & Hin) | (y & Hin)]; apply in_app_or in Hin;
             destruct Hin as [Hin | [Hin | []]]; try discriminate;
             [left; exists z; auto | | right; exists y; auto].
           inversion Hin; subst. contradiction.
    + rewrite getitem_apply_slave. destruct (key_eqb k k0) eqn:E.
      * apply key_eqb_eq in E. subst k0. split; [| discriminate].
        intros _. right. exists x. apply in_or_app. right. left. reflexivity.
      * apply key_eqb_neq in E. rewrite Hold. split.
        -- intros [(z & Hz & Hin) | (y & Hin)];
             [left; exists z | right; exists y];
             repeat split; auto; apply in_or_app; auto.
        -- intros [(z & Hz & Hin) | (y & Hin)]; apply in_app_or in Hin;
             destruct Hin as [Hin | [Hin | []]]; try discriminate;
             [left; exists z; auto | right; exists y; auto |].
           inversion Hin; subst. contradiction.
Qed.


(** ** The loop bodies of the graph builder *)

Lemma graph_new_group_spec : forall k s g,
  _data_graph s = Some g ->
  graph_new_group k s = (set_data_graph (Some (setitem k [] g)) s, Ok tt).
Proof.
  intros k s g Hg. unfold graph_new_group, bind, the_graph. rewrite Hg.
  reflexivity.
Qed.

Lemma graph_append_spec : forall k x s g l,
  _data_graph s = Some g -> getitem k g = Some l ->
  graph_append k x s = (set_data_graph (Some (setitem k (l ++ [x]) g)) s, Ok tt).
Proof.
  intros k x s g l Hg Hl. unfold graph_append, bind, the_graph.
  rewrite Hg, Hl. reflexivity.
Qed.

Lemma attach_spec : forall k x s g,
  _data_graph s = Some g ->
  attach k x s =
  (set_data_graph (Some (apply_action x (Slave k) g)) s, Ok tt).
Proof.
  intros k x s g Hg. unfold attach, bind at 1. unfold the_graph at 1.
  rewrite Hg. unfold apply_action. rewrite contains_getitem.
  destruct (getitem k g) as [l |] eqn:El; cbn [negb].
  - unfold bind, ret. rewrite (graph_append_spec k x s Hg El), El.
    reflexivity.
  - unfold bind. rewrite (graph_new_group_spec k s Hg).
    assert (Hl : getitem k (setitem k [] g) = Some [])
      by (rewrite getitem_setitem, key_eqb_refl; reflexivity).
    rewrite Hl.
    rewrite (@graph_append_spec k x
               (set_data_graph (Some (setitem k [] g)) s)
               (setitem k [] g) [] eq_refl Hl).
    reflexivity.
Qed.

Lemma resolve_some_not_none : forall fuel h t,
  _resolve_plotmaster fuel h (Some t) <> Ok None.
Proof.
  intros fuel h t. unfold _resolve_plotmaster.
  destruct (resolve_loop fuel h t); discriminate.
Qed.

(** An iteration that returns has carried out the action decided for its
    input; when no action is decided, the iteration does not return. *)
Lemma build_step_spec : forall fuel h role x s g v,
  _data_graph s = Some g -> _volume_graphs s = Some v ->
  match decide fuel h role x with
  | Ok a =>
      exists s',
        build_step fuel h (role, x) s = (s', Ok tt) /\
        _data_graph s' = Some (apply_action x a g) /\
        _volume_graphs s' = Some (v ++ volume_part h (scheme s) role x) /\
        scheme s' = scheme s
  | _ => forall s', build_step fuel h (role, x) s <> (s', Ok tt)
  end.
Proof.
  intros fuel h role x s g v Hg Hv.
  unfold decide, build_step, selected, own_group, resolve_ref, master_ref,
    volume_part.
  cbn [fst snd]. destruct role.
  - (* data feed *)
    unfold build_data, get_plotinfo, selected.
    destruct (plotinfo (h x)) as [pi |]; [| intros s' H; discriminate].
    unfold bind, ret, lift, gets. cbv beta iota.
    destruct (pi_plot pi); cbn [negb andb];
      [| exists s; rewrite app_nil_r; auto].
    destruct (pi_plotmaster pi) as [m |].
    + pose proof (@resolve_some_not_none fuel h m) as Hnn.
      destruct (_resolve_plotmaster fuel h (Some m)) as [[r |] | e |];
        [| exfalso; apply Hnn; reflexivity
         | intros s' H; discriminate | intros s' H; discriminate].
      rewrite (attach_spec (Some r) x s Hg). cbv beta iota.
      cbn [set_data_graph scheme].
      destruct (py_truth (volume (scheme s)) && is_False (voloverlay (scheme s))).
      * unfold volume_append. cbn [set_data_graph _volume_graphs]. rewrite Hv.
        eexists. split; [reflexivity |]. cbn. auto.
      * eexists. split; [reflexivity |]. cbn. rewrite app_nil_r. auto.
    + cbn [_resolve_plotmaster].
      rewrite (graph_new_group_spec (Some x) s Hg). cbv beta iota.
      cbn [set_data_graph scheme].
      destruct (py_truth (volume (scheme s)) && is_False (voloverlay (scheme s))).
      * unfold volume_append. cbn [set_data_graph _volume_graphs]. rewrite Hv.
        eexists. split; [reflexivity |]. cbn. auto.
      * eexists. split; [reflexivity |]. cbn. rewrite app_nil_r. auto.
  - (* observer *)
    unfold build_observer, get_plotinfo.
    destruct (plotinfo (h x)) as [pi |]; [| intros s' H; discriminate].
    unfold bind, ret, lift. cbv beta iota. rewrite app_nil_r.
    destruct (pi_plot pi); cbn [negb andb orb];
      [| exists s; auto].
    destruct (pi_plotskip pi); cbn [negb]; [exists s; auto |].
    destruct (pi_subplot pi).
    + rewrite (graph_new_group_spec (Some x) s Hg).
      eexists. split; [reflexivity |]. cbn. auto.
    + destruct (plotmaster_or_data h pi x) as [t | e |]; cbv beta iota;
        try (intros s' H; discriminate).
      destruct (_resolve_plotmaster fuel h t)
        as [k | e |]; try (intros s' H; discriminate).
      rewrite (attach_spec k x s Hg).
      eexists. split; [reflexivity |]. cbn. auto.
  - (* indicator *)
    unfold build_indicator. rewrite app_nil_r.
    destruct (plotinfo (h x)) as [pi |]; [| exists s; auto].
    unfold bind, ret, lift. cbv beta iota.
    destruct (pi_plot pi); cbn [negb andb orb];
      [| exists s; auto].
    destruct (pi_plotskip pi); cbn [negb]; [exists s; auto |].
    destruct (pi_subplot pi).
    + rewrite (graph_new_group_spec (Some x) s Hg).
      eexists. split; [reflexivity |]. cbn. auto.
    + destruct (_resolve_plotmaster fuel h (plotmaster_else_data h pi x))
        as [k | e |]; try (intros s' H; discriminate).
      rewrite (attach_spec k x s Hg).
      eexists. split; [reflexivity |]. cbn. auto.
Qed.


Lemma decide_own : forall fuel h role x,
  decide fuel h role x = Ok OwnGroup <-> opens_group h role x.
Proof.
  intros fuel h role x. unfold decide, opens_group. split.
  - intros H. destruct (plotinfo (h x)) as [pi |] eqn:Ep.
    + destruct (selected h role x); cbn [negb] in H; [| discriminate].
      destruct (own_group h role x); [auto |].
      destruct (resolve_ref fuel h role x);
        discriminate.
    + destruct role; discriminate.
  - intros (Hs & Ho).
    destruct (plotinfo (h x)) as [pi |] eqn:Ep.
    + rewrite Hs, Ho. reflexivity.
    + unfold selected in Hs. rewrite Ep in Hs. discriminate.
Qed.

Lemma decide_unselected : forall fuel h role x a,
  selected h role x = false -> decide fuel h role x = Ok a -> a = Skipped.
Proof.
  intros fuel h role x a Hs H. unfold decide in H.
  destruct (plotinfo (h x)).
  - rewrite Hs in H. inversion H. reflexivity.
  - destruct role; inversion H. reflexivity.
Qed.

Lemma for_each_app : forall S X (body : X -> M S unit) xs ys s,
  for_each (xs ++ ys) body s = (for_each xs body ;; for_each ys body) s.
Proof.
  intros S X body xs ys. induction xs as [| x xs IH]; intros s.
  - reflexivity.
  - simpl. unfold bind in *. destruct (body x s) as [s1 [[] | e |]].
    + apply IH.
    + reflexivity.
    + reflexivity.
Qed.

Lemma for_each_map : forall S X Y (f : Y -> X) (body : X -> M S unit) ys s,
  for_each (map f ys) body s = for_each ys (fun y => body (f y)) s.
Proof.
  intros S X Y f body ys. induction ys as [| y ys IH]; intros s.
  - reflexivity.
  - simpl. unfold bind. destruct (body (f y) s) as [s1 [[] | e |]];
      [apply IH | reflexivity | reflexivity].
Qed.

(** [_build_graph] is one pass over the inputs in visiting order. *)
Lemma build_graph_one_pass : forall fuel h ds inds obs s,
  _build_graph fuel h ds inds obs s =
  for_each (plottables ds inds obs) (build_step fuel h)
    (set_volume_graphs (Some []) (set_data_graph (Some []) s)).
Proof.
  intros fuel h ds inds obs s. unfold _build_graph, plottables.
  unfold bind at 1. cbn [modify]. unfold bind at 1. cbn [modify].
  assert (Hd : forall s0, for_each (map (pair FeedRole) ds) (build_step fuel h) s0
                          = for_each ds (build_data fuel h) s0)
    by (intros; apply for_each_map).
  assert (Ho : forall s0,
             for_each (map (pair ObserverRole) obs) (build_step fuel h) s0
             = for_each obs (build_observer fuel h) s0)
    by (intros; apply for_each_map).
  assert (Hi : forall s0,
             for_each (map (pair IndicatorRole) inds) (build_step fuel h) s0
             = for_each inds (build_indicator fuel h) s0)
    by (intros; apply for_each_map).
  rewrite for_each_app. unfold bind. rewrite Hd.
  destruct (for_each ds (build_data fuel h) _) as [s1 [[] | e |]];
    [| reflexivity | reflexivity].
  rewrite for_each_app. unfold bind. rewrite Ho.
  destruct (for_each obs (build_observer fuel h) _) as [s2 [[] | e |]];
    [| reflexivity | reflexivity].
  rewrite Hi. reflexivity.
Qed.

(** A pass that returns has decided an action for each input and carried
    them out in order. *)
Lemma build_pass_ok : forall fuel h items s s' g v,
  _data_graph s = Some g -> _volume_graphs s = Some v ->
  for_each items (build_step fuel h) s = (s', Ok tt) ->
  exists acts,
    Forall2 (decided fuel h) items acts /\
    _data_graph s' =
      Some (fold_left (fun g xa => apply_action (fst xa) (snd xa) g) acts g) /\
    _volume_graphs s' =
      Some (v ++ flat_map (fun it => volume_part h (scheme s) (fst it) (snd it))
                          items) /\
    scheme s' = scheme s.
Proof.
  intros fuel h items. induction items as [| [role x] items IH];
    intros s s' g v Hg Hv H.
  - inversion H; subst. exists []. simpl. rewrite app_nil_r.
    repeat split; auto.
  - simpl in H. apply bind_inv_ok in H. destruct H as (s1 & [] & H1 & H2).
    pose proof (@build_step_spec fuel h role x s g v Hg Hv) as Hstep.
    destruct (decide fuel h role x) as [a | e |] eqn:Ed;
      [| exfalso; eapply Hstep; eassumption
       | exfalso; eapply Hstep; eassumption].
    destruct Hstep as (s1' & E & Eg & Ev & Es).
    rewrite H1 in E. inversion E; subst s1'. clear E.
    destruct (IH s1 s' _ _ Eg Ev H2) as (acts & HF & Hg' & Hv' & Hs').
    exists ((x, a) :: acts). split; [| split; [| split]].
    + constructor; [split; [reflexivity | exact Ed] | exact HF].
    + exact Hg'.
    + rewrite Hv', Es. cbn [flat_map fst snd]. rewrite app_assoc.
      reflexivity.
    + congruence.
Qed.

(** A pass in which every input gets an action decided returns. *)
Lemma build_pass_returns : forall fuel h items s g v,
  _data_graph s = Some g -> _volume_graphs s = Some v ->
  (forall it, In it items -> exists a, decide fuel h (fst it) (snd it) = Ok a) ->
  exists s', for_each items (build_step fuel h) s = (s', Ok tt).
Proof.
  intros fuel h items. induction items as [| [role x] items IH];
    intros s g v Hg Hv Hall.
  - exists s. reflexivity.
  - destruct (Hall (role, x) (or_introl eq_refl)) as [a Ha].
    cbn [fst snd] in Ha.
    pose proof (@build_step_spec fuel h role x s g v Hg Hv) as Hstep.
    rewrite Ha in Hstep. destruct Hstep as (s1 & E & Eg & Ev & _).
    destruct (IH s1 _ _ Eg Ev) as [s' Hs'].
    { intros it Hin. apply Hall. right. assumption. }
    exists s'. simpl. unfold bind. rewrite E. exact Hs'.
Qed.

Lemma resolve_plotmaster_mono : forall h fuel t k,
  _resolve_plotmaster fuel h t = Ok k ->
  forall fuel', fuel <= fuel' -> _resolve_plotmaster fuel' h t = Ok k.
Proof.
  intros h fuel [x |] k H fuel' Hle; [| exact H].
  unfold _resolve_plotmaster in *.
  destruct (resolve_loop fuel h x) as [r | e |] eqn:E; try discriminate.
  rewrite (resolve_loop_mono _ _ E Hle). exact H.
Qed.

Lemma resolve_ref_mono : forall h fuel role x k,
  resolve_ref fuel h role x = Ok k ->
  forall fuel', fuel <= fuel' -> resolve_ref fuel' h role x = Ok k.
Proof.
  intros h fuel role x k H fuel' Hle. unfold resolve_ref in *.
  destruct (master_ref h role x) as [t | e |]; try discriminate.
  eapply resolve_plotmaster_mono; eassumption.
Qed.

Lemma decide_mono : forall h fuel role x a,
  decide fuel h role x = Ok a ->
  forall fuel', fuel <= fuel' -> decide fuel' h role x = Ok a.
Proof.
  intros h fuel role x a H fuel' Hle. unfold decide in *.
  destruct (plotinfo (h x)); [| exact H].
  destruct (negb (selected h role x)); [exact H |].
  destruct (own_group h role x); [exact H |].
  destruct (resolve_ref fuel h role x) as [k | e |] eqn:E;
    try discriminate.
  rewrite (resolve_ref_mono _ _ _ E Hle). exact H.
Qed.



(** ** Inputs and their actions *)


Lemma decided_In_items : forall fuel h items acts,
  Forall2 (decided fuel h) items acts ->
  forall role x, In (role, x) items ->
    exists a, In (x, a) acts /\ decide fuel h role x = Ok a.
Proof.
  intros fuel h items acts HF.
  induction HF as [| [role0 x0] [x' a'] items acts [E1 E2] HF IH];
    intros role x Hin.
  - contradiction.
  - cbn [fst snd] in E1, E2. subst x'. destruct Hin as [E | Hin].
    + inversion E; subst. exists a'. split; [left; reflexivity | exact E2].
    + destruct (IH role x Hin) as [a [H1 H2]]. exists a. split; [right |]; auto.
Qed.





Lemma graph_of_fold : forall acts,
  fold_left (fun g xa => apply_action (fst xa) (snd xa) g) acts [] =
  graph_of acts.
Proof. reflexivity. Qed.

(** A call of [_build_graph] that returns leaves the graph its decided
    actions build. *)
Lemma build_graph_acts : forall fuel h ds inds obs self self',
  _build_graph fuel h ds inds obs self = (self', Ok tt) ->
  exists acts,
    Forall2 (decided fuel h) (plottables ds inds obs) acts /\
    _data_graph self' = Some (graph_of acts) /\
    _volume_graphs self' =
      Some (flat_map (fun it => volume_part h (scheme self) (fst it) (snd it))
                     (plottables ds inds obs)).
Proof.
  intros fuel h ds inds obs self self' H. rewrite build_graph_one_pass in H.
  eapply build_pass_ok in H; [| reflexivity | reflexivity].
  destruct H as (acts & HF & Hg & Hv & _).
  exists acts. auto.
Qed.

(** ** The groups of the plot graph *)





(** The proviso of the last part of [build_graph_groups] is needed: with
    feed 0 plotted on 1, 1 on 2, and the master 2 visited last, the group of
    2 is opened anew by [self._data_graph[d] = []] and the slaves 0 and 1
    attached before are gone. *)
Lemma build_graph_master_after_slaves :
  exists self',
    _build_graph 3 heap_chain [0; 1; 2] [] [] (Bokeh_init plain_scheme)
    = (self', Ok tt) /\
    _data_graph self' = Some [(Some 2, [])] /\
    exists mid,
      _build_graph 3 heap_chain [0; 1] [] [] (Bokeh_init plain_scheme)
      = (mid, Ok tt) /\
      _data_graph mid = Some [(Some 2, [0; 1])].
Proof.
  eexists. split; [vm_compute; reflexivity |]. split; [reflexivity |].
  eexists. split; [vm_compute; reflexivity | reflexivity].
Qed.

(** ** The volume-panel list *)

Lemma volume_parts : forall h sch ds inds obs,
  flat_map (fun it => volume_part h sch (fst it) (snd it))
           (plottables ds inds obs) =
  if py_truth (volume sch) && is_False (voloverlay sch)
  then filter (selected h FeedRole) ds
  else [].
Proof.
  intros h sch ds inds obs. unfold plottables. rewrite !flat_map_app.
  assert (Ho : forall l, flat_map
                 (fun it => volume_part h sch (fst it) (snd it))
                 (map (pair ObserverRole) l) = []).
  { induction l as [| x l IH]; [reflexivity | exact IH]. }
  assert (Hi : forall l, flat_map
                 (fun it => volume_part h sch (fst it) (snd it))
                 (map (pair IndicatorRole) l) = []).
  { induction l as [| x l IH]; [reflexivity | exact IH]. }
  rewrite Ho, Hi, !app_nil_r.
  induction ds as [| d ds IH].
  - destruct (_ && _); reflexivity.
  - cbn [map flat_map filter fst snd volume_part]. rewrite IH.
    destruct (selected h FeedRole d); cbn [andb];
      destruct (py_truth (volume sch) && is_False (voloverlay sch));
      reflexivity.
Qed.

Lemma opened_group_is_key : forall fuel h items acts role x,
  Forall2 (decided fuel h) items acts ->
  In (role, x) items -> opens_group h role x ->
  In (Some x) (map fst (graph_of acts)).
Proof.
  intros fuel h items acts role x HF Hin Hop.
  destruct (decided_In_items HF _ _ Hin) as (a & Ha & Hdec).
  apply (decide_own fuel) in Hop. rewrite Hop in Hdec.
  inversion Hdec; subst a.
  apply graph_of_keys. left. exists x. auto.
Qed.

(** C2, as the code has it.  When [_build_graph] returns, the volume-panel
    list is the list of the enabled data feeds, in input order, if the
    scheme shows volume ([volume] true) on panels of its own ([voloverlay]
    is [False]), and is empty otherwise.  The two outputs are not disjoint:
    a feed of the volume-panel list that has no plot master is also a master
    key of the plot graph. *)
Theorem volume_list_is_enabled_feeds :
  forall fuel h ds inds obs self self',
    _build_graph fuel h ds inds obs self = (self', Ok tt) ->
    exists g vols,
      _data_graph self' = Some g /\
      _volume_graphs self' = Some vols /\
      vols = (if py_truth (volume (scheme self))
                 && is_False (voloverlay (scheme self))
              then filter (selected h FeedRole) ds
              else []) /\
      forall d, In d vols -> own_group h FeedRole d = true ->
                In (Some d) (map fst g).
Proof.
  intros fuel h ds inds obs self self' H.
  apply build_graph_acts in H. destruct H as (acts & HF & Hg & Hv).
  rewrite volume_parts in Hv.
  eexists. eexists. split; [exact Hg |]. split; [exact Hv |].
  split; [reflexivity |].
  intros d Hd Hown.
  assert (Hf : In d (filter (selected h FeedRole) ds)).
  { destruct (_ && _); [exact Hd | contradiction]. }
  apply filter_In in Hf. destruct Hf as [Hin Hsel].
  eapply opened_group_is_key; [exact HF | | split; eassumption].
  unfold plottables. apply in_or_app. left.
  apply in_map. exact Hin.
Qed.

Lemma volume_list_is_enabled_feeds_witness :
  exists g vols,
    _data_graph
      (fst (_build_graph 3 heap_mixed [0; 1; 2; 3] [4; 5; 8] [6; 7]
              (Bokeh_init volume_scheme))) = Some g /\
    _volume_graphs
      (fst (_build_graph 3 heap_mixed [0; 1; 2; 3] [4; 5; 8] [6; 7]
              (Bokeh_init volume_scheme))) = Some vols /\
    vols = [0; 1; 3] /\
    forall d, In d vols -> own_group heap_mixed FeedRole d = true ->
              In (Some d) (map fst g).
Proof.
  eassert (E : _build_graph 3 heap_mixed [0; 1; 2; 3] [4; 5; 8] [6; 7]
                 (Bokeh_init volume_scheme) = (_, Ok tt))
    by (vm_compute; reflexivity).
  destruct (volume_list_is_enabled_feeds _ _ _ _ _ _ E)
    as (g & vols & Hg & Hv & Hvol & Hkey).
  exists g, vols. rewrite E. cbn [fst].
  split; [exact Hg |]. split; [exact Hv |]. split; [| exact Hkey].
  rewrite Hvol. vm_compute. reflexivity.
Defined.

(** C2, as stated, fails: with volume on panels of its own, the one data
    feed of the strategy is in the plot graph and in the volume-panel
    list. *)
Lemma feed_in_graph_and_volume_list :
  exists self',
    _build_graph 1 heap_plain [0] [] [] (Bokeh_init volume_scheme)
    = (self', Ok tt) /\
    _data_graph self' = Some [(Some 0, [])] /\
    _volume_graphs self' = Some [0].
Proof.
  eexists. split; [vm_compute; reflexivity |]. split; reflexivity.
Qed.

(** * Further properties *)

(** ** The resolver, beyond finite chains *)

Lemma resolve_loop_sound : forall h fuel x r,
  resolve_loop fuel h x = Ok r -> chain h x r.
Proof.
  intros h fuel. induction fuel as [| n IH]; intros x r H; [discriminate |].
  simpl in H. destruct (plotinfo (h x)) as [pi |] eqn:Ep; [| discriminate].
  destruct (pi_plotmaster pi) as [pm |] eqn:Em.
  - eapply chain_link; eauto.
  - inversion H; subst. eapply chain_root; eauto.
Qed.

Lemma resolve_loop_raise : forall h fuel x e,
  resolve_loop fuel h x = Raise e ->
  e = AttributeError /\ exists y, on_chain h x y /\ plotinfo (h y) = None.
Proof.
  intros h fuel. induction fuel as [| n IH]; intros x e H; [discriminate |].
  simpl in H. destruct (plotinfo (h x)) as [pi |] eqn:Ep.
  - destruct (pi_plotmaster pi) as [pm |] eqn:Em; [| discriminate].
    destruct (IH pm e H) as (He & y & Hy & Hn).
    split; [exact He |]. exists y. split; [| exact Hn].
    eapply on_chain_up; eauto.
  - inversion H; subst. split; [reflexivity |].
    exists x. split; [constructor | exact Ep].
Qed.

(** X1. What [_resolve_plotmaster] returns for an object is the end of that
    object's plot-master chain, never [None] and never an object in the
    middle; and what it raises is an [AttributeError], for an object of the
    chain that has no [plotinfo]. *)
Theorem resolve_plotmaster_sound : forall h fuel x,
  (forall k, _resolve_plotmaster fuel h (Some x) = Ok k ->
     exists r, k = Some r /\ chain h x r) /\
  (forall e, _resolve_plotmaster fuel h (Some x) = Raise e ->
     e = AttributeError /\
     exists y, on_chain h x y /\ plotinfo (h y) = None).
Proof.
  intros h fuel x. unfold _resolve_plotmaster.
  destruct (resolve_loop fuel h x) as [r | e0 |] eqn:E; split;
    intros ? H; try discriminate.
  - inversion H; subst. exists r. split; [reflexivity |].
    eapply resolve_loop_sound; eassumption.
  - inversion H; subst. eapply resolve_loop_raise; eassumption.
Qed.

Lemma resolve_plotmaster_sound_witness :
  exists r, Some 2 = Some r /\ chain heap_chain 0 r.
Proof.
  exact (proj1 (resolve_plotmaster_sound heap_chain 3 0) (Some 2) eq_refl).
Defined.

(** X2. When every object met from [x] on has a plot master, as on a cycle,
    the loop of [_resolve_plotmaster] is still running after any number of
    iterations: the call never returns and never raises. *)
Theorem resolve_plotmaster_cycle_never_returns : forall h x,
  (forall y, on_chain h x y ->
     exists pi pm, plotinfo (h y) = Some pi /\ pi_plotmaster pi = Some pm) ->
  forall fuel, _resolve_plotmaster fuel h (Some x) = Diverge.
Proof.
  intros h x Hall fuel. unfold _resolve_plotmaster.
  assert (H : resolve_loop fuel h x = Diverge).
  { revert x Hall. induction fuel as [| n IH]; intros x Hall; [reflexivity |].
    simpl. destruct (Hall x (on_chain_here h x)) as (pi & pm & Ep & Em).
    rewrite Ep, Em. apply IH. intros y Hy. apply Hall.
    eapply on_chain_up; eauto. }
  rewrite H. reflexivity.
Qed.

Lemma heap_loop_all_mastered : forall y,
  on_chain heap_loop 0 y ->
  exists pi pm, plotinfo (heap_loop y) = Some pi /\ pi_plotmaster pi = Some pm.
Proof.
  intros y _. destruct y as [| y]; do 2 eexists; split; reflexivity.
Qed.

Lemma resolve_plotmaster_cycle_never_returns_witness :
  _resolve_plotmaster 7 heap_loop (Some 0) = Diverge.
Proof.
  exact (resolve_plotmaster_cycle_never_returns heap_loop_all_mastered 7).
Defined.

(** X3. Resolving is idempotent: the object a call of
    [_resolve_plotmaster] returns resolves to itself. *)
Theorem resolve_plotmaster_idempotent : forall h fuel x r,
  _resolve_plotmaster fuel h (Some x) = Ok (Some r) ->
  forall fuel', 1 <= fuel' ->
    _resolve_plotmaster fuel' h (Some r) = Ok (Some r).
Proof.
  intros h fuel x r H fuel' Hf.
  assert (Hc : chain h x r).
  { unfold _resolve_plotmaster in H.
    destruct (resolve_loop fuel h x) as [r' | e |] eqn:E; try discriminate.
    inversion H; subst r'. eapply resolve_loop_sound; eassumption. }
  destruct (chain_end_is_root Hc) as (pi & Ep & Em).
  destruct fuel' as [| n]; [lia |].
  unfold _resolve_plotmaster. simpl. rewrite Ep, Em. reflexivity.
Qed.

Lemma resolve_plotmaster_idempotent_witness :
  _resolve_plotmaster 1 heap_chain (Some 2) = Ok (Some 2).
Proof.
  apply (@resolve_plotmaster_idempotent heap_chain 3 0 2 eq_refl 1). lia.
Defined.

(** ** Range resolution, the other cases *)

Lemma bisect_left_loop_range : forall a x lohi,
  fst lohi <= snd lohi ->
  fst lohi <= bisect_left_loop a x lohi <= snd lohi.
Proof.
  intros a x lohi.
  functional induction (bisect_left_loop a x lohi); cbn [fst snd]; intros Hle.
  - apply Nat.ltb_lt in e0. destruct (mid_bounds e0) as [M1 M2].
    cbn [fst snd] in IHn. lia.
  - apply Nat.ltb_lt in e0. destruct (mid_bounds e0) as [M1 M2].
    cbn [fst snd] in IHn. lia.
  - lia.
Qed.

Lemma bisect_right_loop_range : forall a x lohi,
  fst lohi <= snd lohi ->
  fst lohi <= bisect_right_loop a x lohi <= snd lohi.
Proof.
  intros a x lohi.
  functional induction (bisect_right_loop a x lohi); cbn [fst snd]; intros Hle.
  - apply Nat.ltb_lt in e0. destruct (mid_bounds e0) as [M1 M2].
    cbn [fst snd] in IHn. lia.
  - apply Nat.ltb_lt in e0. destruct (mid_bounds e0) as [M1 M2].
    cbn [fst snd] in IHn. lia.
  - lia.
Qed.

(** X4. Date bounds always resolve to indices of the series, sorted or not:
    both lie between 0 and its length.  On a series in time order with
    [start <= end] the range is well formed ([start_idx <= end_idx]), and
    it is empty exactly when no bar lies between the two dates. *)
Theorem get_start_end_dates_within_series : forall a s e,
  let start_idx := fst (_get_start_end a (BDate s) (BDate e)) in
  let end_idx := snd (_get_start_end a (BDate s) (BDate e)) in
  (0 <= start_idx <= Z.of_nat (length a))%Z /\
  (0 <= end_idx <= Z.of_nat (length a))%Z /\
  (sorted_series a -> (s <= e)%Q ->
   (start_idx <= end_idx)%Z /\
   (start_idx = end_idx <->
    forall i, i < length a -> ~ (s <= nth i a 0 /\ nth i a 0 <= e)%Q)).
Proof.
  intros a s e. unfold _get_start_end.
  assert (Hnn : (Z.of_nat (bisect_right a e) <? 0)%Z = false)
    by (apply Z.ltb_ge; lia).
  rewrite Hnn. cbn [fst snd].
  pose proof (@bisect_left_loop_range a s (0, length a)) as HL.
  pose proof (@bisect_right_loop_range a e (0, length a)) as HR.
  cbn [fst snd] in HL, HR. specialize (HL (Nat.le_0_l _)).
  specialize (HR (Nat.le_0_l _)). fold (bisect_left a s) in HL.
  fold (bisect_right a e) in HR.
  split; [lia | split; [lia |]].
  intros Hs Hse.
  assert (Hle : bisect_left a s <= bisect_right a e).
  { destruct (Nat.le_gt_cases (bisect_left a s) (bisect_right a e))
      as [H | H]; [exact H | exfalso].
    assert (Hi : bisect_right a e < length a) by lia.
    pose proof (proj1 (bisect_left_spec s Hs Hi) H) as H1.
    assert (H2 : ~ (nth (bisect_right a e) a 0 <= e)%Q).
    { intros Hc. apply (bisect_right_spec e Hs Hi) in Hc. lia. }
    apply H2. apply Qlt_le_weak. eapply Qlt_le_trans; eassumption. }
  split; [lia |]. split.
  - intros Heq i Hi [H1 H2].
    apply (bisect_right_spec e Hs Hi) in H2.
    assert (H3 : ~ i < bisect_left a s).
    { intros Hc. apply (bisect_left_spec s Hs Hi) in Hc.
      apply (Qlt_not_le _ _ Hc H1). }
    lia.
  - intros Hnone.
    destruct (Nat.eq_dec (bisect_left a s) (bisect_right a e)) as [E | E];
      [lia | exfalso].
    assert (Hlt : bisect_left a s < bisect_right a e) by lia.
    assert (Hi : bisect_left a s < length a) by lia.
    apply (Hnone (bisect_left a s) Hi). split.
    + apply Qnot_lt_le. intros Hc.
      apply (bisect_left_spec s Hs Hi) in Hc. lia.
    + apply (bisect_right_spec e Hs Hi). exact Hlt.
Qed.

Lemma get_start_end_dates_within_series_witness :
  (fst (_get_start_end series_123 (BDate (1#1)) (BDate (2#1)))
   <= snd (_get_start_end series_123 (BDate (1#1)) (BDate (2#1))))%Z.
Proof.
  refine (proj1 (proj2 (proj2
    (get_start_end_dates_within_series series_123 (1#1)%Q (2#1)%Q))
    series_123_sorted _)).
  unfold Qle. simpl. lia.
Defined.

(** X5. Integer and absent bounds: an absent start is 0 and an absent end is
    the length of the series; an integer start is returned as given, also
    when negative; a non-negative integer end is returned as given, and a
    negative end [-k] becomes [len + 1 - k], so that [-1] selects the bars
    up to the last one, like an absent end. *)
Theorem get_start_end_integer_bounds : forall a,
  let len := Z.of_nat (length a) in
  _get_start_end a BNone BNone = (0%Z, len) /\
  (forall s e, (0 <= e)%Z ->
     _get_start_end a (BInt s) (BInt e) = (s, e)) /\
  (forall s k, (0 < k)%Z ->
     _get_start_end a (BInt s) (BInt (- k)) = (s, (len + 1 - k)%Z)) /\
  (forall start,
     _get_start_end a start (BInt (-1)) = _get_start_end a start BNone).
Proof.
  intros a len. unfold _get_start_end. fold len.
  assert (Hlen : (len <? 0)%Z = false) by (apply Z.ltb_ge; unfold len; lia).
  split; [rewrite Hlen; reflexivity |]. split; [| split].
  - intros s e He. assert (E : (e <? 0)%Z = false) by (apply Z.ltb_ge; lia).
    rewrite E. reflexivity.
  - intros s k Hk. assert (E : (- k <? 0)%Z = true) by (apply Z.ltb_lt; lia).
    rewrite E. f_equal; lia.
  - intros start. rewrite Hlen. cbn [Z.ltb Z.compare]. f_equal; lia.
Qed.

Lemma get_start_end_integer_bounds_witness :
  _get_start_end series_123 (BInt 1) (BInt (- 2)) = (1%Z, 2%Z).
Proof.
  apply (proj1 (proj2 (proj2 (get_start_end_integer_bounds series_123)))
           1%Z 2%Z).
  lia.
Defined.

(** ** The analyzer tab: nothing lost, columns balanced *)

Lemma fold_add_acc : forall l acc,
  fold_left Z.add l acc = (acc + fold_left Z.add l 0)%Z.
Proof.
  induction l as [| x l IH]; intros acc; simpl.
  - lia.
  - rewrite IH, (IH x). lia.
Qed.

Lemma column_row_count_app : forall a b,
  _get_column_row_count (a ++ b) =
  (_get_column_row_count a + _get_column_row_count b)%Z.
Proof.
  intros a b. unfold _get_column_row_count.
  rewrite flat_map_app, fold_left_app, fold_add_acc. reflexivity.
Qed.

Lemma place_heights : forall cols item,
  (_get_column_row_count (fst cols) <= _get_column_row_count (snd cols) /\
   place cols item = (fst cols ++ block_of item, snd cols))%Z \/
  (_get_column_row_count (snd cols) < _get_column_row_count (fst cols) /\
   place cols item = (fst cols, snd cols ++ block_of item))%Z.
Proof.
  intros cols item.
  destruct (place_cases cols item) as [[E H] | [E H]]; [left | right]; auto.
Qed.

(** The blocks are handed out whole: each column is the blocks of some of
    the items, one after the other. *)
Lemma place_all_blocks : forall items left right,
  exists left' right',
    fold_left place items (flat_map block_of left, flat_map block_of right)
    = (flat_map block_of (left ++ left'), flat_map block_of (right ++ right'))
    /\ Permutation (left' ++ right') items.
Proof.
  induction items as [| it items IH]; intros left right.
  - exists [], []. rewrite !app_nil_r. split; [reflexivity | constructor].
  - cbn [fold_left].
    destruct (place_heights
                (flat_map block_of left, flat_map block_of right) it)
      as [[_ E] | [_ E]]; rewrite E; cbn [fst snd].
    + replace (flat_map block_of left ++ block_of it)
        with (flat_map block_of (left ++ [it]))
        by (rewrite flat_map_app; cbn; rewrite app_nil_r; reflexivity).
      destruct (IH (left ++ [it]) right) as (l' & r' & Hf & Hp).
      exists (it :: l'), r'. split.
      * rewrite Hf, <- app_assoc. reflexivity.
      * cbn. constructor. exact Hp.
    + replace (flat_map block_of right ++ block_of it)
        with (flat_map block_of (right ++ [it]))
        by (rewrite flat_map_app; cbn; rewrite app_nil_r; reflexivity).
      destruct (IH left (right ++ [it])) as (l' & r' & Hf & Hp).
      exists l', (it :: r'). split.
      * rewrite Hf, <- app_assoc. reflexivity.
      * apply Permutation_sym. apply Permutation_cons_app.
        apply Permutation_sym. exact Hp.
Qed.

Lemma heights_flat_map : forall items,
  _get_column_row_count (flat_map block_of items) =
  fold_right (fun it acc => (block_height it + acc)%Z) 0%Z items.
Proof.
  induction items as [| it items IH]; [reflexivity |].
  cbn [flat_map fold_right]. rewrite column_row_count_app, IH. reflexivity.
Qed.

Lemma heights_permutation : forall l l' : list (string * Analyzer),
  Permutation l l' ->
  fold_right (fun it acc => (block_height it + acc)%Z) 0%Z l =
  fold_right (fun it acc => (block_height it + acc)%Z) 0%Z l'.
Proof.
  intros l l' H. induction H; cbn [fold_right]; lia.
Qed.

(** X6. The analyzer tab loses nothing and splits no block: the left column
    is the blocks of some analyzers, one after the other, the right column
    those of the others, every analyzer of the session being in exactly one
    of the two; the cumulative heights of the two columns add up to the
    total height of all blocks. *)
Theorem analyzer_tab_keeps_every_block : forall colls,
  exists left right,
    fill_columns colls =
      (flat_map block_of left, flat_map block_of right) /\
    Permutation (left ++ right) (all_items colls) /\
    (_get_column_row_count (fst (fill_columns colls))
     + _get_column_row_count (snd (fill_columns colls)))%Z =
    fold_right (fun it acc => (block_height it + acc)%Z) 0%Z
               (all_items colls).
Proof.
  intros colls. unfold fill_columns. rewrite fill_columns_items.
  destruct (place_all_blocks (all_items colls) [] []) as (l & r & Hf & Hp).
  cbn [flat_map app] in Hf. exists l, r. rewrite Hf. cbn [fst snd].
  split; [reflexivity | split; [exact Hp |]].
  rewrite <- (heights_permutation Hp), <- heights_flat_map, flat_map_app.
  rewrite column_row_count_app. reflexivity.
Qed.

Lemma max_block_height_bounds : forall items,
  (0 <= max_block_height items)%Z /\
  forall it, In it items -> (block_height it <= max_block_height items)%Z.
Proof.
  induction items as [| x items [IH0 IH]]; cbn [max_block_height fold_right].
  - split; [lia | intros it []].
  - fold (max_block_height items). split; [lia |].
    intros it [<- | Hin]; [lia |]. specialize (IH it Hin). lia.
Qed.

Lemma place_keeps_balance : forall items cols B,
  (forall it, In it items -> (0 <= block_height it <= B)%Z) ->
  (Z.abs (_get_column_row_count (fst cols)
          - _get_column_row_count (snd cols)) <= B)%Z ->
  (Z.abs (_get_column_row_count (fst (fold_left place items cols))
          - _get_column_row_count (snd (fold_left place items cols)))
   <= B)%Z.
Proof.
  induction items as [| it items IH]; intros cols B Hall Hb.
  - exact Hb.
  - cbn [fold_left]. apply IH.
    + intros x Hx. apply Hall. right. exact Hx.
    + specialize (Hall it (or_introl eq_refl)). unfold block_height in Hall.
      destruct (place_heights cols it) as [[Hle E] | [Hlt E]]; rewrite E;
        cbn [fst snd]; rewrite column_row_count_app; lia.
Qed.

(** X7. When no block has a negative height, the greedy placement keeps the
    two columns balanced: their cumulative heights differ by at most the
    height of the highest block. *)
Theorem analyzer_tab_columns_balanced : forall colls,
  (forall it, In it (all_items colls) -> (0 <= block_height it)%Z) ->
  (Z.abs (_get_column_row_count (fst (fill_columns colls))
          - _get_column_row_count (snd (fill_columns colls)))
   <= max_block_height (all_items colls))%Z.
Proof.
  intros colls Hpos. unfold fill_columns. rewrite fill_columns_items.
  destruct (max_block_height_bounds (all_items colls)) as [H0 Hmax].
  apply place_keeps_balance.
  - intros it Hin. split; [apply Hpos | apply Hmax]; exact Hin.
  - cbn. exact H0.
Qed.

Lemma analyzer_tab_columns_balanced_witness :
  (Z.abs (_get_column_row_count (fst (fill_columns three_tables))
          - _get_column_row_count (snd (fill_columns three_tables)))
   <= max_block_height (all_items three_tables))%Z.
Proof.
  apply analyzer_tab_columns_balanced.
  intros it Hin. cbn in Hin.
  destruct Hin as [<- | [<- | [<- | []]]]; vm_compute; discriminate.
Defined.

(** ** The graph builder: errors and independence of earlier calls *)

(** The outcome of an iteration is the one of deciding its action, and the
    graph and the volume list stay a dictionary and a list. *)
Lemma build_step_outcome : forall fuel h role x s g v s' o,
  _data_graph s = Some g -> _volume_graphs s = Some v ->
  build_step fuel h (role, x) s = (s', o) ->
  o = match decide fuel h role x with
      | Ok _ => Ok tt
      | Raise e => Raise e
      | Diverge => Diverge
      end /\
  (exists g' v', _data_graph s' = Some g' /\ _volume_graphs s' = Some v').
Proof.
  intros fuel h role x s g v s' o Hg Hv H.
  pose proof (@build_step_spec fuel h role x s g v Hg Hv) as Hspec.
  destruct (decide fuel h role x) as [a | e |] eqn:Ed.
  - destruct Hspec as (s1 & E & Eg & Ev & _). rewrite H in E.
    inversion E; subst. split; [reflexivity | eauto].
  - clear Hspec. revert H Ed.
    unfold decide, build_step, selected, own_group, resolve_ref, master_ref.
    cbn [fst snd]. destruct role.
    + unfold build_data, get_plotinfo.
      destruct (plotinfo (h x)) as [pi |];
        [| intros H Ed; inversion H; inversion Ed; subst; eauto].
      unfold bind, ret, lift, gets. cbv beta iota.
      destruct (pi_plot pi); cbn [negb]; [| discriminate 2].
      destruct (pi_plotmaster pi) as [m |]; [| discriminate 2].
      destruct (_resolve_plotmaster fuel h (Some m)) as [k | e0 |];
        [discriminate 2 | | discriminate 2].
      intros H Ed. inversion H; inversion Ed; subst. eauto.
    + unfold build_observer, get_plotinfo.
      destruct (plotinfo (h x)) as [pi |];
        [| intros H Ed; inversion H; inversion Ed; subst; eauto].
      unfold bind, ret, lift. cbv beta iota.
      destruct (pi_plot pi); cbn [negb andb orb]; [| discriminate 2].
      destruct (pi_plotskip pi); cbn [negb]; [discriminate 2 |].
      destruct (pi_subplot pi); [discriminate 2 |].
      destruct (plotmaster_or_data h pi x) as [t | e1 |]; cbv beta iota;
        [| intros H Ed; inversion H; inversion Ed; subst; eauto
         | discriminate 2].
      destruct (_resolve_plotmaster fuel h t)
        as [k | e0 |]; [discriminate 2 | | discriminate 2].
      intros H Ed. inversion H; inversion Ed; subst. eauto.
    + unfold build_indicator.
      destruct (plotinfo (h x)) as [pi |]; [| discriminate 2].
      unfold bind, ret, lift. cbv beta iota.
      destruct (pi_plot pi); cbn [negb andb orb]; [| discriminate 2].
      destruct (pi_plotskip pi); cbn [negb]; [discriminate 2 |].
      destruct (pi_subplot pi); [discriminate 2 |].
      destruct (_resolve_plotmaster fuel h (plotmaster_else_data h pi x))
        as [k | e0 |]; [discriminate 2 | | discriminate 2].
      intros H Ed. inversion H; inversion Ed; subst. eauto.
  - clear Hspec. revert H Ed.
    unfold decide, build_step, selected, own_group, resolve_ref, master_ref.
    cbn [fst snd]. destruct role.
    + unfold build_data, get_plotinfo.
      destruct (plotinfo (h x)) as [pi |]; [| discriminate 2].
      unfold bind, ret, lift, gets. cbv beta iota.
      destruct (pi_plot pi); cbn [negb]; [| discriminate 2].
      destruct (pi_plotmaster pi) as [m |]; [| discriminate 2].
      destruct (_resolve_plotmaster fuel h (Some m)) as [k | e0 |];
        [discriminate 2 | discriminate 2 |].
      intros H Ed. inversion H; subst. eauto.
    + unfold build_observer, get_plotinfo.
      destruct (plotinfo (h x)) as [pi |]; [| discriminate 2].
      unfold bind, ret, lift. cbv beta iota.
      destruct (pi_plot pi); cbn [negb andb orb]; [| discriminate 2].
      destruct (pi_plotskip pi); cbn [negb]; [discriminate 2 |].
      destruct (pi_subplot pi); [discriminate 2 |].
      destruct (plotmaster_or_data h pi x) as [t | e1 |]; cbv beta iota;
        [| discriminate 2 | intros H Ed; inversion H; subst; eauto].
      destruct (_resolve_plotmaster fuel h t)
        as [k | e0 |]; [discriminate 2 | discriminate 2 |].
      intros H Ed. inversion H; subst. eauto.
    + unfold build_indicator.
      destruct (plotinfo (h x)) as [pi |]; [| discriminate 2].
      unfold bind, ret, lift. cbv beta iota.
      destruct (pi_plot pi); cbn [negb andb orb]; [| discriminate 2].
      destruct (pi_plotskip pi); cbn [negb]; [discriminate 2 |].
      destruct (pi_subplot pi); [discriminate 2 |].
      destruct (_resolve_plotmaster fuel h (plotmaster_else_data h pi x))
        as [k | e0 |]; [discriminate 2 | discriminate 2 |].
      intros H Ed. inversion H; subst. eauto.
Qed.

Lemma resolve_plotmaster_raise : forall fuel h t e,
  _resolve_plotmaster fuel h t = Raise e -> e = AttributeError.
Proof.
  intros fuel h [x |] e H; [| discriminate].
  unfold _resolve_plotmaster in H.
  destruct (resolve_loop fuel h x) as [r | e0 |] eqn:E; try discriminate.
  inversion H; subst. eapply resolve_loop_raise; eassumption.
Qed.

(** What deciding the action of an input raises: [AttributeError], for a
    missing [plotinfo], or what the truth test of an observer's plot master
    raises. *)
Lemma decide_raise : forall fuel h role x e,
  decide fuel h role x = Raise e ->
  e = AttributeError \/
  (role = ObserverRole /\ master_test_raises h [x] e).
Proof.
  intros fuel h role x e H. unfold decide in H.
  destruct (plotinfo (h x)) as [pi |] eqn:Ep.
  - destruct (selected h role x) eqn:Es; cbn [negb] in H; [| discriminate].
    destruct (own_group h role x) eqn:Eo; [discriminate |].
    unfold resolve_ref, master_ref in H. rewrite Ep in H.
    destruct role.
    + destruct (_resolve_plotmaster fuel h (pi_plotmaster pi)) eqn:E;
        try discriminate.
      inversion H; subst. left. eapply resolve_plotmaster_raise; eassumption.
    + unfold plotmaster_or_data in H.
      destruct (pi_plotmaster pi) as [pm |] eqn:Em.
      * destruct (truthy (h pm)) as [[|] | e0 |] eqn:Et.
        -- destruct (_resolve_plotmaster fuel h (Some pm)) eqn:E;
             try discriminate.
           inversion H; subst. left.
           eapply resolve_plotmaster_raise; eassumption.
        -- destruct (_resolve_plotmaster fuel h (data (h x))) eqn:E;
             try discriminate.
           inversion H; subst. left.
           eapply resolve_plotmaster_raise; eassumption.
        -- inversion H; subst. right. split; [reflexivity |].
           exists x, pi, pm. unfold own_group in Eo. rewrite Ep in Eo.
           repeat split; try assumption. left. reflexivity.
        -- discriminate.
      * destruct (_resolve_plotmaster fuel h (data (h x))) eqn:E;
          try discriminate.
        inversion H; subst. left.
        eapply resolve_plotmaster_raise; eassumption.
    + destruct (_resolve_plotmaster fuel h (plotmaster_else_data h pi x))
        eqn:E; try discriminate.
      inversion H; subst. left. eapply resolve_plotmaster_raise; eassumption.
  - destruct role; inversion H; left; reflexivity.
Qed.

Lemma build_pass_outcome : forall fuel h items s g v s' o,
  _data_graph s = Some g -> _volume_graphs s = Some v ->
  for_each items (build_step fuel h) s = (s', o) ->
  (forall e, o = Raise e ->
     e = AttributeError \/
     exists x, In (ObserverRole, x) items /\ master_test_raises h [x] e) /\
  (exists g' v', _data_graph s' = Some g' /\ _volume_graphs s' = Some v').
Proof.
  intros fuel h items. induction items as [| [role x] items IH];
    intros s g v s' o Hg Hv H.
  - inversion H; subst. split; [discriminate | eauto].
  - simpl in H. unfold bind in H.
    destruct (build_step fuel h (role, x) s) as [s1 o1] eqn:E1.
    destruct (build_step_outcome _ _ _ _ _ Hg Hv E1) as (Ho & g1 & v1 & Hg1 & Hv1).
    destruct o1 as [[] | e1 |].
    + destruct (IH _ _ _ _ _ Hg1 Hv1 H) as [He Hs]. split; [| exact Hs].
      intros e Hoe. destruct (He e Hoe) as [-> | (y & Hy & Ht)];
        [left; reflexivity |].
      right. exists y. split; [right; exact Hy | exact Ht].
    + inversion H; subst. split; [| eauto].
      intros e He. inversion He; subst.
      destruct (decide fuel h role x) eqn:Ed; inversion Ho; subst.
      destruct (decide_raise _ _ _ _ Ed) as [-> | [-> Ht]];
        [left; reflexivity |].
      right. exists x. split; [left; reflexivity | exact Ht].
    + inversion H; subst. split; [discriminate | eauto].
Qed.

Lemma decided_unique : forall fuel h items acts acts',
  Forall2 (decided fuel h) items acts ->
  Forall2 (decided fuel h) items acts' -> acts = acts'.
Proof.
  intros fuel h items acts acts' H. revert acts'.
  induction H as [| it [x a] items acts [E1 E2] HF IH]; intros acts' H'.
  - inversion H'. reflexivity.
  - inversion H' as [| it' [x' a'] items' acts0 [E1' E2'] HF']; subst.
    cbn [fst snd] in *. f_equal.
    + f_equal; congruence.
    + apply IH. assumption.
Qed.

(** X8. [_build_graph] starts from an empty graph and an empty volume list
    every time: when a call returns, the same call on an instance left in
    any other state by earlier calls returns too, with the same plot graph,
    and with the same volume list when the scheme is the same. *)
Theorem build_graph_from_scratch :
  forall fuel h ds inds obs self1 self1' self2,
    _build_graph fuel h ds inds obs self1 = (self1', Ok tt) ->
    exists self2',
      _build_graph fuel h ds inds obs self2 = (self2', Ok tt) /\
      _data_graph self2' = _data_graph self1' /\
      (scheme self2 = scheme self1 ->
       _volume_graphs self2' = _volume_graphs self1').
Proof.
  intros fuel h ds inds obs self1 self1' self2 H1.
  apply build_graph_acts in H1. destruct H1 as (acts & HF & Hg & Hv).
  assert (Hret : exists self2',
             _build_graph fuel h ds inds obs self2 = (self2', Ok tt)).
  { rewrite build_graph_one_pass.
    eapply build_pass_returns; [reflexivity | reflexivity |].
    intros [role x] Hin.
    destruct (decided_In_items HF _ _ Hin) as (a & _ & Ha).
    exists a. exact Ha. }
  destruct Hret as [self2' H2]. exists self2'. split; [exact H2 |].
  apply build_graph_acts in H2. destruct H2 as (acts2 & HF2 & Hg2 & Hv2).
  rewrite (decided_unique HF2 HF) in Hg2. split; [congruence |].
  intros Hs. rewrite Hv2, Hv, Hs. reflexivity.
Qed.

Lemma build_graph_from_scratch_witness :
  exists self2',
    _build_graph 3 heap_mixed [0; 1; 2; 3] [4; 5; 8] [6; 7]
      (set_data_graph (Some [(Some 9, [9])]) (Bokeh_init plain_scheme))
    = (self2', Ok tt) /\
    _data_graph self2' =
      _data_graph (fst (_build_graph 3 heap_mixed [0; 1; 2; 3] [4; 5; 8]
                          [6; 7] (Bokeh_init plain_scheme))).
Proof.
  destruct (@build_graph_from_scratch 3 heap_mixed [0; 1; 2; 3] [4; 5; 8]
              [6; 7] (Bokeh_init plain_scheme) _
              (set_data_graph (Some [(Some 9, [9])]) (Bokeh_init plain_scheme))
              eq_refl) as (s2 & H & Hg & _).
  exists s2. split; [exact H | exact Hg].
Defined.

Lemma build_graph_outcome : forall fuel h ds inds obs self self' o,
  _build_graph fuel h ds inds obs self = (self', o) ->
  (forall e, o = Raise e ->
     e = AttributeError \/ master_test_raises h obs e) /\
  (exists g v, _data_graph self' = Some g /\ _volume_graphs self' = Some v).
Proof.
  intros fuel h ds inds obs self self' o H.
  rewrite build_graph_one_pass in H.
  eapply build_pass_outcome in H; [| reflexivity | reflexivity].
  destruct H as [He Hs]. split; [| exact Hs].
  intros e Hoe. destruct (He e Hoe) as [-> | (x & Hx & Ht)];
    [left; reflexivity |].
  right. destruct Ht as (o' & pi & pm & [<- | []] & Ht).
  exists x, pi, pm. split; [| exact Ht].
  unfold plottables in Hx. apply in_app_or in Hx.
  destruct Hx as [Hx | Hx].
  { apply in_map_iff in Hx. destruct Hx as (y & E & _). discriminate. }
  apply in_app_or in Hx. destruct Hx as [Hx | Hx].
  - apply in_map_iff in Hx. destruct Hx as (y & E & Hy).
    inversion E; subst. exact Hy.
  - apply in_map_iff in Hx. destruct Hx as (y & E & _). discriminate.
Qed.

(** X9. What [_build_graph] raises is an [AttributeError], or the error the
    truth test of line 66 raises on the plot master of an observer that is
    to be attached: never a [KeyError] from the slave lists.  It returns
    only if every data feed and every observer has a [plotinfo] (an
    indicator without one is skipped instead).  Whatever the outcome, the
    instance afterwards holds a graph dictionary and a volume list. *)
Theorem build_graph_errors : forall fuel h ds inds obs self self' o,
  _build_graph fuel h ds inds obs self = (self', o) ->
  (forall e, o = Raise e ->
     e = AttributeError \/ master_test_raises h obs e) /\
  (o = Ok tt ->
   forall x, In x ds \/ In x obs -> plotinfo (h x) <> None) /\
  (exists g v, _data_graph self' = Some g /\ _volume_graphs self' = Some v).
Proof.
  intros fuel h ds inds obs self self' o H.
  destruct (build_graph_outcome _ _ _ _ _ _ H) as [He Hs].
  split; [exact He |]. split; [| exact Hs].
  intros -> x Hx Hnone.
  apply build_graph_acts in H. destruct H as (acts & HF & _ & _).
  assert (Hin : exists role, role <> IndicatorRole /\
                  In (role, x) (plottables ds inds obs)).
  { unfold plottables. destruct Hx as [Hx | Hx].
    - exists FeedRole. split; [discriminate |].
      apply in_or_app. left. apply in_map. exact Hx.
    - exists ObserverRole. split; [discriminate |].
      apply in_or_app. right. apply in_or_app. left.
      apply in_map. exact Hx. }
  destruct Hin as (role & Hr & Hin).
  destruct (decided_In_items HF _ _ Hin) as (a & _ & Ha).
  unfold decide in Ha. rewrite Hnone in Ha.
  destruct role; try discriminate. contradiction.
Qed.

Lemma build_graph_errors_witness :
  snd (_build_graph 3 heap_mixed [0; 1; 2; 3] [4; 5; 8] [6; 7]
         (Bokeh_init plain_scheme)) = Ok tt /\
  forall x, In x [0; 1; 2; 3] \/ In x [6; 7] ->
    plotinfo (heap_mixed x) <> None.
Proof.
  split; [reflexivity |].
  exact (proj1 (proj2
    (@build_graph_errors 3 heap_mixed [0; 1; 2; 3] [4; 5; 8] [6; 7]
       (Bokeh_init plain_scheme) _ _ eq_refl)) eq_refl).
Defined.

(** ** The render call: errors, analyzers, panels *)

Lemma plot_group_raise : forall h si ei locals group s s' e,
  plot_group h si ei locals group s = (s', Raise e) -> e = AttributeError.
Proof.
  intros h si ei [figs hc] [master slaves] s s' e H. unfold plot_group in H.
  destruct master as [m |]; [| inversion H; reflexivity].
  unfold get_plotinfo in H.
  destruct (plotinfo (h m)) as [pi |]; [| inversion H; reflexivity].
  unfold bind, ret, gets in H. cbv beta iota in H.
  destruct (Figure_plot _ _ _ _) as [bf1 hc1].
  destruct (fold_left _ _ _) as [bf2 hc2]. discriminate.
Qed.

Lemma plot_group_no_diverge : forall h si ei locals group s s',
  plot_group h si ei locals group s <> (s', Diverge).
Proof.
  intros h si ei [figs hc] [master slaves] s s' H. unfold plot_group in H.
  destruct master as [m |]; [| discriminate].
  unfold get_plotinfo in H.
  destruct (plotinfo (h m)) as [pi |]; [| discriminate].
  unfold bind, ret, gets in H. cbv beta iota in H.
  destruct (Figure_plot _ _ _ _) as [bf1 hc1].
  destruct (fold_left _ _ _) as [bf2 hc2]. discriminate.
Qed.

Lemma plot_groups_outcome : forall h si ei g locals s s' o,
  for_fold g locals (plot_group h si ei) s = (s', o) ->
  o <> Diverge /\ forall e, o = Raise e -> e = AttributeError.
Proof.
  intros h si ei g. induction g as [| grp g IH]; intros locals s s' o H.
  - inversion H; subst. split; [discriminate | discriminate].
  - simpl in H. unfold bind in H.
    destruct (plot_group h si ei locals grp s) as [s1 [l1 | e1 |]] eqn:E.
    + eapply IH; eassumption.
    + inversion H; subst. split; [discriminate |].
      intros e He. inversion He; subst. eapply plot_group_raise; eassumption.
    + exfalso. eapply plot_group_no_diverge; eassumption.
Qed.

(** The loop over the volume list always runs to its end. *)
Lemma plot_volume_panels_return : forall si ei vs hc s,
  exists hc', for_fold vs hc (plot_volume_panel si ei) s = (s, Ok hc').
Proof.
  intros si ei vs. induction vs as [| v vs IH]; intros hc s.
  - exists hc. reflexivity.
  - simpl. unfold bind at 1. unfold plot_volume_panel at 1.
    unfold bind, gets, ret. cbv beta iota.
    destruct (Figure_plot_volume _ _ _) as [bf hc1]. apply IH.
Qed.

Lemma render_panels_outcome : forall fuel h strategy start end_ s s' o,
  render_panels fuel h strategy start end_ s = (s', o) ->
  forall e, o = Raise e ->
    e = AttributeError \/ master_test_raises h (getobservers strategy) e.
Proof.
  intros fuel h strategy start end_ s s' o H e He. subst o.
  unfold render_panels in H. unfold bind at 1 in H.
  destruct (_build_graph _ _ _ _ _ s) as [s1 [[] | e1 |]] eqn:Eb.
  - left.
    destruct (build_graph_outcome _ _ _ _ _ _ Eb) as (_ & g & v & Hg & Hv).
    destruct (_get_start_end _ _ _) as [si ei].
    unfold bind at 1 in H. unfold gets at 1 in H. rewrite Hg in H.
    unfold bind at 1 in H.
    destruct (for_fold g _ _ s1) as [s2 [[figs hc] | e2 |]] eqn:Eg.
    + assert (s1 = s2) by (eapply for_fold_pure; [| eassumption];
                           intros; apply plot_group_pure).
      subst s2. cbv beta iota in H.
      destruct (plot_volume_panels_return si ei v hc s1) as [hc' Ev].
      unfold bind, gets in H. cbv beta iota in H. rewrite Hv in H.
      match type of H with
      | context [for_fold ?a ?b ?c ?d] =>
          destruct (for_fold a b c d) as [s3 o3] eqn:E3
      end.
      pose proof (eq_trans (eq_sym E3) Ev) as E. inversion E; subst.
      discriminate.
    + inversion H; subst.
      eapply (proj2 (@plot_groups_outcome _ _ _ _ _ _ _ _ Eg)). reflexivity.
    + discriminate.
  - inversion H; subst.
    eapply (proj1 (build_graph_outcome _ _ _ _ _ _ Eb)). reflexivity.
  - discriminate.
Qed.

(** X10. The errors of [plot]: a raise is the multi-figure error, for
    [numfigs > 1], or the backend error, for [numfigs <= 1] with [use] set,
    both with the instance untouched; or the [TypeError] of the slice, for
    a call past the checks that has a calendar date for a bound while the
    instance has no time source, with nothing but the analyzers registered;
    or, for a call that reached the construction of the graph, an
    [AttributeError] or what the truth test on an observer's plot master
    raised.  The graph and the loops over it raise no [KeyError] and no
    [IndexError]. *)
Theorem plot_errors : forall fuel c self self' e,
  plot_call fuel c self = (self', Raise e) ->
  ((1 < c_numfigs c)%Z /\ e = Exception "numfigs must be 1"
   /\ self' = self) \/
  ((c_numfigs c <= 1)%Z /\ c_use c <> None
   /\ e = Exception "Different backends by 'use' not supported"
   /\ self' = self) \/
  (reaches_build c = true /\ _cds self = None /\
   (exists d, c_start c = BDate d \/ c_end c = BDate d) /\
   e = TypeError /\
   self' = set_analyzers (_analyzers self ++ [analyzers (c_strategy c)]) self)
  \/
  (reaches_graph c self = true /\
   (e = AttributeError \/
    master_test_raises (c_heap c) (getobservers (c_strategy c)) e)).
Proof.
  intros fuel c self self' e H.
  destruct (reaches_build c) eqn:Er.
  - right. right. destruct (reaches_graph c self) eqn:Eg.
    + right. split; [reflexivity |].
      rewrite (plot_call_at_graph _ _ _ Eg) in H.
      eapply render_panels_outcome; [exact H | reflexivity].
    + left. rewrite (plot_call_no_slice _ _ _ Er Eg) in H.
      inversion H; subst. split; [reflexivity |].
      unfold reaches_graph in Eg. rewrite Er in Eg. cbn [andb] in Eg.
      destruct (_cds self); [discriminate |]. split; [reflexivity |].
      split; [| split; reflexivity].
      unfold cds_of_call, reaches_build in *.
      destruct (datas (c_strategy c));
        [rewrite andb_false_r in Er; discriminate |].
      unfold plotrange in Eg.
      destruct (c_start c) as [| i | d]; [| | exists d; left; reflexivity];
        destruct (c_end c) as [| j | d'];
        try discriminate; exists d'; right; reflexivity.
  - rewrite (plot_call_stopped _ _ _ Er) in H.
    destruct (c_numfigs c >? 1)%Z eqn:En.
    + inversion H; subst. left.
      apply Z.gtb_lt in En. split; [lia | split; reflexivity].
    + assert (Hn : (c_numfigs c <= 1)%Z).
      { destruct (Z.le_gt_cases (c_numfigs c) 1) as [Hle | Hgt];
          [exact Hle |].
        assert ((c_numfigs c >? 1)%Z = true) by (apply Z.gtb_lt; lia).
        congruence. }
      destruct (c_use c) as [u |]; [| discriminate].
      inversion H; subst. right. left.
      split; [exact Hn | split; [discriminate | split; reflexivity]].
Qed.

Lemma plot_errors_witness :
  snd (plot_call 1 call_from_date (Bokeh_init plain_scheme)) = Raise TypeError
  /\
  (((1 < c_numfigs call_from_date)%Z /\
    TypeError = Exception "numfigs must be 1" /\
    fst (plot_call 1 call_from_date (Bokeh_init plain_scheme))
    = Bokeh_init plain_scheme) \/
   ((c_numfigs call_from_date <= 1)%Z /\ c_use call_from_date <> None /\
    TypeError = Exception "Different backends by 'use' not supported" /\
    fst (plot_call 1 call_from_date (Bokeh_init plain_scheme))
    = Bokeh_init plain_scheme) \/
   (reaches_build call_from_date = true /\
    _cds (Bokeh_init plain_scheme) = None /\
    (exists d, c_start call_from_date = BDate d
               \/ c_end call_from_date = BDate d) /\
    TypeError = TypeError /\
    fst (plot_call 1 call_from_date (Bokeh_init plain_scheme))
    = set_analyzers
        (_analyzers (Bokeh_init plain_scheme)
         ++ [analyzers (c_strategy call_from_date)])
        (Bokeh_init plain_scheme)) \/
   (reaches_graph call_from_date (Bokeh_init plain_scheme) = true /\
    (TypeError = AttributeError \/
     master_test_raises (c_heap call_from_date)
       (getobservers (c_strategy call_from_date)) TypeError))).
Proof.
  split; [reflexivity |].
  exact (@plot_errors 1 call_from_date (Bokeh_init plain_scheme) _ _ eq_refl).
Defined.

Lemma plot_registers_analyzers_aux : forall fuel c self self' o,
  plot_call fuel c self = (self', o) ->
  _analyzers self' =
    (if reaches_build c
     then _analyzers self ++ [analyzers (c_strategy c)]
     else _analyzers self) /\
  (reaches_build c = true -> _get_analyzer_tab self' <> None).
Proof.
  intros fuel c self self' o H.
  assert (Ha : _analyzers self' =
               (if reaches_build c
                then _analyzers self ++ [analyzers (c_strategy c)]
                else _analyzers self)).
  { destruct (reaches_build c) eqn:Er.
    - destruct (reaches_graph c self) eqn:Eg.
      + rewrite (plot_call_at_graph _ _ _ Eg) in H.
        apply render_panels_grow in H. destruct H as (_ & _ & H3 & _).
        exact H3.
      + rewrite (plot_call_no_slice _ _ _ Er Eg) in H.
        inversion H; subst. reflexivity.
    - rewrite (plot_call_stopped _ _ _ Er) in H.
      inversion H; subst. reflexivity. }
  split; [exact Ha |].
  intros Hr. rewrite Hr in Ha. unfold _get_analyzer_tab. rewrite Ha.
  rewrite length_app. cbn [length].
  replace (length (_analyzers self) + 1 =? 0) with false
    by (symmetry; apply Nat.eqb_neq; lia).
  discriminate.
Qed.

(** X11. A call of [plot] that gets past its checks registers the analyzers
    of the strategy, once, at the end of the session's list, also when the
    call raises later on or the strategy has no analyzer at all; any other
    call leaves the list alone.  After such a call the analyzer tab exists,
    if only with an empty column. *)
Theorem plot_registers_analyzers : forall fuel c self self' o,
  plot_call fuel c self = (self', o) ->
  _analyzers self' =
    (if reaches_build c
     then _analyzers self ++ [analyzers (c_strategy c)]
     else _analyzers self) /\
  (reaches_build c = true -> _get_analyzer_tab self' <> None).
Proof. exact plot_registers_analyzers_aux. Qed.

Lemma plot_registers_analyzers_witness :
  _get_analyzer_tab (fst (plot_call 1 call_full (Bokeh_init plain_scheme)))
  <> None.
Proof.
  exact (proj2 (@plot_registers_analyzers 1 call_full
                  (Bokeh_init plain_scheme) _ _ eq_refl) eq_refl).
Defined.

Lemma nth_error_map_combine_seq : forall A B (F : nat * A -> B) l start i,
  nth_error (map F (combine (seq start (length l)) l)) i =
  option_map (fun x => F (start + i, x)) (nth_error l i).
Proof.
  intros A B F l. induction l as [| x l IH]; intros start i.
  - destruct i; reflexivity.
  - destruct i as [| i]; cbn [length seq combine map nth_error option_map].
    + rewrite Nat.add_0_r. reflexivity.
    + rewrite IH. replace (S start + i) with (start + S i) by lia.
      reflexivity.
Qed.

Lemma nth_error_map_enumerate : forall A B (F : nat * A -> B) l i,
  nth_error (map F (enumerate l)) i =
  option_map (fun x => F (i, x)) (nth_error l i).
Proof.
  intros. unfold enumerate. rewrite nth_error_map_combine_seq. reflexivity.
Qed.

(** What the loops at the end of [plot] do to the [i]-th panel. *)
Lemma style_figures_nth : forall sch hc figs i f',
  nth_error (style_figures sch hc figs) i = Some f' ->
  exists f,
    nth_error figs i = Some f /\
    legend_click_policy f' = Some (legend_click sch) /\
    legend_background_fill_color f' = Some (legend_background_color sch) /\
    legend_label_text_color f' = Some (legend_text_color sch) /\
    x_range f' = (if 1 <=? i then Some 0 else x_range f) /\
    xaxis_visible f' =
      (if String.eqb (xaxis_pos sch) "bottom" then false
       else xaxis_visible f) /\
    fig_hovertips f' = hc /\
    fig_cds f' = fig_cds f /\ fig_start f' = fig_start f /\
    fig_end f' = fig_end f /\ master_type f' = master_type f /\
    plotabove f' = plotabove f /\ fig_series f' = fig_series f /\
    fig_volume f' = fig_volume f.
Proof.
  intros sch hc figs i f' H. unfold style_figures, apply_hovertips in H.
  rewrite nth_error_map in H.
  set (L := link_axis
              (map (set_legend_colors (legend_background_color sch)
                                      (legend_text_color sch))
                 (map (set_legend_click_policy (legend_click sch)) figs)))
    in H.
  assert (HL : forall f1, nth_error L i = Some f1 ->
             exists f, nth_error figs i = Some f /\
               f1 = (if 1 <=? i then set_x_range (Some 0) else fun g => g)
                      (set_legend_colors (legend_background_color sch)
                         (legend_text_color sch)
                         (set_legend_click_policy (legend_click sch) f))).
  { intros f1 H1. unfold L, link_axis in H1.
    rewrite nth_error_map_enumerate, !nth_error_map in H1.
    destruct (nth_error figs i) as [f |]; [| discriminate].
    cbn [option_map] in H1. inversion H1; subst f1. exists f.
    split; [reflexivity |]. destruct i; reflexivity. }
  assert (Hlen : length L = length figs).
  { unfold L, link_axis. rewrite length_map, enumerate_length, !length_map.
    reflexivity. }
  destruct (String.eqb (xaxis_pos sch) "bottom") eqn:Eb.
  - unfold configure_xaxis in H. rewrite nth_error_map_enumerate in H.
    destruct (nth_error L i) as [f1 |] eqn:E1; [| discriminate].
    assert (Hi : i < length L) by (apply nth_error_Some; congruence).
    cbn [option_map] in H.
    replace (i <=? length L) with true in H
      by (symmetry; apply Nat.leb_le; lia).
    inversion H; subst f'. clear H.
    destruct (HL f1 eq_refl) as (f & Ef & ->). exists f.
    split; [exact Ef |]. destruct (1 <=? i); cbn; repeat split.
  - destruct (nth_error L i) as [f1 |] eqn:E1; [| discriminate].
    cbn [option_map] in H. inversion H; subst f'. clear H.
    destruct (HL f1 eq_refl) as (f & Ef & ->). exists f.
    split; [exact Ef |]. destruct (1 <=? i); cbn; repeat split.
Qed.

Lemma fold_Figure_plot_fields : forall m slaves bf hc,
  let r := fst (fold_left
                  (fun '(bf, hoverc) s => Figure_plot bf hoverc s (Some m))
                  slaves (bf, hc)) in
  fig_series r = fig_series bf ++ map (fun s => (s, Some m)) slaves /\
  fig_cds r = fig_cds bf /\ fig_start r = fig_start bf /\
  fig_end r = fig_end bf /\ master_type r = master_type bf /\
  plotabove r = plotabove bf /\ fig_volume r = fig_volume bf /\
  x_range r = x_range bf /\ xaxis_visible r = xaxis_visible bf.
Proof.
  intros m slaves. induction slaves as [| s ss IH]; intros bf hc.
  - cbn. rewrite app_nil_r. repeat split.
  - cbn [fold_left].
    destruct (Figure_plot bf hc s (Some m)) as [bf1 hc1] eqn:E.
    unfold Figure_plot in E. inversion E; subst bf1 hc1. clear E.
    specialize (IH
      {| fig_cds := fig_cds bf; fig_start := fig_start bf;
         fig_end := fig_end bf; master_type := master_type bf;
         plotabove := plotabove bf;
         fig_series := fig_series bf ++ [(s, Some m)];
         fig_volume := fig_volume bf;
         legend_click_policy := legend_click_policy bf;
         legend_background_fill_color := legend_background_fill_color bf;
         legend_label_text_color := legend_label_text_color bf;
         x_range := x_range bf; xaxis_visible := xaxis_visible bf;
         fig_hovertips := fig_hovertips bf |} (hc ++ [s])).
    cbn zeta in IH. cbn [fig_cds fig_start fig_end master_type plotabove
                         fig_series fig_volume x_range xaxis_visible] in IH.
    destruct IH as (H1 & H2 & H3 & H4 & H5 & H6 & H7 & H8 & H9).
    cbn zeta. cbn [map]. rewrite H1, <- app_assoc. repeat split; assumption.
Qed.

Lemma plot_group_raw : forall h si ei figs hc group s s' figs' hc',
  plot_group h si ei (figs, hc) group s = (s', Ok (figs', hc')) ->
  exists bf, figs' = figs ++ [bf] /\ raw_panel h (_cds s) si ei group bf.
Proof.
  intros h si ei figs hc [master slaves] s s' figs' hc' H.
  unfold plot_group in H. destruct master as [m |]; [| discriminate].
  unfold get_plotinfo in H.
  destruct (plotinfo (h m)) as [pi |] eqn:Ep; [| discriminate].
  unfold bind, ret, gets in H. cbn [Figure_plot] in H.
  match type of H with
  | context [fold_left ?f ?l ?a] =>
      pose proof (@fold_Figure_plot_fields m l (fst a) (snd a)) as Hf;
      cbn [fst snd] in Hf; destruct (fold_left f l a) as [bf2 hc2]
  end.
  inversion H; subst. exists bf2. split; [reflexivity |].
  cbn zeta in Hf. cbn [fst fig_cds fig_start fig_end master_type plotabove
                       fig_series fig_volume x_range xaxis_visible
                       Figure_init app] in Hf.
  destruct Hf as (H1 & H2 & H3 & H4 & H5 & H6 & H7 & H8 & H9).
  exists m, pi. cbn [fst snd].
  repeat split; first [assumption | reflexivity].
Qed.

Lemma plot_groups_raw : forall h si ei g figs hc s s' figs' hc',
  for_fold g (figs, hc) (plot_group h si ei) s = (s', Ok (figs', hc')) ->
  exists new, figs' = figs ++ new /\
              Forall2 (raw_panel h (_cds s) si ei) g new.
Proof.
  intros h si ei g. induction g as [| grp g IH];
    intros figs hc s s' figs' hc' H; simpl in H.
  - inversion H; subst. exists []. rewrite app_nil_r. split; constructor.
  - apply bind_inv_ok in H. destruct H as (s1 & [figs1 hc1] & H1 & H2).
    pose proof H1 as H1'. apply plot_group_ok in H1'.
    destruct H1' as (-> & _).
    apply plot_group_raw in H1. destruct H1 as (bf & -> & Hbf).
    apply IH in H2. destruct H2 as (new & -> & Hall).
    exists (bf :: new). rewrite <- app_assoc. split; [reflexivity |].
    constructor; assumption.
Qed.

Lemma Forall2_nth_error_r : forall A B (R : A -> B -> Prop) l l',
  Forall2 R l l' ->
  forall i b, nth_error l' i = Some b ->
    exists a, nth_error l i = Some a /\ R a b.
Proof.
  intros A B R l l' H. induction H as [| a b l l' Hab HF IH]; intros i y Hy.
  - destruct i; discriminate.
  - destruct i as [| i].
    + inversion Hy; subst. exists a. auto.
    + apply (IH i y Hy).
Qed.

(** A call of [plot] that built the graph and returned: its new panels, one
    per group and in the order of the groups, as [plot_group] made them and
    as the closing loops styled them. *)
Lemma plot_call_panels : forall fuel c self self',
  plot_call fuel c self = (self', Ok tt) ->
  reaches_build c = true ->
  exists g raw hc,
    _data_graph self' = Some g /\
    Forall2 (raw_panel (c_heap c) (_cds self')
               (fst (_get_start_end (st_dtime (c_strategy c))
                       (c_start c) (c_end c)))
               (snd (_get_start_end (st_dtime (c_strategy c))
                       (c_start c) (c_end c)))) g raw /\
    _figures self' = _figures self ++ style_figures (scheme self) hc raw.
Proof.
  intros fuel c self self' H Hr.
  destruct (reaches_graph c self) eqn:Eg;
    [| rewrite (plot_call_no_slice _ _ _ Hr Eg) in H; discriminate].
  rewrite (plot_call_at_graph _ _ _ Eg) in H.
  unfold render_panels in H.
  apply bind_inv_ok in H. destruct H as (s4 & [] & Hb & H).
  assert (Hf : same_session (at_graph c self) s4)
    by (eapply build_graph_session; eassumption).
  destruct Hf as (Fs & Ff & Fc & Fa).
  destruct (_get_start_end (st_dtime (c_strategy c)) (c_start c) (c_end c))
    as [si ei].
  apply bind_inv_ok in H. destruct H as (s5 & graph & Hg & H).
  inversion Hg; subst s5 graph. clear Hg.
  apply bind_inv_ok in H. destruct H as (s6 & [figs hc] & Hl & H).
  destruct (_data_graph s4) as [g |] eqn:Eg'; [| discriminate].
  pose proof Hl as Hl'.
  apply plot_groups_ok in Hl'. destruct Hl' as (-> & _).
  apply plot_groups_raw in Hl. destruct Hl as (new & -> & Hall).
  apply bind_inv_ok in H. destruct H as (s7 & vols & Hv & H).
  inversion Hv; subst s7 vols. clear Hv.
  apply bind_inv_ok in H. destruct H as (s8 & hc' & Hv & H).
  destruct (_volume_graphs s4) as [vs |]; [| discriminate].
  assert (s8 = s4).
  { symmetry. eapply for_fold_pure; [| eassumption].
    intros. apply plot_volume_panel_pure. }
  subst s8.
  apply bind_inv_ok in H. destruct H as (s9 & sch & Hs & H).
  inversion Hs; subst s9 sch. clear Hs.
  inversion H; subst self'. clear H.
  exists g, new, hc'. cbn [set_figures _data_graph _cds _figures fst snd app].
  split; [exact Eg' |]. split; [exact Hall |].
  rewrite Fs, Ff. reflexivity.
Qed.

(** X12. A call of [plot] that builds the graph and returns adds one panel
    per group, in the order of the groups.  The panel of the group of
    master [m] carries the type of [m] and its plot-above flag ([False] when
    [plotinfo] has none), plots [m] first, without overlay parent, then the
    slaves in list order with [m] as parent, is bound to the time source of
    the session and to the index range [_get_start_end] resolves, and has
    no volume series. *)
Theorem plot_panel_per_group : forall fuel c self self',
  plot_call fuel c self = (self', Ok tt) ->
  reaches_build c = true ->
  exists g figs,
    _data_graph self' = Some g /\
    _figures self' = _figures self ++ figs /\
    length figs = length g /\
    forall i f, nth_error figs i = Some f ->
      exists m slaves pi,
        nth_error g i = Some (Some m, slaves) /\
        plotinfo (c_heap c m) = Some pi /\
        master_type f = Some (kind (c_heap c m)) /\
        plotabove f =
          match pi_plotabove pi with Some b => b | None => false end /\
        fig_series f = (m, None) :: map (fun s => (s, Some m)) slaves /\
        fig_cds f = _cds self' /\
        (fig_start f, fig_end f) =
          _get_start_end (st_dtime (c_strategy c)) (c_start c) (c_end c) /\
        fig_volume f = [].
Proof.
  intros fuel c self self' H Hr.
  destruct (plot_call_panels _ _ _ H Hr) as (g & raw & hc & Hg & Hall & Hf).
  exists g, (style_figures (scheme self) hc raw).
  split; [exact Hg |]. split; [exact Hf |]. split.
  - rewrite style_figures_length. symmetry.
    eapply Forall2_length. exact Hall.
  - intros i f Hi. apply style_figures_nth in Hi.
    destruct Hi as (f0 & Hf0 & _ & _ & _ & _ & _ & _
                    & Ec & Es & Ee & Em & Ea & Er & Ev).
    destruct (Forall2_nth_error_r Hall _ Hf0) as ([k slaves] & Hk & Hraw).
    destruct Hraw as (m & pi & Hm & Hpi & R1 & R2 & R3 & R4 & R5 & R6 & R7 & _).
    cbn [fst snd] in Hm, R6. subst k.
    exists m, slaves, pi. split; [exact Hk |]. split; [exact Hpi |].
    split; [congruence |]. split; [congruence |]. split; [congruence |].
    split; [congruence |]. split; [| congruence].
    rewrite Es, Ee, R2, R3. symmetry. apply surjective_pairing.
Qed.

Lemma plot_panel_per_group_witness :
  exists g figs,
    _data_graph (fst (plot_call 1 call_full (Bokeh_init plain_scheme)))
    = Some g /\
    _figures (fst (plot_call 1 call_full (Bokeh_init plain_scheme)))
    = _figures (Bokeh_init plain_scheme) ++ figs /\
    length figs = length g.
Proof.
  destruct (@plot_panel_per_group 1 call_full (Bokeh_init plain_scheme) _
              eq_refl eq_refl) as (g & figs & H1 & H2 & H3 & _).
  exists g, figs. auto.
Defined.

(** X13. The panels a returning call of [plot] adds all get the legend
    click policy and the legend colours of the scheme and the hover tips of
    the call; the first one keeps the x-range it was created with and each
    later one is given the x-range of the first; the x-axes stay visible
    unless the axis position is "bottom". *)
Theorem plot_styles_and_links_panels : forall fuel c self self',
  plot_call fuel c self = (self', Ok tt) ->
  reaches_build c = true ->
  exists figs hc,
    _figures self' = _figures self ++ figs /\
    forall i f, nth_error figs i = Some f ->
      legend_click_policy f = Some (legend_click (scheme self)) /\
      legend_background_fill_color f =
        Some (legend_background_color (scheme self)) /\
      legend_label_text_color f = Some (legend_text_color (scheme self)) /\
      x_range f = (if i =? 0 then None else Some 0) /\
      xaxis_visible f =
        negb (String.eqb (xaxis_pos (scheme self)) "bottom") /\
      fig_hovertips f = hc.
Proof.
  intros fuel c self self' H Hr.
  destruct (plot_call_panels _ _ _ H Hr) as (g & raw & hc & Hg & Hall & Hf).
  exists (style_figures (scheme self) hc raw), hc. split; [exact Hf |].
  intros i f Hi. apply style_figures_nth in Hi.
  destruct Hi as (f0 & Hf0 & L1 & L2 & L3 & Lx & Lv & Lh & _).
  destruct (Forall2_nth_error_r Hall _ Hf0) as (grp & _ & Hraw).
  destruct Hraw as (m & pi & _ & _ & _ & _ & _ & _ & _ & _ & _ & Rx & Rv).
  split; [exact L1 |]. split; [exact L2 |]. split; [exact L3 |].
  split; [| split; [| exact Lh]].
  - rewrite Lx, Rx. destruct i; reflexivity.
  - rewrite Lv, Rv. destruct (String.eqb _ _); reflexivity.
Qed.

Lemma plot_styles_and_links_panels_witness :
  exists figs hc,
    _figures (fst (plot_call 1 call_full (Bokeh_init plain_scheme)))
    = _figures (Bokeh_init plain_scheme) ++ figs /\
    forall i f, nth_error figs i = Some f -> fig_hovertips f = hc.
Proof.
  destruct (@plot_styles_and_links_panels 1 call_full
              (Bokeh_init plain_scheme) _ eq_refl eq_refl)
    as (figs & hc & H1 & H2).
  exists figs, hc. split; [exact H1 |].
  intros i f Hi. apply (H2 i f Hi).
Defined.

Lemma render_panels_failure : forall fuel h strategy start end_ s s' o,
  render_panels fuel h strategy start end_ s = (s', o) ->
  o <> Ok tt -> _figures s' = _figures s.
Proof.
  intros fuel h strategy start end_ s s' o H Ho.
  unfold render_panels in H. unfold bind at 1 in H.
  destruct (_build_graph _ _ _ _ _ s) as [s1 o1] eqn:Eb.
  assert (Hf : same_session s s1)
    by (eapply build_graph_session; eassumption).
  destruct Hf as (_ & Ff & _ & _).
  destruct o1 as [[] | e1 |];
    [| inversion H; subst; exact Ff | inversion H; subst; exact Ff].
  destruct (_get_start_end _ _ _) as [si ei].
  unfold bind at 1 in H. unfold gets at 1 in H. cbv beta iota in H.
  unfold bind at 1 in H.
  destruct (_data_graph s1) as [g |];
    [| inversion H; subst; exact Ff].
  destruct (for_fold g _ _ s1) as [s2 o2] eqn:Eg.
  assert (s1 = s2) by (eapply for_fold_pure; [| eassumption];
                       intros; apply plot_group_pure).
  subst s2.
  destruct o2 as [[figs hc] | e2 |];
    [| inversion H; subst; exact Ff | inversion H; subst; exact Ff].
  cbv beta iota in H.
  unfold bind, gets in H. cbv beta iota in H.
  destruct (_volume_graphs s1) as [vs |];
    [| inversion H; subst; exact Ff].
  destruct (plot_volume_panels_return si ei vs hc s1) as [hc' Ev].
  match type of H with
  | context [for_fold ?a ?b ?c ?d] =>
      destruct (for_fold a b c d) as [s3 o3] eqn:E3
  end.
  pose proof (eq_trans (eq_sym E3) Ev) as E. inversion E; subst.
  unfold modify in H. inversion H; subst. contradiction.
Qed.

(** A call of [plot] that does not return leaves the figure list as it
    was. *)
Lemma plot_call_failure : forall fuel c self self' o,
  plot_call fuel c self = (self', o) -> o <> Ok tt ->
  _figures self' = _figures self.
Proof.
  intros fuel c self self' o H Ho.
  destruct (reaches_build c) eqn:Er.
  - destruct (reaches_graph c self) eqn:Eg.
    + rewrite (plot_call_at_graph _ _ _ Eg) in H.
      apply render_panels_failure in H; [exact H | exact Ho].
    + rewrite (plot_call_no_slice _ _ _ Er Eg) in H.
      inversion H; subst. reflexivity.
  - rewrite (plot_call_stopped _ _ _ Er) in H. inversion H; subst.
    reflexivity.
Qed.

(** X14. [plot] adds its panels all at once, at its very end: a call that
    raises, or does not return, leaves the figure list as it was, although
    it may already have registered the analyzers (once it is past the
    checks) and have built the time source and replaced the graph (once it
    has reached the construction of the graph). *)
Theorem plot_failure_adds_no_panel : forall fuel c self self' o,
  plot_call fuel c self = (self', o) ->
  o <> Ok tt ->
  _figures self' = _figures self /\
  scheme self' = scheme self /\
  (reaches_build c = true ->
   _analyzers self' = _analyzers self ++ [analyzers (c_strategy c)]) /\
  (reaches_graph c self = true ->
   _cds self' <> None /\ _data_graph self' <> None).
Proof.
  intros fuel c self self' o H Ho.
  split; [eapply plot_call_failure; eassumption |].
  destruct (plot_call_cds_figures _ _ _ H) as (Hc & Hs & _).
  split; [exact Hs |]. split.
  - intros Hr.
    destruct (plot_registers_analyzers_aux _ _ _ H) as [Ha _].
    rewrite Hr in Ha. exact Ha.
  - intros Eg. split.
    + rewrite Hc. rewrite (reaches_graph_build _ _ Eg).
      unfold reaches_graph in Eg. apply andb_true_iff in Eg.
      destruct Eg as [_ Eg]. destruct (_cds self); [discriminate |].
      destruct (cds_of_call c); discriminate.
    + rewrite (plot_call_at_graph _ _ _ Eg) in H.
      unfold render_panels in H. unfold bind at 1 in H.
      destruct (_build_graph _ _ _ _ _ (at_graph c self)) as [s1 o1] eqn:Eb.
      destruct (build_graph_outcome _ _ _ _ _ _ Eb) as (_ & g & v & Hg & Hv).
      destruct o1 as [[] | e1 |];
        [| inversion H; subst; congruence | inversion H; subst; congruence].
      assert (Hgrow : _data_graph self' = Some g).
      { revert H. destruct (_get_start_end _ _ _) as [si ei].
        unfold bind at 1. unfold gets at 1. cbv beta iota. rewrite Hg.
        unfold bind at 1.
        destruct (for_fold g _ _ s1) as [s2 o2] eqn:Efg.
        assert (s1 = s2) by (eapply for_fold_pure; [| eassumption];
                             intros; apply plot_group_pure).
        subst s2.
        destruct o2 as [[figs hc] | e2 |];
          [| intros H; inversion H; subst; exact Hg
           | intros H; inversion H; subst; exact Hg].
        cbv beta iota. unfold bind, gets. cbv beta iota. rewrite Hv.
        destruct (plot_volume_panels_return si ei v hc s1) as [hc' Ev].
        match goal with
        | |- context [for_fold ?a ?b ?c ?d] =>
            destruct (for_fold a b c d) as [s3 o3] eqn:E3
        end.
        pose proof (eq_trans (eq_sym E3) Ev) as E. inversion E; subst.
        unfold modify. intros H. inversion H; subst. exact Hg. }
      rewrite Hgrow. discriminate.
Qed.

Lemma plot_failure_adds_no_panel_witness :
  snd (plot_call 1 call_orphan (Bokeh_init plain_scheme))
  = Raise AttributeError /\
  _figures (fst (plot_call 1 call_orphan (Bokeh_init plain_scheme))) = [] /\
  _cds (fst (plot_call 1 call_orphan (Bokeh_init plain_scheme))) <> None.
Proof.
  split; [reflexivity |].
  assert (Ho : Raise AttributeError <> Ok tt) by discriminate.
  destruct (@plot_failure_adds_no_panel 1 call_orphan
              (Bokeh_init plain_scheme) _ _ eq_refl Ho) as (H1 & _ & _ & H2).
  split; [exact H1 | exact (proj1 (H2 eq_refl))].
Defined.

(** ** The figure list over a session *)

Lemma plot_call_group_panels : forall fuel c self self' o,
  plot_call fuel c self = (self', o) ->
  Forall (fun f => master_type f <> None /\ fig_volume f = [])
         (_figures self) ->
  Forall (fun f => master_type f <> None /\ fig_volume f = [])
         (_figures self').
Proof.
  intros fuel c self self' o H HP.
  destruct o as [[] | e |];
    [| rewrite (plot_call_failure _ _ _ H); [exact HP | discriminate]
     | rewrite (plot_call_failure _ _ _ H); [exact HP | discriminate]].
  destruct (plot_call_ok _ _ _ H) as [[_ ->] | [Hr _]]; [exact HP |].
  destruct (plot_call_panels _ _ _ H Hr) as (g & raw & hc & _ & Hall & Hf).
  rewrite Hf. apply Forall_app. split; [exact HP |].
  apply Forall_forall. intros f Hin.
  apply In_nth_error in Hin. destruct Hin as [i Hi].
  apply style_figures_nth in Hi.
  destruct Hi as (f0 & Hf0 & _ & _ & _ & _ & _ & _ & _ & _ & _ & Em & _ & _ & Ev).
  destruct (Forall2_nth_error_r Hall _ Hf0) as (grp & _ & Hraw).
  destruct Hraw as (m & pi & _ & _ & _ & _ & _ & R4 & _ & _ & R7 & _).
  split; [rewrite Em, R4; discriminate | rewrite Ev; exact R7].
Qed.

Lemma session_group_panels : forall fuel calls self self',
  session fuel calls self = Some self' ->
  Forall (fun f => master_type f <> None /\ fig_volume f = [])
         (_figures self) ->
  Forall (fun f => master_type f <> None /\ fig_volume f = [])
         (_figures self').
Proof.
  intros fuel calls. induction calls as [| c cs IH]; intros self self' H HP.
  - inversion H; subst. exact HP.
  - simpl in H. destruct (plot_call fuel c self) as [s1 o] eqn:E.
    pose proof (plot_call_group_panels _ _ _ E HP) as HP1.
    destruct o; [| | discriminate]; eapply IH; eassumption.
Qed.

(** X15. Over a whole session started by [__init__], every figure of the
    figure list is the panel of a group: it has a master type and no volume
    series.  The volume panels [plot] builds when the scheme shows volume on
    panels of its own never get into the figure list. *)
Theorem session_figures_are_group_panels : forall fuel calls sch self',
  session fuel calls (Bokeh_init sch) = Some self' ->
  Forall (fun f => master_type f <> None /\ fig_volume f = [])
         (_figures self').
Proof.
  intros fuel calls sch self' H.
  eapply session_group_panels; [exact H | constructor].
Qed.

Lemma session_figures_are_group_panels_witness :
  Forall (fun f => master_type f <> None /\ fig_volume f = [])
    (_figures
       (fst (plot_call 1 call_full (Bokeh_init volume_scheme)))) /\
  _volume_graphs (fst (plot_call 1 call_full (Bokeh_init volume_scheme)))
  = Some [0].
Proof.
  split; [| reflexivity].
  apply (@session_figures_are_group_panels 1 [call_full] volume_scheme).
  reflexivity.
Defined.

(** ** Showing the session *)

Lemma comprehension_filter : forall A (p : A -> outcome bool) (q : A -> bool) l,
  (forall x, In x l -> p x = Ok (q x)) ->
  comprehension p l = Ok (filter q l).
Proof.
  intros A p q l. induction l as [| x l IH]; intros H; simpl.
  - reflexivity.
  - rewrite (H x (or_introl eq_refl)), IH.
    + destruct (q x); reflexivity.
    + intros y Hy. apply H. right. exact Hy.
Qed.

Lemma comprehension_raise : forall A (p : A -> outcome bool) l x e,
  In x l -> p x = Raise e ->
  (forall y, In y l -> p y = Raise e \/ exists b, p y = Ok b) ->
  comprehension p l = Raise e.
Proof.
  intros A p l x e. induction l as [| y l IH]; intros Hin Hx Hall.
  - contradiction.
  - simpl. destruct (Hall y (or_introl eq_refl)) as [Hy | [b Hy]];
      rewrite Hy; [reflexivity |].
    destruct Hin as [-> | Hin]; [congruence |].
    rewrite IH; [reflexivity | exact Hin | exact Hx |].
    intros z Hz. apply Hall. right. exact Hz.
Qed.

Lemma combine_seq_fst : forall A (l : list A) start,
  map fst (combine (seq start (length l)) l) = seq start (length l).
Proof.
  intros A l. induction l as [| x l IH]; intros start; simpl.
  - reflexivity.
  - rewrite IH. reflexivity.
Qed.

Lemma combine_seq_snd : forall A (l : list A) start,
  map snd (combine (seq start (length l)) l) = l.
Proof.
  intros A l. induction l as [| x l IH]; intros start; simpl.
  - reflexivity.
  - rewrite IH. reflexivity.
Qed.

Lemma enumerate_ids_NoDup : forall A (l : list A),
  NoDup (map fst (enumerate l)).
Proof.
  intros A l. unfold enumerate. rewrite combine_seq_fst. apply seq_NoDup.
Qed.

Lemma filter_snd_combine : forall A (q : A -> bool) (l : list A) start,
  map snd (filter (fun x => q (snd x)) (combine (seq start (length l)) l))
  = filter q l.
Proof.
  intros A q l. induction l as [| x l IH]; intros start; simpl.
  - reflexivity.
  - destruct (q x); simpl; rewrite IH; reflexivity.
Qed.

Lemma filter_snd_enumerate : forall A (q : A -> bool) (l : list A),
  map snd (filter (fun x => q (snd x)) (enumerate l)) = filter q l.
Proof. intros. apply filter_snd_combine. Qed.

Lemma NoDup_fst_inj : forall A (l : list (nat * A)) x y,
  NoDup (map fst l) -> In x l -> In y l -> fst y = fst x -> y = x.
Proof.
  intros A l. induction l as [| z l IH]; intros x y Hd Hx Hy E.
  - contradiction.
  - simpl in Hd. inversion Hd as [| ? ? Hn Hd']; subst.
    assert (Hin : forall w, In w l -> In (fst w) (map fst l))
      by (intros w Hw; apply in_map; exact Hw).
    destruct Hx as [-> | Hx]; destruct Hy as [-> | Hy].
    + reflexivity.
    + exfalso. apply Hn. rewrite <- E. apply Hin. exact Hy.
    + exfalso. apply Hn. rewrite E. apply Hin. exact Hx.
    + eapply IH; eassumption.
Qed.

(** Among the objects of one list, "not in the sublist picked by [q]" is
    "[q] does not hold". *)
Lemma not_in_filter : forall (l : list (nat * Figure)) q x,
  NoDup (map fst l) -> In x l ->
  not_in x (filter q l) = negb (q x).
Proof.
  intros l q x Hd Hx. unfold not_in. f_equal.
  destruct (q x) eqn:Eq.
  - apply existsb_exists. exists x. split.
    + apply filter_In. auto.
    + apply Nat.eqb_refl.
  - destruct (existsb _ _) eqn:Ee; [| reflexivity].
    apply existsb_exists in Ee. destruct Ee as (y & Hy & E).
    apply Nat.eqb_eq in E. apply filter_In in Hy. destruct Hy as [Hy Hq].
    assert (y = x) by (eapply NoDup_fst_inj; eassumption).
    subst y. congruence.
Qed.

Lemma filter_filter_and : forall A (p q : A -> bool) l,
  filter p (filter q l) = filter (fun x => q x && p x) l.
Proof.
  intros A p q l. induction l as [| x l IH]; simpl.
  - reflexivity.
  - destruct (q x); simpl; [destruct (p x) |]; rewrite IH; reflexivity.
Qed.

Lemma filter_split_permutation : forall A (p : A -> bool) l,
  Permutation (filter p l ++ filter (fun x => negb (p x)) l) l.
Proof.
  intros A p l. induction l as [| x l IH]; simpl.
  - constructor.
  - destruct (p x); simpl.
    + constructor. exact IH.
    + apply Permutation_sym. apply Permutation_cons_app.
      apply Permutation_sym. exact IH.
Qed.

Lemma issubclass_master_is : forall (x : nat * Figure) base,
  master_type (snd x) <> None ->
  issubclass (master_type (snd x)) base = Ok (master_is base (snd x)).
Proof.
  intros x base H. unfold issubclass, master_is.
  destruct (master_type (snd x)); [reflexivity | contradiction].
Qed.

Lemma figures_by_master : forall figs base,
  Forall (fun f => master_type f <> None) figs ->
  comprehension (fun x => issubclass (master_type (snd x)) base)
                (enumerate figs)
  = Ok (filter (fun x => master_is base (snd x)) (enumerate figs)).
Proof.
  intros figs base H. apply comprehension_filter.
  intros x Hx. apply issubclass_master_is.
  rewrite Forall_forall in H. apply H.
  unfold enumerate in Hx. destruct x as [i f].
  eapply in_combine_r. exact Hx.
Qed.

(** The three sublists [_show_single] puts one after the other. *)
Lemma show_single_sublists : forall figs,
  Forall (fun f => master_type f <> None) figs ->
  let E := enumerate figs in
  let observers := filter (fun x => master_is Observer (snd x)) E in
  let figs1 := filter (fun x => not_in x observers) E in
  let aboves := filter (fun x => plotabove (snd x)) figs1 in
  let figs2 := filter (fun x => not_in x aboves) figs1 in
  map snd (observers ++ aboves ++ figs2) =
  filter (master_is Observer) figs
  ++ filter (fun f => negb (master_is Observer f) && plotabove f) figs
  ++ filter (fun f => negb (master_is Observer f) && negb (plotabove f)) figs.
Proof.
  intros figs HF E observers figs1 aboves figs2.
  assert (Hd : NoDup (map fst E)) by apply enumerate_ids_NoDup.
  assert (H1 : figs1 =
               filter (fun x => negb (master_is Observer (snd x))) E).
  { unfold figs1, observers. apply filter_ext_in. intros x Hx.
    apply (@not_in_filter E (fun x => master_is Observer (snd x)) x Hd Hx). }
  assert (H2 : aboves =
               filter (fun x => negb (master_is Observer (snd x))
                                && plotabove (snd x)) E).
  { unfold aboves. rewrite H1. apply filter_filter_and. }
  assert (H3 : figs2 =
               filter (fun x => negb (master_is Observer (snd x))
                                && negb (plotabove (snd x))) E).
  { unfold figs2. rewrite H2.
    transitivity
      (filter (fun x => negb (negb (master_is Observer (snd x))
                                && plotabove (snd x))) figs1).
    - apply filter_ext_in. intros x Hx.
      apply (@not_in_filter E
               (fun x => negb (master_is Observer (snd x))
                         && plotabove (snd x)) x Hd).
      unfold figs1 in Hx. apply filter_In in Hx. apply Hx.
    - rewrite H1, filter_filter_and. apply filter_ext. intros x.
      destruct (master_is Observer (snd x)), (plotabove (snd x));
        reflexivity. }
  rewrite H2, H3. unfold observers, E. rewrite !map_app.
  rewrite (filter_snd_enumerate (master_is Observer)).
  rewrite (filter_snd_enumerate
             (fun f => negb (master_is Observer f) && plotabove f)).
  rewrite (filter_snd_enumerate
             (fun f => negb (master_is Observer f) && negb (plotabove f))).
  reflexivity.
Qed.

Lemma show_single_result : forall self,
  Forall (fun f => master_type f <> None) (_figures self) ->
  let shown :=
    filter (master_is Observer) (_figures self)
    ++ filter (fun f => negb (master_is Observer f) && plotabove f)
              (_figures self)
    ++ filter (fun f => negb (master_is Observer f) && negb (plotabove f))
              (_figures self) in
  _show_single self =
    Ok (ChartPanel (gridplot (map (fun x => [x]) shown) "right") "Charts"
        :: match _get_analyzer_tab self with
           | Some p => [WidgetPanel p]
           | None => []
           end) /\
  Permutation shown (_figures self).
Proof.
  intros self HF shown. split.
  - unfold _show_single. rewrite (figures_by_master Observer HF).
    rewrite (show_single_sublists HF). fold shown.
    destruct (_get_analyzer_tab self); reflexivity.
  - unfold shown.
    set (F := _figures self).
    assert (Hrest : Permutation
              (filter (fun f => negb (master_is Observer f) && plotabove f) F
               ++ filter (fun f => negb (master_is Observer f)
                                   && negb (plotabove f)) F)
              (filter (fun f => negb (master_is Observer f)) F)).
    { rewrite <- !filter_filter_and.
      apply (filter_split_permutation plotabove). }
    eapply Permutation_trans.
    + apply Permutation_app_head. exact Hrest.
    + apply (filter_split_permutation (master_is Observer)).
Qed.


(** X16. [_show_single] on figures that all have a master type returns one
    "Charts" tab with the toolbar on the right, one panel per row: first the
    panels of observers, then the other panels flagged plot-above, then the
    rest, each part in the order of the figure list, and every figure of the
    session exactly once; the analyzer tab follows when there is one. *)
Theorem show_single_order : forall self,
  Forall (fun f => master_type f <> None) (_figures self) ->
  let shown :=
    filter (master_is Observer) (_figures self)
    ++ filter (fun f => negb (master_is Observer f) && plotabove f)
              (_figures self)
    ++ filter (fun f => negb (master_is Observer f) && negb (plotabove f))
              (_figures self) in
  _show_single self =
    Ok (ChartPanel (gridplot (map (fun x => [x]) shown) "right") "Charts"
        :: match _get_analyzer_tab self with
           | Some p => [WidgetPanel p]
           | None => []
           end) /\
  Permutation shown (_figures self).
Proof. exact show_single_result. Qed.

Lemma show_single_order_witness :
  Permutation
    (filter (master_is Observer)
       (_figures (fst (plot_call 1 call_panels (Bokeh_init plain_scheme))))
     ++ filter (fun f => negb (master_is Observer f) && plotabove f)
          (_figures (fst (plot_call 1 call_panels (Bokeh_init plain_scheme))))
     ++ filter (fun f => negb (master_is Observer f) && negb (plotabove f))
          (_figures (fst (plot_call 1 call_panels (Bokeh_init plain_scheme)))))
    (_figures (fst (plot_call 1 call_panels (Bokeh_init plain_scheme)))).
Proof.
  apply (@show_single_order
           (fst (plot_call 1 call_panels (Bokeh_init plain_scheme)))).
  cbn. repeat constructor; discriminate.
Defined.

Lemma add_panel_spec : forall panels obj title,
  add_panel panels obj title =
  panels ++ match map snd obj with
            | [] => []
            | _ :: _ =>
                [ChartPanel (gridplot (map (fun x => [x]) (map snd obj)) "left")
                            title]
            end.
Proof.
  intros panels obj title. unfold add_panel.
  destruct obj as [| x obj]; cbn [length Nat.eqb map].
  - rewrite app_nil_r. reflexivity.
  - rewrite map_map. reflexivity.
Qed.

Lemma show_tabs_result : forall self,
  Forall (fun f => master_type f <> None) (_figures self) ->
  let tab title l :=
    match l with
    | [] => []
    | _ => [ChartPanel (gridplot (map (fun x => [x]) l) "left") title]
    end in
  let tabs :=
    tab "Datas"%string (filter (master_is DataBase) (_figures self))
    ++ tab "Indicators"%string (filter (master_is Indicator) (_figures self))
    ++ tab "Observers"%string (filter (master_is Observer) (_figures self))
    ++ match _get_analyzer_tab self with
       | Some p => [WidgetPanel p]
       | None => []
       end in
  _show_tabs self = Ok tabs /\
  forall f, In f (flat_map tab_figures tabs) <->
            In f (_figures self) /\
            (master_is DataBase f || master_is Indicator f
             || master_is Observer f) = true.
Proof.
  intros self HF tab tabs. split.
  - unfold _show_tabs.
    rewrite (figures_by_master Observer HF), (figures_by_master DataBase HF),
      (figures_by_master Indicator HF).
    rewrite !add_panel_spec.
    rewrite (filter_snd_enumerate (master_is DataBase)),
      (filter_snd_enumerate (master_is Indicator)),
      (filter_snd_enumerate (master_is Observer)).
    unfold tabs, tab. cbn [app].
    destruct (_get_analyzer_tab self).
    + rewrite <- !app_assoc. reflexivity.
    + rewrite app_nil_r, <- !app_assoc. reflexivity.
  - intros f. unfold tabs. rewrite !flat_map_app, !in_app_iff.
    assert (Htab : forall title l,
               In f (flat_map tab_figures (tab title l)) <-> In f l).
    { intros title l. unfold tab. destruct l as [| x l]; [reflexivity |].
      cbn [flat_map tab_figures grid_children]. rewrite app_nil_r.
      assert (Hid : forall l0 : list Figure,
                 concat (map (fun x0 => [x0]) l0) = l0).
      { induction l0 as [| y l0 IH]; [reflexivity |].
        cbn. rewrite IH. reflexivity. }
      rewrite Hid. reflexivity. }
    rewrite !Htab, !filter_In.
    assert (Hw : ~ In f (flat_map tab_figures
                           match _get_analyzer_tab self with
                           | Some p => [WidgetPanel p]
                           | None => []
                           end)).
    { destruct (_get_analyzer_tab self); cbn; tauto. }
    destruct (master_is DataBase f), (master_is Indicator f),
      (master_is Observer f); cbn [orb]; intuition congruence.
Qed.


(** X17. [_show_tabs] on figures that all have a master type returns, in
    this order, a "Datas" tab with the panels of data feeds, an
    "Indicators" tab with those of indicators and an "Observers" tab with
    those of observers, each in the order of the figure list with the
    toolbar on the left, a tab without panel being left out, and then the
    analyzer tab when there is one.  A figure is on one of the tabs exactly
    when its master is a data feed, an indicator or an observer. *)
Theorem show_tabs_by_category : forall self,
  Forall (fun f => master_type f <> None) (_figures self) ->
  let tab title l :=
    match l with
    | [] => []
    | _ => [ChartPanel (gridplot (map (fun x => [x]) l) "left") title]
    end in
  let tabs :=
    tab "Datas"%string (filter (master_is DataBase) (_figures self))
    ++ tab "Indicators"%string (filter (master_is Indicator) (_figures self))
    ++ tab "Observers"%string (filter (master_is Observer) (_figures self))
    ++ match _get_analyzer_tab self with
       | Some p => [WidgetPanel p]
       | None => []
       end in
  _show_tabs self = Ok tabs /\
  forall f, In f (flat_map tab_figures tabs) <->
            In f (_figures self) /\
            (master_is DataBase f || master_is Indicator f
             || master_is Observer f) = true.
Proof. exact show_tabs_result. Qed.

Lemma show_tabs_by_category_witness :
  exists tabs,
    _show_tabs (fst (plot_call 1 call_panels (Bokeh_init plain_scheme)))
    = Ok tabs /\ length tabs = 4.
Proof.
  assert (HF : Forall (fun f => master_type f <> None)
                 (_figures (fst (plot_call 1 call_panels
                                   (Bokeh_init plain_scheme))))).
  { cbn. repeat constructor; discriminate. }
  eexists. split.
  - exact (proj1 (@show_tabs_by_category
                    (fst (plot_call 1 call_panels (Bokeh_init plain_scheme)))
                    HF)).
  - reflexivity.
Defined.

(** X18. After any session of [plot] calls on a fresh instance, [show]
    returns in both layout modes, whatever the calls did: in single mode a
    "Charts" tab first (also when there is no panel at all), and in either
    mode the analyzer tab last exactly when some call registered analyzers.
    For any other layout mode [show] raises "Unsupported plot mode". *)
Theorem show_after_session : forall fuel calls sch self',
  session fuel calls (Bokeh_init sch) = Some self' ->
  (exists grid rest,
     show (Some PlotMode_Single) self' =
       Ok (ChartPanel grid "Charts" :: rest) /\
     Permutation (concat (grid_children grid)) (_figures self') /\
     rest = match _get_analyzer_tab self' with
            | Some p => [WidgetPanel p]
            | None => []
            end) /\
  (exists charts,
     show (Some PlotMode_Tabs) self' =
       Ok (charts ++ match _get_analyzer_tab self' with
                     | Some p => [WidgetPanel p]
                     | None => []
                     end) /\
     length charts <= 3) /\
  show None self' = Raise (Exception "Unsupported plot mode").
Proof.
  intros fuel calls sch self' H.
  assert (HF : Forall (fun f => master_type f <> None) (_figures self')).
  { apply session_group_panels in H; [| constructor].
    eapply Forall_impl; [| exact H]. intros f [Hm _]. exact Hm. }
  split; [| split; [| reflexivity]].
  - destruct (show_single_result self' HF) as [Hs Hp].
    eexists. eexists. split; [exact Hs |]. split; [| reflexivity].
    cbn [grid_children].
    assert (Hid : forall l0 : list Figure,
               concat (map (fun x0 => [x0]) l0) = l0).
    { induction l0 as [| y l0 IH]; [reflexivity |].
      cbn. rewrite IH. reflexivity. }
    rewrite Hid. exact Hp.
  - destruct (show_tabs_result self' HF) as [Hs _].
    eexists. split.
    + cbn [show]. rewrite Hs. rewrite !app_assoc. reflexivity.
    + rewrite !length_app.
      destruct (filter (master_is DataBase) (_figures self'));
        destruct (filter (master_is Indicator) (_figures self'));
        destruct (filter (master_is Observer) (_figures self'));
        cbn [length]; lia.
Qed.

Lemma show_after_session_witness :
  exists grid rest,
    show (Some PlotMode_Single)
         (fst (plot_call 1 call_panels (Bokeh_init plain_scheme)))
    = Ok (ChartPanel grid "Charts" :: rest) /\
    length (grid_children grid) = 3.
Proof.
  eassert (E : session 1 [call_panels] (Bokeh_init plain_scheme) = Some _)
    by (vm_compute; reflexivity).
  destruct (proj1 (show_after_session _ _ _ E))
    as (grid & rest & Hs & Hp & _).
  exists grid, rest.
  eassert (E' : plot_call 1 call_panels (Bokeh_init plain_scheme) = (_, Ok tt))
    by (vm_compute; reflexivity).
  rewrite E'. cbn [fst]. split; [exact Hs |].
  vm_compute in Hs. inversion Hs. reflexivity.
Defined.

(** ** Sizes and the shared time source *)

Lemma setitem_length : forall k v g,
  length (setitem k v g) <= S (length g).
Proof.
  intros k v g. induction g as [| [k0 v0] g IH]; simpl.
  - lia.
  - destruct (key_eqb k k0); simpl; lia.
Qed.

Lemma setitem_present_length : forall k v g,
  contains k g = true -> length (setitem k v g) = length g.
Proof.
  intros k v g. induction g as [| [k0 v0] g IH]; simpl; intros H.
  - discriminate.
  - destruct (key_eqb k k0); simpl; [reflexivity |].
    rewrite IH; [reflexivity | exact H].
Qed.

Lemma apply_action_length : forall x a g,
  length (apply_action x a g) <= S (length g).
Proof.
  intros x a g. destruct a as [| | k]; simpl.
  - lia.
  - apply setitem_length.
  - destruct (contains k g) eqn:Ec.
    + destruct (getitem k g); [| lia].
      rewrite setitem_present_length; [lia | exact Ec].
    + rewrite getitem_setitem, key_eqb_refl.
      rewrite setitem_present_length.
      * apply setitem_length.
      * rewrite contains_getitem, getitem_setitem, key_eqb_refl. reflexivity.
Qed.

Lemma graph_of_length : forall acts, length (graph_of acts) <= length acts.
Proof.
  induction acts as [| [x a] acts IH] using rev_ind.
  - simpl. lia.
  - rewrite graph_of_snoc, length_app. cbn [length].
    pose proof (apply_action_length x a (graph_of acts)). lia.
Qed.

(** The call of [_build_graph] inside a call of [plot] that returns. *)
Lemma plot_call_build : forall fuel c self self',
  plot_call fuel c self = (self', Ok tt) ->
  reaches_build c = true ->
  exists s0 s1,
    _build_graph fuel (c_heap c) (datas (c_strategy c))
      (getindicators (c_strategy c)) (getobservers (c_strategy c)) s0
    = (s1, Ok tt) /\
    scheme s0 = scheme self /\
    _data_graph self' = _data_graph s1 /\
    _volume_graphs self' = _volume_graphs s1.
Proof.
  intros fuel c self self' H Hr.
  destruct (reaches_graph c self) eqn:Eg;
    [| rewrite (plot_call_no_slice _ _ _ Hr Eg) in H; discriminate].
  rewrite (plot_call_at_graph _ _ _ Eg) in H.
  apply render_panels_ok in H.
  destruct H as (s4 & g & figs & hc & Hb & Hg & _ & _ & ->).
  exists (at_graph c self), s4. split; [exact Hb |].
  split; [reflexivity |]. split; reflexivity.
Qed.

(** X19. A call of [plot] adds at most one panel per plottable of the
    strategy: the number of panels it adds, which is the number of groups of
    the plot graph, is at most the number of data feeds, observers and
    indicators together. *)
Theorem plot_panels_bounded : forall fuel c self self',
  plot_call fuel c self = (self', Ok tt) ->
  reaches_build c = true ->
  exists g figs,
    _data_graph self' = Some g /\
    _figures self' = _figures self ++ figs /\
    length figs = length g /\
    length g <= length (datas (c_strategy c))
                + length (getobservers (c_strategy c))
                + length (getindicators (c_strategy c)).
Proof.
  intros fuel c self self' H Hr.
  destruct (plot_call_build _ _ _ H Hr) as (s0 & s1 & Hb & _ & Hg & _).
  destruct (plot_call_ok _ _ _ H) as [[Hn _] | (_ & g & figs & hc & Hg' & Hl & _ & Hf)];
    [congruence |].
  exists g, (style_figures (scheme self) hc figs).
  split; [exact Hg' |]. split; [exact Hf |].
  split; [rewrite style_figures_length; exact Hl |].
  apply build_graph_acts in Hb. destruct Hb as (acts & HF & Hga & _).
  assert (g = graph_of acts) by congruence. subst g.
  pose proof (graph_of_length acts) as Hlen.
  apply Forall2_length in HF. unfold plottables in HF.
  rewrite !length_app, !length_map in HF. lia.
Qed.

Lemma plot_panels_bounded_witness :
  exists g figs,
    _data_graph (fst (plot_call 1 call_panels (Bokeh_init plain_scheme)))
    = Some g /\
    _figures (fst (plot_call 1 call_panels (Bokeh_init plain_scheme)))
    = [] ++ figs /\
    length figs = length g /\ length g <= 1 + 1 + 2.
Proof.
  exact (@plot_panels_bounded 1 call_panels (Bokeh_init plain_scheme) _
           eq_refl eq_refl).
Defined.

Lemma plot_call_shared_source : forall fuel c self self' o,
  plot_call fuel c self = (self', o) ->
  Forall (fun f => fig_cds f = _cds self) (_figures self) ->
  (_figures self <> [] -> _cds self <> None) ->
  Forall (fun f => fig_cds f = _cds self') (_figures self') /\
  (_figures self' <> [] -> _cds self' <> None).
Proof.
  intros fuel c self self' o H HP Hne.
  destruct (plot_call_cds_figures _ _ _ H) as (Hc & _ & _).
  assert (Hkeep : _figures self <> [] -> _cds self' = _cds self).
  { intros Hn. specialize (Hne Hn). rewrite Hc.
    destruct (_cds self); [reflexivity | contradiction]. }
  assert (Hold : Forall (fun f => fig_cds f = _cds self') (_figures self)).
  { destruct (_figures self) as [| f0 fs] eqn:Ef; [constructor |].
    rewrite Hkeep by discriminate. exact HP. }
  destruct o as [[] | e |].
  - destruct (plot_call_ok _ _ _ H)
      as [[_ ->] | (Hr & g & figs & hc & _ & _ & Hall & Hf)].
    + split; [exact HP | exact Hne].
    + split.
      * rewrite Hf. apply Forall_app. split; [exact Hold |].
        apply style_figures_cds. exact Hall.
      * intros _. rewrite Hc. destruct (_cds self) eqn:Ec; [discriminate |].
        rewrite Hr.
        destruct (reaches_graph c self) eqn:Eg;
          [| rewrite (plot_call_no_slice _ _ _ Hr Eg) in H; discriminate].
        unfold reaches_graph in Eg. rewrite Hr, Ec in Eg. cbn [andb] in Eg.
        destruct (cds_of_call c); discriminate.
  - rewrite (plot_call_failure _ _ _ H) by discriminate.
    split; [exact Hold |]. intros Hn. rewrite (Hkeep Hn). apply Hne, Hn.
  - rewrite (plot_call_failure _ _ _ H) by discriminate.
    split; [exact Hold |]. intros Hn. rewrite (Hkeep Hn). apply Hne, Hn.
Qed.

(** X20. Over a whole session started by [__init__], every panel of the
    figure list is bound to one and the same time source, the one the
    session holds: panels of later calls, for other strategies or other
    ranges, are bound to the source built for the first. *)
Theorem session_panels_share_time_source : forall fuel calls sch self',
  session fuel calls (Bokeh_init sch) = Some self' ->
  Forall (fun f => fig_cds f = _cds self') (_figures self') /\
  _cds self' = first_cds calls.
Proof.
  intros fuel calls sch self' H. split.
  - assert (Hgen : forall cs s s',
               session fuel cs s = Some s' ->
               Forall (fun f => fig_cds f = _cds s) (_figures s) ->
               (_figures s <> [] -> _cds s <> None) ->
               Forall (fun f => fig_cds f = _cds s') (_figures s')).
    { induction cs as [| c cs IH]; intros s s' Hs HP Hne.
      - inversion Hs; subst. exact HP.
      - simpl in Hs. destruct (plot_call fuel c s) as [s1 o] eqn:E.
        destruct (plot_call_shared_source _ _ _ E HP Hne) as [HP1 Hne1].
        destruct o; [| | discriminate]; eapply IH; eassumption. }
    eapply Hgen; [exact H | constructor |]. intros Hn. contradiction Hn.
    reflexivity.
  - apply session_cds_figures in H. apply H.
Qed.

Lemma session_panels_share_time_source_witness :
  exists self',
    session 1 [call_full; call_from_1] (Bokeh_init plain_scheme) = Some self' /\
    Forall (fun f => fig_cds f = _cds self') (_figures self') /\
    _cds self' = first_cds [call_full; call_from_1].
Proof.
  eassert (E : session 1 [call_full; call_from_1] (Bokeh_init plain_scheme)
               = Some _) by (vm_compute; reflexivity).
  eexists. split; [exact E |].
  exact (session_panels_share_time_source _ _ _ E).
Defined.
